(** * Surfify: the spherical U-Net and the surface augmentations

    A shallow embedding of [surfify/models/unet.py] and
    [surfify/augmentation/base.py].

    Python integers are [Z]; arrays handed around by the geometric helpers
    are kept abstract; a batch x channels x vertices tensor is a nested list
    together with its three sizes; an exception is a value of [exn]; the
    calls whose order matters (cached geometric helpers, block constructors,
    block and layer executions) are recorded in a log. *)

From Stdlib Require Import ZArith QArith Qround Qreals Reals Lra Lia List String.
From Stdlib Require Lqa.
From stdpp Require Import base option list gmap strings pretty.
Import ListNotations.

Local Open Scope Z_scope.

(** ** Exceptions, results, and the logging monad *)

Inductive exn : Type :=
| ValueError (msg : string)
| RuntimeError (msg : string)
| KeyError (key : Z)
| IndexError (msg : string)
| AttributeError (msg : string)
| NameError (msg : string)
| AssertionError.

Inductive result (A : Type) : Type :=
| Ok (a : A)
| Raise (e : exn).
Arguments Ok {A} a.
Arguments Raise {A} e.

(** What the log records.  The first group are calls of the (cached)
    geometric helpers and the constructors run by [SphericalUNet.__init__];
    the second group are the executions made by [SphericalUNet.forward]. *)
Inductive event : Type :=
| EvIcosahedron (order : Z)
| EvNeighbors (order depth : Z)
| EvNeighborsRec (order : Z)
| EvDownsample (order : Z)
| EvInterpolate (order : Z)
| EvNewDownBlock (idx : Z)
| EvNewUpBlock (cnt : Z)
| EvNewLinear
| EvDownBlock (idx : Z)
| EvUpBlock (idx : Z)
| EvLinear.

Definition M (A : Type) : Type := (list event * result A)%type.

Definition ret {A} (a : A) : M A := ([], Ok a).

Definition raise {A} (e : exn) : M A := ([], Raise e).

Definition bind {A B} (k : A -> M B) (m : M A) : M B :=
  match m with
  | (l1, Ok a) => let '(l2, r) := k a in (l1 ++ l2, r)
  | (l1, Raise e) => (l1, Raise e)
  end.

#[global] Instance M_ret : MRet M := @ret.
#[global] Instance M_bind : MBind M := @bind.

Definition lift {A} (r : result A) : M A := ([], r).

(** [call ev r]: the call logged as [ev] is made and gives [r]. *)
Definition call {A} (ev : event) (r : result A) : M A := ([ev], r).

Fixpoint foldM {S A} (f : S -> A -> M S) (s : S) (l : list A) : M S :=
  match l with
  | [] => ret s
  | a :: l' => s' ← f s a; foldM f s' l'
  end.

Definition trace {A} (m : M A) : list event := fst m.
Definition outcome {A} (m : M A) : result A := snd m.

(** ** Python ranges and list indexing *)

(** [range(a, b)] *)
Definition range (a b : Z) : list Z :=
  map (fun i => a + Z.of_nat i) (seq 0 (Z.to_nat (b - a))).

(** [range(a, b, -1)] *)
Definition range_down (a b : Z) : list Z :=
  map (fun i => a - Z.of_nat i) (seq 0 (Z.to_nat (a - b))).

(** [l[i]]: a negative index counts from the end. *)
Definition py_index {A} (l : list A) (i : Z) : result A :=
  let n := Z.of_nat (length l) in
  let j := if i <? 0 then i + n else i in
  if (0 <=? j) && (j <? n) then
    match nth_error l (Z.to_nat j) with
    | Some a => Ok a
    | None => Raise (IndexError "list index out of range")
    end
  else Raise (IndexError "list index out of range").

(** ** Tensors *)

Section Tensors.
Context {T : Type}.

(** A three-dimensional tensor: its sizes and its entries, [elems !! b !! c !! v]. *)
Record Tensor : Type := mkTensor {
  size0 : nat;
  size1 : nat;
  size2 : nat;
  elems : list (list (list T))
}.

(** A two-dimensional tensor. *)
Record Matrix : Type := mkMatrix {
  nrows : nat;
  ncols : nat;
  mrows : list (list T)
}.

Definition wf_rows (r c : nat) (m : list (list T)) : Prop :=
  length m = r /\ Forall (fun row => length row = c) m.

Definition wf_tensor (t : Tensor) : Prop :=
  length (elems t) = size0 t /\
  Forall (wf_rows (size1 t) (size2 t)) (elems t).

Definition heads (m : list (list T)) : list T :=
  flat_map (fun row => match row with [] => [] | a :: _ => [a] end) m.

Definition tails (m : list (list T)) : list (list T) :=
  map (fun row => match row with [] => [] | _ :: r => r end) m.

(** The transpose of a matrix with [c] columns. *)
Fixpoint transpose (c : nat) (m : list (list T)) : list (list T) :=
  match c with
  | O => []
  | S c' => heads m :: transpose c' (tails m)
  end.

(** [x.permute(0, 2, 1)] *)
Definition permute021 (t : Tensor) : Tensor :=
  mkTensor (size0 t) (size2 t) (size1 t) (map (transpose (size2 t)) (elems t)).

(** The entries in row-major order, and [n] consecutive groups of [k]. *)
Definition flatten3 (t : Tensor) : list T := concat (concat (elems t)).

Fixpoint regroup {A} (n k : nat) (l : list A) : list (list A) :=
  match n with
  | O => []
  | S n' => firstn k l :: regroup n' k (skipn k l)
  end.

Definition sizes_fit (dims : list Z) (numel : nat) : bool :=
  forallb (fun d => 0 <=? d) dims && (fold_right Z.mul 1 dims =? Z.of_nat numel).

(** [x.reshape(r, c)] of a three-dimensional tensor (sizes are never the
    wildcard -1 where the model uses it). *)
Definition reshape2 (t : Tensor) (r c : Z) : result Matrix :=
  if sizes_fit [r; c] (size0 t * size1 t * size2 t)%nat then
    Ok (mkMatrix (Z.to_nat r) (Z.to_nat c)
          (regroup (Z.to_nat r) (Z.to_nat c) (flatten3 t)))
  else Raise (RuntimeError "shape is invalid for input size").

(** [x.view(a, b, c)] of a two-dimensional tensor. *)
Definition view3 (m : Matrix) (a b c : Z) : result Tensor :=
  if sizes_fit [a; b; c] (nrows m * ncols m)%nat then
    Ok (mkTensor (Z.to_nat a) (Z.to_nat b) (Z.to_nat c)
          (regroup (Z.to_nat a) (Z.to_nat b)
             (regroup (Z.to_nat a * Z.to_nat b) (Z.to_nat c) (concat (mrows m)))))
  else Raise (RuntimeError "shape is invalid for input size").

(** [torch.cat((x1, x2), 1)] *)
Definition cat1 (x1 x2 : Tensor) : result Tensor :=
  if Nat.eqb (size0 x1) (size0 x2) && Nat.eqb (size2 x1) (size2 x2) then
    Ok (mkTensor (size0 x1) (size1 x1 + size1 x2) (size2 x1)
          (zip_with (@app (list T)) (elems x1) (elems x2)))
  else Raise (RuntimeError "Sizes of tensors must match except in dimension 1").

(** *** [nn.Linear] *)

Variable tzero : T.
Variables tadd tmul : T -> T -> T.

Record Linear : Type := mkLinear {
  in_features : Z;
  out_features : Z;
  weight : list (list T);
  bias : list T
}.

Definition dot (w x : list T) : T :=
  fold_right tadd tzero (zip_with tmul x w).

(** One feature vector through the layer: [x W^T + b]. *)
Definition linear_row (l : Linear) (x : list T) : list T :=
  zip_with tadd (map (fun w => dot w x) (weight l)) (bias l).

(** The layer on a two-dimensional input, one row per sample. *)
Definition Linear_forward (l : Linear) (m : Matrix) : result Matrix :=
  if Z.of_nat (ncols m) =? in_features l then
    Ok (mkMatrix (nrows m) (Z.to_nat (out_features l)) (map (linear_row l) (mrows m)))
  else Raise (RuntimeError "mat1 and mat2 shapes cannot be multiplied").

Definition wf_linear (l : Linear) : Prop :=
  0 <= in_features l /\ 0 <= out_features l /\
  wf_rows (Z.to_nat (out_features l)) (Z.to_nat (in_features l)) (weight l) /\
  length (bias l) = Z.to_nat (out_features l).

End Tensors.

Arguments Tensor T : clear implicits.
Arguments Matrix T : clear implicits.
Arguments Linear T : clear implicits.


(** ** Facts about the monad, ranges and tensors *)

Lemma bind_ret_l {A B} (a : A) (k : A -> M B) : (ret a ≫= k) = k a.
Proof. unfold mbind, M_bind, bind, ret. destruct (k a); reflexivity. Qed.

Lemma bind_lift_ok {A B} (a : A) (k : A -> M B) : (lift (Ok a) ≫= k) = k a.
Proof. apply bind_ret_l. Qed.

Lemma bind_call_ok {A B} ev (a : A) (k : A -> M B) :
  (call ev (Ok a) ≫= k) = (ev :: trace (k a), outcome (k a)).
Proof. unfold mbind, M_bind, bind, call, trace, outcome. destruct (k a); reflexivity. Qed.

Lemma bind_ok {A B} (m : M A) (k : A -> M B) l a :
  m = (l, Ok a) -> (m ≫= k) = (l ++ trace (k a), outcome (k a)).
Proof. intros ->. unfold mbind, M_bind, bind, trace, outcome. destruct (k a); reflexivity. Qed.

Lemma bind_fail {A B} (m : M A) (k : A -> M B) l e :
  m = (l, Raise e) -> (m ≫= k) = (l, Raise e).
Proof. intros ->. reflexivity. Qed.

Lemma foldM_app {S A} (f : S -> A -> M S) (s : S) (l1 l2 : list A) :
  foldM f s (l1 ++ l2) = (foldM f s l1 ≫= fun s' => foldM f s' l2).
Proof.
  revert s. induction l1 as [|a l1 IH]; intros s.
  - cbn [foldM app]. symmetry. exact (bind_ret_l s (fun s' => foldM f s' l2)).
  - cbn [foldM app]. unfold mbind, M_bind, bind in *.
    destruct (f s a) as [tr [s'|e]]; [|reflexivity].
    rewrite IH.
    destruct (foldM f s' l1) as [tr1 [s1|e1]]; [|reflexivity].
    destruct (foldM f s1 l2). by rewrite app_assoc.
Qed.

Lemma range_nil a b : b <= a -> range a b = [].
Proof. intros H. unfold range. replace (Z.to_nat (b - a)) with O by lia. reflexivity. Qed.

Lemma range_cons a b : a < b -> range a b = a :: range (a + 1) b.
Proof.
  intros H. unfold range.
  replace (Z.to_nat (b - a)) with (S (Z.to_nat (b - (a + 1)))) by lia.
  simpl. f_equal; [lia|].
  rewrite <- seq_shift, map_map. apply map_ext. intros; lia.
Qed.

Lemma range_snoc a b : a <= b -> range a (b + 1) = range a b ++ [b].
Proof.
  intros H. unfold range.
  replace (Z.to_nat (b + 1 - a)) with (Z.to_nat (b - a) + 1)%nat by lia.
  rewrite seq_app, map_app. simpl. do 2 f_equal. lia.
Qed.

Lemma range_down_nil a b : a <= b -> range_down a b = [].
Proof. intros H. unfold range_down. replace (Z.to_nat (a - b)) with O by lia. reflexivity. Qed.

Lemma range_down_cons a b : b < a -> range_down a b = a :: range_down (a - 1) b.
Proof.
  intros H. unfold range_down.
  replace (Z.to_nat (a - b)) with (S (Z.to_nat (a - 1 - b))) by lia.
  simpl. f_equal; [lia|].
  rewrite <- seq_shift, map_map. apply map_ext. intros; lia.
Qed.

(** A loop over [range(a, b)] whose every iteration succeeds, with an
    invariant indexed by the next value of the loop variable. *)
Lemma foldM_range {S} (f : S -> Z -> M S) (I : Z -> S -> Prop) (ev : Z -> list event)
    (a b : Z) (s0 : S) :
  a <= b -> I a s0 ->
  (forall k s, a <= k < b -> I k s -> exists s', f s k = (ev k, Ok s') /\ I (k + 1) s') ->
  exists s', foldM f s0 (range a b) = (flat_map ev (range a b), Ok s') /\ I b s'.
Proof.
  intros Hab. remember (Z.to_nat (b - a)) as n eqn:Hn.
  revert a s0 Hab Hn. induction n as [|n IH]; intros a s0 Hab Hn H0 Hstep.
  - assert (a = b) by lia. subst b. rewrite range_nil by lia. exists s0. by split.
  - rewrite range_cons by lia. cbn [foldM flat_map].
    destruct (Hstep a s0 ltac:(lia) H0) as (s1 & Hf & H1).
    destruct (IH (a + 1) s1 ltac:(lia) ltac:(lia) H1) as (s' & Hfold & Hb).
    { intros k s Hk. apply Hstep. lia. }
    exists s'. split; [|exact Hb].
    rewrite (bind_ok _ _ _ _ Hf), Hfold. reflexivity.
Qed.

(** The same for [range(a, b, -1)]. *)
Lemma foldM_range_down {S} (f : S -> Z -> M S) (I : Z -> S -> Prop) (ev : Z -> list event)
    (a b : Z) (s0 : S) :
  b <= a -> I a s0 ->
  (forall k s, b < k <= a -> I k s -> exists s', f s k = (ev k, Ok s') /\ I (k - 1) s') ->
  exists s', foldM f s0 (range_down a b) = (flat_map ev (range_down a b), Ok s') /\ I b s'.
Proof.
  intros Hab. remember (Z.to_nat (a - b)) as n eqn:Hn.
  revert a s0 Hab Hn. induction n as [|n IH]; intros a s0 Hab Hn H0 Hstep.
  - assert (a = b) by lia. subst b. rewrite range_down_nil by lia. exists s0. by split.
  - rewrite range_down_cons by lia. cbn [foldM flat_map].
    destruct (Hstep a s0 ltac:(lia) H0) as (s1 & Hf & H1).
    destruct (IH (a - 1) s1 ltac:(lia) ltac:(lia) H1) as (s' & Hfold & Hb).
    { intros k s Hk. apply Hstep. lia. }
    exists s'. split; [|exact Hb].
    rewrite (bind_ok _ _ _ _ Hf), Hfold. reflexivity.
Qed.

Lemma elem_of_range a b k : In k (range a b) <-> a <= k < b.
Proof.
  unfold range. rewrite in_map_iff. split.
  - intros (i & <- & Hi). apply in_seq in Hi. lia.
  - intros H. exists (Z.to_nat (k - a)). split; [lia|]. apply in_seq. lia.
Qed.

Lemma py_index_ok {A} (l : list A) (i : Z) a :
  0 <= i -> nth_error l (Z.to_nat i) = Some a -> py_index l i = Ok a.
Proof.
  intros Hi Hn. unfold py_index.
  assert (Z.to_nat i < length l)%nat by (apply nth_error_Some; congruence).
  destruct (i <? 0) eqn:E; [lia|].
  destruct (0 <=? i) eqn:E1; [|lia].
  destruct (i <? Z.of_nat (length l)) eqn:E2; [|lia].
  simpl. by rewrite Hn.
Qed.

Section TensorFacts.
Context {T : Type}.
Implicit Types m : list (list T).

Lemma regroup_concat {A} (ls : list (list A)) (n k : nat) :
  length ls = n -> Forall (fun r => length r = k) ls -> regroup n k (concat ls) = ls.
Proof.
  revert n. induction ls as [|r ls IH]; intros n Hn Hall; subst n; simpl.
  - reflexivity.
  - inversion Hall as [|? ? Hr Hls]; subst.
    rewrite firstn_app, Nat.sub_diag, firstn_all, firstn_O, app_nil_r.
    rewrite skipn_app, Nat.sub_diag, skipn_all, skipn_O. simpl.
    f_equal. by apply IH.
Qed.

Lemma length_concat_uniform {A} (ls : list (list A)) (k : nat) :
  Forall (fun r => length r = k) ls -> length (concat ls) = (length ls * k)%nat.
Proof.
  induction 1 as [|r ls Hr _ IH]; simpl; [reflexivity|].
  rewrite length_app, IH, Hr. reflexivity.
Qed.

Lemma Forall_concat {A} (P : A -> Prop) (ls : list (list A)) :
  Forall (Forall P) ls -> Forall P (concat ls).
Proof.
  induction 1; simpl; [constructor|]. apply Forall_app; split; assumption.
Qed.

(** Column [v] of a matrix. *)
Definition col (v : nat) m : list T :=
  flat_map (fun row => match nth_error row v with Some a => [a] | None => [] end) m.

Lemma col_0 m : col 0 m = heads m.
Proof.
  unfold col, heads. induction m as [|r m IH]; cbn [flat_map]; [reflexivity|].
  rewrite IH. destruct r; reflexivity.
Qed.

Lemma col_S v m : col (S v) m = col v (tails m).
Proof.
  unfold col, tails. induction m as [|r m IH]; cbn [flat_map map]; [reflexivity|].
  rewrite IH. destruct r; cbn [nth_error]; [|reflexivity].
  destruct v; reflexivity.
Qed.

Lemma transpose_cols c m : transpose c m = map (fun v => col v m) (seq 0 c).
Proof.
  revert m. induction c as [|c IH]; intros m; simpl; [reflexivity|].
  rewrite col_0. f_equal.
  rewrite <- seq_shift, map_map, IH. apply map_ext. intros v. by rewrite col_S.
Qed.

Lemma col_map_nth (d : T) v m :
  Forall (fun row => (v < length row)%nat) m ->
  col v m = map (fun row => nth v row d) m.
Proof.
  induction 1 as [|r m Hr _ IH]; [reflexivity|].
  unfold col in *. cbn [flat_map map]. rewrite IH.
  destruct (nth_error r v) eqn:E.
  - cbn [app]. f_equal. symmetry. by apply nth_error_nth.
  - apply nth_error_None in E. lia.
Qed.

Lemma length_col v r c m : wf_rows r c m -> (v < c)%nat -> length (col v m) = r.
Proof.
  intros [Hlen Hall] Hv. subst r.
  induction Hall as [|row m Hr _ IH]; [reflexivity|].
  unfold col in *. cbn [flat_map]. rewrite length_app, IH.
  destruct (nth_error row v) eqn:E; [reflexivity|].
  apply nth_error_None in E. lia.
Qed.

Lemma wf_transpose r c m : wf_rows r c m -> wf_rows c r (transpose c m).
Proof.
  intros Hwf. rewrite transpose_cols. split.
  - by rewrite length_map, length_seq.
  - apply Forall_map, Forall_forall. intros v Hv.
    apply list_elem_of_In, in_seq in Hv. eapply length_col; [eassumption|lia].
Qed.

Lemma map_seq_nth {A B} (f : A -> B) (l : list A) (d : A) :
  map f l = map (fun i => f (nth i l d)) (seq 0 (length l)).
Proof.
  induction l as [|a l IH]; simpl; [reflexivity|].
  f_equal. rewrite <- seq_shift, map_map. exact IH.
Qed.

Lemma wf_permute021 (t : Tensor T) : wf_tensor t -> wf_tensor (permute021 t).
Proof.
  intros [Hlen Hall]. split; simpl.
  - by rewrite length_map.
  - apply Forall_map. eapply Forall_impl; [exact Hall|].
    intros m Hm. by apply wf_transpose.
Qed.

End TensorFacts.

Section ReshapeFacts.
Context {T : Type}.

Lemma sizes_fit_2 (r c : nat) :
  sizes_fit [Z.of_nat r; Z.of_nat c] (r * c) = true.
Proof.
  unfold sizes_fit. cbn [forallb fold_right].
  rewrite !andb_true_iff, !Z.leb_le, Z.eqb_eq. repeat split; lia.
Qed.

Lemma sizes_fit_3 (a b c : nat) :
  sizes_fit [Z.of_nat a; Z.of_nat b; Z.of_nat c] (a * b * c) = true.
Proof.
  unfold sizes_fit. cbn [forallb fold_right].
  rewrite !andb_true_iff, !Z.leb_le, Z.eqb_eq. repeat split; lia.
Qed.

(** Flattening the permuted tensor lists, sample after sample, the feature
    vectors of the vertices. *)
Lemma reshape2_permute021 (x : Tensor T) :
  wf_tensor x ->
  reshape2 (permute021 x) (Z.of_nat (size0 x) * Z.of_nat (size2 x)) (Z.of_nat (size1 x)) =
  Ok (mkMatrix (size0 x * size2 x) (size1 x)
        (concat (map (transpose (size2 x)) (elems x)))).
Proof.
  intros Hwf. pose proof (wf_permute021 x Hwf) as [Hlen Hall].
  unfold reshape2. cbn [size0 size1 size2 permute021] in *.
  rewrite <- Nat2Z.inj_mul, sizes_fit_2, !Nat2Z.id.
  f_equal. f_equal. unfold flatten3. cbn [elems permute021] in *.
  apply regroup_concat.
  - rewrite (length_concat_uniform _ (size2 x)).
    + by rewrite Hlen.
    + eapply Forall_impl; [exact Hall|]. by intros m [? _].
  - apply Forall_concat. eapply Forall_impl; [exact Hall|]. by intros m [_ ?].
Qed.

Lemma view3_groups (a b c : nat) (groups : list (list (list T))) :
  length groups = a -> Forall (wf_rows b c) groups ->
  view3 (mkMatrix (a * b) c (concat groups)) (Z.of_nat a) (Z.of_nat b) (Z.of_nat c) =
  Ok (mkTensor a b c groups).
Proof.
  intros Hlen Hall. unfold view3. cbn [nrows ncols mrows].
  rewrite sizes_fit_3, !Nat2Z.id. f_equal. f_equal.
  rewrite regroup_concat.
  - apply regroup_concat; [assumption|].
    eapply Forall_impl; [exact Hall|]. by intros m [? _].
  - rewrite (length_concat_uniform _ b).
    + by rewrite Hlen.
    + eapply Forall_impl; [exact Hall|]. by intros m [? _].
  - apply Forall_concat. eapply Forall_impl; [exact Hall|]. by intros m [_ ?].
Qed.

End ReshapeFacts.

Lemma trace_bind {A B} (m : M A) (k : A -> M B) :
  trace (m ≫= k) =
  trace m ++ match outcome m with Ok a => trace (k a) | Raise _ => [] end.
Proof.
  unfold mbind, M_bind, bind, trace, outcome. destruct m as [l [a|e]]; cbn.
  - by destruct (k a).
  - by rewrite app_nil_r.
Qed.

(** The computation ends with an exception. *)
Definition raises {A} (m : M A) : Prop := exists tr e, m = (tr, Raise e).

Lemma raises_bind_ok {A B} (m : M A) (k : A -> M B) l a :
  m = (l, Ok a) -> raises (k a) -> raises (m ≫= k).
Proof.
  intros -> (tr & e & E). exists (l ++ tr), e.
  unfold mbind, M_bind, bind. by rewrite E.
Qed.

Lemma raises_bind_fail {A B} (m : M A) (k : A -> M B) l e :
  m = (l, Raise e) -> raises (m ≫= k).
Proof. intros ->. by exists l, e. Qed.

Lemma nth_error_range (a b i : Z) :
  0 <= i < b - a -> nth_error (range a b) (Z.to_nat i) = Some (a + i).
Proof.
  intros Hi. unfold range. rewrite nth_error_map, nth_error_seq.
  destruct (Nat.ltb_spec (Z.to_nat i) (Z.to_nat (b - a))) as [_|H]; [|lia].
  cbn. f_equal. lia.
Qed.

Lemma length_range (a b : Z) : length (range a b) = Z.to_nat (b - a).
Proof. unfold range. by rewrite length_map, length_seq. Qed.

Lemma range_app (a c b : Z) : a <= c <= b -> range a b = range a c ++ range c b.
Proof.
  remember (Z.to_nat (c - a)) as n eqn:Hn. revert a Hn.
  induction n as [|n IH]; intros a Hn Hc.
  - assert (a = c) by lia. subst. by rewrite (range_nil c c) by lia.
  - rewrite (range_cons a b), (range_cons a c) by lia.
    cbn [app]. f_equal. apply IH; lia.
Qed.

(** A loop over [range(a, b)] stops at the first iteration that raises. *)
Lemma foldM_range_raise {S} (f : S -> Z -> M S) (I : Z -> S -> Prop) (ev : Z -> list event)
    (a b c : Z) (s0 : S) (tr : list event) (e : exn) :
  a <= c < b -> I a s0 ->
  (forall k s, a <= k < c -> I k s -> exists s', f s k = (ev k, Ok s') /\ I (k + 1) s') ->
  (forall s, I c s -> f s c = (tr, Raise e)) ->
  foldM f s0 (range a b) = (flat_map ev (range a c) ++ tr, Raise e).
Proof.
  intros Hc H0 Hstep Hfail.
  destruct (foldM_range f I ev a c s0 ltac:(lia) H0 Hstep) as (s' & E & Ic).
  assert (Hsplit : range a b = range a c ++ range c b) by (apply range_app; lia).
  rewrite Hsplit, foldM_app, (bind_ok _ _ _ _ E).
  rewrite (range_cons c b) by lia. cbn [foldM].
  rewrite (bind_fail _ _ _ _ (Hfail s' Ic)). reflexivity.
Qed.
(** ** The spherical U-Net ([surfify/models/unet.py]) *)

Section UNet.

#[local] Set Default Proof Using "Type".

(** Arrays of the geometric helpers ([surfify.utils]), kept abstract:
    vertices, triangles, the mappings returned by [neighbors] and
    [interpolate], and index or weight arrays. *)
Context {Verts Tris Mapping Arr : Type}.

(** Scalars of the tensors, and the max-pooling provenance. *)
Context {T Prov : Type}.
Variable tzero : T.
Variables tadd tmul : T -> T -> T.

(** The geometric helpers imported from [surfify.utils]. *)
Variable number_of_ico_vertices : Z -> Z.
Variable icosahedron : Z -> Verts * Tris.
Variable neighbors : Verts -> Tris -> Z -> bool -> Mapping.
Variable neighbors_rec : Verts -> Tris -> Z -> Z -> Arr * Arr * Arr.
Variable downsample : Verts -> Verts -> Arr.
Variable interpolate : Verts -> Verts -> Tris -> Mapping.

(** [np.asarray(list(d.values()))] *)
Variable asarray_values : Mapping -> Arr.

(** [Memory(cachedir).cache(f)]: the wrapped function gives the value of
    [f], stored or recomputed. *)
Definition cache {A} (f : A) : A := f.

Inductive ConvNeighs : Type :=
| CNArray (neighs : Arr)
| CNPair (neighs weights : Arr).

Record Ico : Type := mkIco {
  order : Z;
  vertices : Verts;
  triangles : Tris;
  neighbor_indices : Arr;
  down_indices : option Arr;
  up_indices : option Arr;
  conv_neighbor_indices : ConvNeighs
}.

(** [ico._replace(down_indices=d)] and [ico._replace(up_indices=u)] *)
Definition replace_down_indices (r : Ico) (d : Arr) : Ico :=
  mkIco (order r) (vertices r) (triangles r) (neighbor_indices r)
        (Some d) (up_indices r) (conv_neighbor_indices r).

Definition replace_up_indices (r : Ico) (u : Arr) : Ico :=
  mkIco (order r) (vertices r) (triangles r) (neighbor_indices r)
        (down_indices r) (Some u) (conv_neighbor_indices r).

(** [self.ico[k]] *)
Definition ico_get (ico : gmap Z Ico) (k : Z) : M Ico :=
  match ico !! k with
  | Some r => ret r
  | None => raise (KeyError k)
  end.

(** [a.shape] where [a] may be [None] *)
Definition shape_of (a : option Arr) : M Arr :=
  match a with
  | Some a => ret a
  | None => raise (AttributeError "'NoneType' object has no attribute 'shape'")
  end.

(** *** The layers of [surfify.nn] and [torch.nn], by their constructor
    arguments *)

Inductive ConvLayer : Type := IcoRePaConv | IcoDiNeConv.

Inductive Layer : Type :=
| Conv (conv_layer : ConvLayer) (in_ch out_ch : Z) (conv_neigh_indices : ConvNeighs)
| BatchNorm1d (num_features : Z)
| LeakyReLU.

Record IcoPool : Type := mkIcoPool {
  pool_neigh_indices : option Arr;
  pool_down_indices : option Arr;
  pool_mode : string
}.

Inductive UpLayer : Type :=
| IcoUpSample (in_ch out_ch : Z) (up_neigh_indices : option Arr)
| IcoFixIndexUpSample (in_ch out_ch : Z) (up_neigh_indices : option Arr)
| IcoMaxIndexUpSample (in_ch out_ch : Z) (neigh_indices : Arr) (down_indices : option Arr)
| IcoUpConv (in_ch out_ch : Z) (neigh_indices : Arr) (down_indices : option Arr).

(** What the layers compute is outside this module. *)
Variable conv_forward : ConvLayer -> Z -> Z -> ConvNeighs -> Tensor T -> result (Tensor T).
Variable batchnorm_forward : Z -> Tensor T -> result (Tensor T).
Variable leaky_relu_forward : Tensor T -> result (Tensor T).
Variable pool_forward : IcoPool -> Tensor T -> result (Tensor T * option Prov).
Variable up_forward : UpLayer -> Tensor T -> result (Tensor T).
Variable up_forward_indices : UpLayer -> Tensor T -> option Prov -> result (Tensor T).

(** The parameters a new [nn.Linear] starts with. *)
Variable fc_weight : nat -> nat -> T.
Variable fc_bias : nat -> T.

Definition nn_Linear (in_f out_f : Z) : result (Linear T) :=
  if (in_f <? 0) || (out_f <? 0) then
    Raise (RuntimeError "Trying to create tensor with negative dimension")
  else
    Ok (mkLinear in_f out_f
          (map (fun j => map (fc_weight j) (seq 0 (Z.to_nat in_f))) (seq 0 (Z.to_nat out_f)))
          (map fc_bias (seq 0 (Z.to_nat out_f)))).

Definition layer_forward (l : Layer) (x : Tensor T) : result (Tensor T) :=
  match l with
  | Conv c i o n => conv_forward c i o n x
  | BatchNorm1d c => batchnorm_forward c x
  | LeakyReLU => leaky_relu_forward x
  end.

(** [nn.Sequential(...)(x)] *)
Fixpoint Sequential_forward (ls : list Layer) (x : Tensor T) : result (Tensor T) :=
  match ls with
  | [] => Ok x
  | l :: ls' =>
      match layer_forward l x with
      | Ok y => Sequential_forward ls' y
      | Raise e => Raise e
      end
  end.

(** The (conv => BN => ReLU) * 2 stack both blocks build. *)
Definition double_conv_layers (conv_layer : ConvLayer) (in_ch out_ch : Z)
    (conv_neigh_indices : ConvNeighs) : list Layer :=
  [ Conv conv_layer in_ch out_ch conv_neigh_indices; BatchNorm1d out_ch; LeakyReLU;
    Conv conv_layer out_ch out_ch conv_neigh_indices; BatchNorm1d out_ch; LeakyReLU ].

(** The layers allocate their parameters when they are built, and torch
    refuses to create a tensor with a negative dimension: the constructor of
    a layer with a negative number of channels raises. *)
Definition negative_dimension : exn :=
  RuntimeError "Trying to create tensor with negative dimension".

Definition new_Conv (conv_layer : ConvLayer) (in_ch out_ch : Z)
    (conv_neigh_indices : ConvNeighs) : result Layer :=
  if (in_ch <? 0) || (out_ch <? 0) then Raise negative_dimension
  else Ok (Conv conv_layer in_ch out_ch conv_neigh_indices).

Definition new_BatchNorm1d (num_features : Z) : result Layer :=
  if num_features <? 0 then Raise negative_dimension else Ok (BatchNorm1d num_features).

Definition new_UpLayer (in_ch out_ch : Z) (layer : UpLayer) : result UpLayer :=
  if (in_ch <? 0) || (out_ch <? 0) then Raise negative_dimension else Ok layer.

(** The arguments of [nn.Sequential(...)] are built from left to right; the
    first constructor that raises ends the construction. *)
Fixpoint new_Sequential (layers : list (result Layer)) : result (list Layer) :=
  match layers with
  | [] => Ok []
  | Ok l :: rest =>
      match new_Sequential rest with
      | Ok ls => Ok (l :: ls)
      | Raise e => Raise e
      end
  | Raise e :: _ => Raise e
  end.

(** The construction of the (conv => BN => ReLU) * 2 stack. *)
Definition double_conv_init (conv_layer : ConvLayer) (in_ch out_ch : Z)
    (conv_neigh_indices : ConvNeighs) : result (list Layer) :=
  new_Sequential
    [ new_Conv conv_layer in_ch out_ch conv_neigh_indices; new_BatchNorm1d out_ch;
      Ok LeakyReLU;
      new_Conv conv_layer out_ch out_ch conv_neigh_indices; new_BatchNorm1d out_ch;
      Ok LeakyReLU ].

(** *** DownBlock *)

Record DownBlock : Type := mkDownBlock {
  db_first : bool;
  db_pooling : option IcoPool;
  db_block : list Layer
}.

(** [__init__] builds the pooling layer, unless [first] is set, and then the
    stack: it fails where a layer of the stack cannot be built. *)
Definition DownBlock_init (conv_layer : ConvLayer) (in_ch out_ch : Z)
    (conv_neigh_indices : ConvNeighs) (down_neigh_indices down_indices : option Arr)
    (pool_mode : string) (first : bool) : result DownBlock :=
  let pooling :=
    if negb first then Some (mkIcoPool down_neigh_indices down_indices pool_mode)
    else None in
  match double_conv_init conv_layer in_ch out_ch conv_neigh_indices with
  | Ok block => Ok (mkDownBlock first pooling block)
  | Raise e => Raise e
  end.

Definition DownBlock_forward (self : DownBlock) (x : Tensor T)
    : result (Tensor T * option Prov) :=
  let pooled :=
    if negb (db_first self) then
      match db_pooling self with
      | Some p => pool_forward p x
      | None => Raise (AttributeError "'DownBlock' object has no attribute 'pooling'")
      end
    else Ok (x, None) in
  match pooled with
  | Ok (x, max_pool_indices) =>
      match Sequential_forward (db_block self) x with
      | Ok x => Ok (x, max_pool_indices)
      | Raise e => Raise e
      end
  | Raise e => Raise e
  end.

(** *** UpBlock *)

Record UpBlock : Type := mkUpBlock {
  ub_up_mode : string;
  ub_up : UpLayer;
  ub_double_conv : list Layer
}.

Definition UpBlock_init (conv_layer : ConvLayer) (in_ch out_ch : Z)
    (conv_neigh_indices : ConvNeighs) (neigh_indices : Arr)
    (up_neigh_indices down_indices : option Arr) (up_mode : string) : result UpBlock :=
  match
    (if decide (up_mode = "interp") then
       new_UpLayer in_ch out_ch (IcoUpSample in_ch out_ch up_neigh_indices)
     else if decide (up_mode = "zeropad") then
       new_UpLayer in_ch out_ch (IcoFixIndexUpSample in_ch out_ch up_neigh_indices)
     else if decide (up_mode = "maxpad") then
       new_UpLayer in_ch out_ch (IcoMaxIndexUpSample in_ch out_ch neigh_indices down_indices)
     else if decide (up_mode = "transpose") then
       new_UpLayer in_ch out_ch (IcoUpConv in_ch out_ch neigh_indices down_indices)
     else Raise (ValueError "Invalid upsampling method."))
  with
  | Ok up =>
      match double_conv_init conv_layer in_ch out_ch conv_neigh_indices with
      | Ok double_conv => Ok (mkUpBlock up_mode up double_conv)
      | Raise e => Raise e
      end
  | Raise e => Raise e
  end.

Definition UpBlock_forward (self : UpBlock) (x1 x2 : Tensor T)
    (max_pool_indices : option Prov) : result (Tensor T) :=
  match
    (if decide (ub_up_mode self = "maxpad") then
       up_forward_indices (ub_up self) x1 max_pool_indices
     else up_forward (ub_up self) x1)
  with
  | Ok x1 =>
      match cat1 x1 x2 with
      | Ok x => Sequential_forward (ub_double_conv self) x
      | Raise e => Raise e
      end
  | Raise e => Raise e
  end.

(** *** SphericalUNet *)

(** The blocks registered as attributes [down1], [down2], ... and [up1],
    [up2], ... are kept in maps from the number in the name. *)
Record SphericalUNet : Type := mkSphericalUNet {
  in_order : Z;
  depth : Z;
  conv_mode : string;
  in_vertices : Z;
  in_channels : Z;
  out_channels : Z;
  up_mode : string;
  ico : gmap Z Ico;
  filts : list Z;
  sconv : ConvLayer;
  downs : gmap Z DownBlock;
  ups : gmap Z UpBlock;
  fc : Linear T
}.

(** The convolution neighbours of one order (lines 130-147). *)
Definition conv_neighs_of (conv_mode : string) (order : Z) (vertices : Verts)
    (triangles : Tris) (neighs : Arr) : M ConvNeighs :=
  if decide (conv_mode = "1ring") then ret (CNArray neighs)
  else if decide (conv_mode = "2ring") then
    call (EvNeighbors order 2)
      (Ok (CNArray (asarray_values (cache neighbors vertices triangles 2 true))))
  else if decide (conv_mode = "repa") then
    '(conv_neighs, conv_weights, _) ←
      call (EvNeighborsRec order) (Ok (cache neighbors_rec vertices triangles 5 5));
    ret (CNPair conv_neighs conv_weights)
  else raise (ValueError "Unexptected convolution mode.").

(** Body of [for order in range(1, in_order + 1)]. *)
Definition ico_loop_body (conv_mode : string) (ico : gmap Z Ico) (order : Z)
    : M (gmap Z Ico) :=
  '(vertices, triangles) ← call (EvIcosahedron order) (Ok (cache icosahedron order));
  neighs ← call (EvNeighbors order 1)
             (Ok (asarray_values (cache neighbors vertices triangles 1 true)));
  conv_neighs ← conv_neighs_of conv_mode order vertices triangles neighs;
  ret (<[order := mkIco order vertices triangles neighs None None conv_neighs]> ico).

(** Body of [for order in range(in_order, 1, -1)]. *)
Definition down_loop_body (ico : gmap Z Ico) (order : Z) : M (gmap Z Ico) :=
  fine ← ico_get ico order;
  coarse ← ico_get ico (order - 1);
  down ← call (EvDownsample order)
           (Ok (cache downsample (vertices fine) (vertices coarse)));
  r ← ico_get ico order;
  ret (<[order := replace_down_indices r down]> ico).

(** Body of [for order in range(1, in_order)]. *)
Definition up_loop_body (ico : gmap Z Ico) (order : Z) : M (gmap Z Ico) :=
  coarse ← ico_get ico order;
  fine ← ico_get ico (order + 1);
  fine' ← ico_get ico (order + 1);
  up ← call (EvInterpolate order)
         (Ok (asarray_values
                (cache interpolate (vertices coarse) (vertices fine) (triangles fine'))));
  r ← ico_get ico order;
  ret (<[order := replace_up_indices r up]> ico).

(** Lines 117-167: the three loops that fill [self.ico]. *)
Definition build_hierarchy (in_order : Z) (conv_mode : string) : M (gmap Z Ico) :=
  ico ← foldM (ico_loop_body conv_mode) ∅ (range 1 (in_order + 1));
  ico ← foldM down_loop_body ico (range_down in_order 1);
  foldM up_loop_body ico (range 1 in_order).

(** The value the loop variable [order] holds once the three loops are done
    ([None]: never bound). *)
Definition order_after_hierarchy (in_order : Z) : option Z :=
  last (range 1 (in_order + 1) ++ range_down in_order 1 ++ range 1 in_order).

Definition make_filts (in_channels start_filts depth : Z) : list Z :=
  [in_channels] ++ map (fun idx => start_filts * 2 ^ idx) (range 0 depth).

(** Body of [for idx in range(depth)]; the state is the loop variable
    [order] and the blocks registered so far. *)
Definition new_down_block (in_order : Z) (up_mode : string) (ico : gmap Z Ico)
    (filts : list Z) (sconv : ConvLayer)
    (st : option Z * gmap Z DownBlock) (idx : Z) : M (option Z * gmap Z DownBlock) :=
  let order := in_order - idx in
  in_ch ← lift (py_index filts idx);
  out_ch ← lift (py_index filts (idx + 1));
  r ← ico_get ico order;
  finer ← (if decide (idx = 0) then ret None
           else r1 ← ico_get ico (order + 1);
                _ ← shape_of (down_indices r1);
                ret (Some r1));
  block ← call (EvNewDownBlock idx)
            (DownBlock_init sconv in_ch out_ch (conv_neighbor_indices r)
               (neighbor_indices <$> finer) (finer ≫= down_indices)
               (if decide (up_mode = "maxpad") then "max" else "mean")
               (bool_decide (idx = 0)));
  ret (Some order, <[idx + 1 := block]> (snd st)).

(** Body of [for idx in range(depth - 1, 0, -1)]; the state is [order],
    [cnt] and the blocks registered so far. *)
Definition new_up_block (up_mode : string) (ico : gmap Z Ico)
    (filts : list Z) (sconv : ConvLayer)
    (st : option Z * Z * gmap Z UpBlock) (idx : Z) : M (option Z * Z * gmap Z UpBlock) :=
  let '(order, cnt, ups) := st in
  in_ch ← lift (py_index filts (idx + 1));
  out_ch ← lift (py_index filts idx);
  order ← match order with
          | Some o => ret o
          | None => raise (NameError "name 'order' is not defined")
          end;
  finer ← ico_get ico (order + 1);
  coarse ← ico_get ico order;
  _ ← shape_of (up_indices coarse);
  block ← call (EvNewUpBlock cnt)
            (UpBlock_init sconv in_ch out_ch (conv_neighbor_indices finer)
               (neighbor_indices finer) (up_indices coarse) (down_indices finer) up_mode);
  ret (Some (order + 1), cnt + 1, <[cnt := block]> ups).

Definition SphericalUNet_init (in_order in_channels out_channels depth start_filts : Z)
    (conv_mode up_mode : string) : M SphericalUNet :=
  let in_vertices := number_of_ico_vertices in_order in
  ico ← build_hierarchy in_order conv_mode;
  let filts := make_filts in_channels start_filts depth in
  let sconv := if decide (conv_mode = "repa") then IcoRePaConv else IcoDiNeConv in
  '(order, downs) ←
    foldM (new_down_block in_order up_mode ico filts sconv)
          (order_after_hierarchy in_order, ∅) (range 0 depth);
  '(_, _, ups) ←
    foldM (new_up_block up_mode ico filts sconv) (order, 1, ∅) (range_down (depth - 1) 0);
  filts1 ← lift (py_index filts 1);
  fc ← call EvNewLinear (nn_Linear filts1 out_channels);
  ret (mkSphericalUNet in_order depth conv_mode in_vertices in_channels out_channels
         up_mode ico filts sconv downs ups fc).

(** [getattr(self, "down{idx}")] and [getattr(self, "up{idx}")] *)
Definition getattr_down (self : SphericalUNet) (idx : Z) : M DownBlock :=
  match downs self !! idx with
  | Some b => ret b
  | None => raise (AttributeError "'SphericalUNet' object has no attribute 'down'")
  end.

Definition getattr_up (self : SphericalUNet) (idx : Z) : M UpBlock :=
  match ups self !! idx with
  | Some b => ret b
  | None => raise (AttributeError "'SphericalUNet' object has no attribute 'up'")
  end.

(** Lines 229-231: the check on the number of vertices. *)
Definition check_input (self : SphericalUNet) (x : Tensor T) : M unit :=
  if decide (Z.of_nat (size2 x) ≠ in_vertices self) then
    raise (RuntimeError ("Input data must be projected on an " +:+ pretty (in_order self)
                           +:+ " order icosahedron."))
  else ret tt.

(** Body of [for idx in range(1, self.depth + 1)]. *)
Definition encoder_step (self : SphericalUNet)
    (st : Tensor T * list (Tensor T) * list (option Prov)) (idx : Z)
    : M (Tensor T * list (Tensor T) * list (option Prov)) :=
  let '(x, encoder_outs, pooling_outs) := st in
  down_block ← getattr_down self idx;
  '(x, max_pool_indices) ← call (EvDownBlock idx) (DownBlock_forward down_block x);
  ret (x, encoder_outs ++ [x], pooling_outs ++ [max_pool_indices]).

(** Body of [for idx in range(1, self.depth)]. *)
Definition decoder_step (self : SphericalUNet) (encoder_outs : list (Tensor T))
    (pooling_outs : list (option Prov)) (x : Tensor T) (idx : Z) : M (Tensor T) :=
  up_block ← getattr_up self idx;
  x_up ← lift (py_index encoder_outs idx);
  max_pool_indices ← lift (py_index pooling_outs (idx - 1));
  call (EvUpBlock idx) (UpBlock_forward up_block x x_up max_pool_indices).

(** Lines 250-255: the vertex-wise filter. *)
Definition fc_stage (self : SphericalUNet) (x : Tensor T) : M (Tensor T) :=
  let n_samples := Z.of_nat (size0 x) in
  let x := permute021 x in
  filts1 ← lift (py_index (filts self) 1);
  x ← lift (reshape2 x (n_samples * in_vertices self) filts1);
  x ← call EvLinear (Linear_forward tzero tadd tmul (fc self) x);
  x ← lift (view3 x n_samples (in_vertices self) (out_channels self));
  ret (permute021 x).

(** What [forward] does once the check has passed. *)
Definition forward_body (self : SphericalUNet) (x : Tensor T) : M (Tensor T) :=
  '(x, encoder_outs, pooling_outs) ←
    foldM (encoder_step self) (x, [], []) (range 1 (depth self + 1));
  let encoder_outs := rev encoder_outs in
  let pooling_outs := rev pooling_outs in
  x ← foldM (decoder_step self encoder_outs pooling_outs) x (range 1 (depth self));
  fc_stage self x.

Definition forward (self : SphericalUNet) (x : Tensor T) : M (Tensor T) :=
  _ ← check_input self x;
  forward_body self x.

(** The projection stated vertex by vertex: entry [(b, o, v)] of the result
    is entry [o] of the layer applied to the feature vector of vertex [v] in
    sample [b]. *)
Definition feature_vector (x : Tensor T) (b v : nat) : list T :=
  flat_map (fun chan => match nth_error chan v with Some a => [a] | None => [] end)
           (nth b (elems x) []).

Definition vertexwise_linear (l : Linear T) (x : Tensor T) : Tensor T :=
  mkTensor (size0 x) (Z.to_nat (out_features l)) (size2 x)
    (map (fun b =>
       map (fun o =>
         map (fun v => nth o (linear_row tzero tadd tmul l (feature_vector x b v)) tzero)
             (seq 0 (size2 x)))
         (seq 0 (Z.to_nat (out_features l))))
       (seq 0 (size0 x))).

(** *** The vertex-wise filter *)

Lemma linear_row_length (l : Linear T) (x : list T) :
  wf_linear l -> length (linear_row tzero tadd tmul l x) = Z.to_nat (out_features l).
Proof.
  intros (_ & _ & [Hw _] & Hb). unfold linear_row.
  rewrite length_zip_with, length_map, Hw, Hb. lia.
Qed.

Lemma col_linear_rows (l : Linear T) (rows : list (list T)) (o : nat) :
  wf_linear l -> (o < Z.to_nat (out_features l))%nat ->
  col o (map (linear_row tzero tadd tmul l) rows) =
  map (fun row => nth o (linear_row tzero tadd tmul l row) tzero) rows.
Proof.
  intros Hl Ho. rewrite (col_map_nth tzero); [apply List.map_map|].
  apply Forall_map, Forall_forall. intros row _. cbn beta.
  rewrite linear_row_length; assumption.
Qed.

(** The flatten / linear / restore pipeline of [fc_stage], on a well-formed
    tensor whose channels are the layer's input features. *)
Lemma fc_stage_pipeline (self : SphericalUNet) (x : Tensor T) :
  wf_linear (fc self) ->
  py_index (filts self) 1 = Ok (in_features (fc self)) ->
  out_features (fc self) = out_channels self ->
  wf_tensor x ->
  Z.of_nat (size1 x) = in_features (fc self) ->
  Z.of_nat (size2 x) = in_vertices self ->
  fc_stage self x = ([EvLinear], Ok (vertexwise_linear (fc self) x)).
Proof.
  intros Hl Hf Hout Hwf Hc Hv.
  set (lin := linear_row tzero tadd tmul (fc self)).
  set (O := Z.to_nat (out_features (fc self))).
  set (groups := map (fun m => map lin (transpose (size2 x) m)) (elems x)).
  assert (HO : out_channels self = Z.of_nat O)
    by (destruct Hl as (_ & ? & _); unfold O; lia).
  pose proof (reshape2_permute021 x Hwf) as H1.
  assert (H2 : Linear_forward tzero tadd tmul (fc self)
                 (mkMatrix (size0 x * size2 x) (size1 x)
                    (concat (map (transpose (size2 x)) (elems x)))) =
               Ok (mkMatrix (size0 x * size2 x) O (concat groups))).
  { unfold Linear_forward. cbn [ncols nrows mrows].
    rewrite Hc, Z.eqb_refl. do 2 f_equal.
    unfold groups. rewrite concat_map, List.map_map. reflexivity. }
  destruct Hwf as [Hlen Hall].
  assert (H3 : view3 (mkMatrix (size0 x * size2 x) O (concat groups))
                 (Z.of_nat (size0 x)) (Z.of_nat (size2 x)) (Z.of_nat O) =
               Ok (mkTensor (size0 x) (size2 x) O groups)).
  { apply view3_groups; [unfold groups; by rewrite length_map|].
    unfold groups. apply Forall_map. eapply Forall_impl; [exact Hall|].
    intros m Hm. cbn beta. apply wf_transpose in Hm. destruct Hm as [Hm _]. split.
    - by rewrite length_map.
    - apply Forall_map, Forall_forall. intros row _. cbn beta.
      by apply linear_row_length. }
  unfold fc_stage.
  rewrite Hf, bind_lift_ok, <- Hv, <- Hc, H1, bind_lift_ok, H2, bind_call_ok, HO, H3.
  rewrite bind_lift_ok. unfold trace, outcome, ret. cbn [fst snd].
  do 2 f_equal. unfold permute021, vertexwise_linear. cbn [size0 size1 size2 elems].
  f_equal. unfold groups. rewrite List.map_map.
  rewrite (map_seq_nth _ (elems x) []), Hlen.
  apply map_ext_in. intros b Hb. rewrite transpose_cols.
  apply map_ext_in. intros o Ho. apply in_seq in Ho.
  unfold lin. rewrite col_linear_rows by (assumption || (unfold O in Ho; lia)).
  rewrite transpose_cols, List.map_map. reflexivity.
Qed.

(** *** The hierarchy built by [__init__] *)

Definition conv_mode_supported (cm : string) : Prop :=
  cm = "1ring" \/ cm = "2ring" \/ cm = "repa".

Definition up_mode_supported (um : string) : Prop :=
  um = "interp" \/ um = "zeropad" \/ um = "maxpad" \/ um = "transpose".

(** The tables of each order, as the helpers give them. *)
Definition verts_at (k : Z) : Verts := fst (icosahedron k).
Definition tris_at (k : Z) : Tris := snd (icosahedron k).
Definition neighs_at (k : Z) : Arr :=
  asarray_values (neighbors (verts_at k) (tris_at k) 1 true).
Definition conv_table (cm : string) (k : Z) : ConvNeighs :=
  if decide (cm = "1ring") then CNArray (neighs_at k)
  else if decide (cm = "2ring") then
    CNArray (asarray_values (neighbors (verts_at k) (tris_at k) 2 true))
  else let '(n, w, _) := neighbors_rec (verts_at k) (tris_at k) 5 5 in CNPair n w.
Definition down_table (k : Z) : Arr := downsample (verts_at k) (verts_at (k - 1)).
Definition up_table (k : Z) : Arr :=
  asarray_values (interpolate (verts_at k) (verts_at (k + 1)) (tris_at (k + 1))).

Definition ico_rec (cm : string) (k : Z) (has_down has_up : bool) : Ico :=
  mkIco k (verts_at k) (tris_at k) (neighs_at k)
        (if has_down then Some (down_table k) else None)
        (if has_up then Some (up_table k) else None)
        (conv_table cm k).

(** What the log of the three loops holds. *)
Definition conv_events (cm : string) (k : Z) : list event :=
  if decide (cm = "1ring") then []
  else if decide (cm = "2ring") then [EvNeighbors k 2]
  else [EvNeighborsRec k].

Definition hierarchy_events (n : Z) (cm : string) : list event :=
  flat_map (fun k => [EvIcosahedron k; EvNeighbors k 1] ++ conv_events cm k)
           (range 1 (n + 1)) ++
  flat_map (fun k => [EvDownsample k]) (range_down n 1) ++
  flat_map (fun k => [EvInterpolate k]) (range 1 n).

Definition hierarchy_at (n : Z) (cm : string) (ico : gmap Z Ico) : Prop :=
  forall k, ico !! k =
    if decide (1 <= k <= n)
    then Some (ico_rec cm k (bool_decide (2 <= k)) (bool_decide (k < n)))
    else None.

Lemma ico_loop_body_ok (cm : string) (ico : gmap Z Ico) (k : Z) :
  conv_mode_supported cm ->
  ico_loop_body cm ico k =
  ([EvIcosahedron k; EvNeighbors k 1] ++ conv_events cm k,
   Ok (<[k := ico_rec cm k false false]> ico)).
Proof.
  intros Hcm. unfold ico_loop_body, conv_neighs_of, conv_events, ico_rec, conv_table,
    neighs_at, verts_at, tris_at, cache.
  destruct (icosahedron k) as [v t] eqn:Eico. cbn [fst snd].
  rewrite bind_call_ok. rewrite bind_call_ok.
  repeat case_decide.
  - reflexivity.
  - reflexivity.
  - destruct (neighbors_rec v t 5 5) as [[n w] e]. reflexivity.
  - destruct Hcm as [?|[?|?]]; contradiction.
Qed.

Lemma ico_get_ok (ico : gmap Z Ico) (k : Z) (r : Ico) :
  ico !! k = Some r -> ico_get ico k = ret r.
Proof. intros H. unfold ico_get. by rewrite H. Qed.

Lemma build_hierarchy_ok (n : Z) (cm : string) :
  1 <= n -> conv_mode_supported cm ->
  exists ico, build_hierarchy n cm = (hierarchy_events n cm, Ok ico) /\
              hierarchy_at n cm ico.
Proof.
  intros Hn Hcm. unfold build_hierarchy, hierarchy_events.
  destruct (foldM_range (ico_loop_body cm)
              (fun c ico => forall k, ico !! k =
                 if decide (1 <= k < c) then Some (ico_rec cm k false false) else None)
              (fun k => [EvIcosahedron k; EvNeighbors k 1] ++ conv_events cm k)
              1 (n + 1) ∅) as (ico1 & E1 & I1).
  { lia. }
  { intros k. rewrite lookup_empty. case_decide; [lia|reflexivity]. }
  { intros k ico Hk I. eexists. split; [by apply ico_loop_body_ok|].
    intros j. destruct (decide (k = j)) as [<-|Hj].
    - rewrite lookup_insert_eq, decide_True by lia. reflexivity.
    - rewrite lookup_insert_ne, I by assumption.
      repeat case_decide; try lia; reflexivity. }
  destruct (foldM_range_down down_loop_body
              (fun c ico => forall k, ico !! k =
                 if decide (1 <= k <= n)
                 then Some (ico_rec cm k (bool_decide (c < k)) false) else None)
              (fun k => [EvDownsample k]) n 1 ico1) as (ico2 & E2 & I2).
  { lia. }
  { intros k. rewrite I1. repeat case_decide; try lia; [|reflexivity].
    rewrite bool_decide_eq_false_2 by lia. reflexivity. }
  { intros k ico Hk I. unfold down_loop_body.
    pose proof (I k) as Ik. rewrite decide_True in Ik by lia.
    pose proof (I (k - 1)) as Ik'. rewrite decide_True in Ik' by lia.
    rewrite (ico_get_ok _ _ _ Ik), bind_ret_l.
    rewrite (ico_get_ok _ _ _ Ik'), bind_ret_l.
    rewrite bind_call_ok, bind_ret_l.
    eexists. split; [reflexivity|].
    intros j. destruct (decide (k = j)) as [<-|Hj].
    - rewrite lookup_insert_eq, decide_True by lia.
      rewrite (bool_decide_eq_true_2 (k - 1 < k)) by lia. reflexivity.
    - rewrite lookup_insert_ne, I by assumption.
      destruct (decide (1 <= j <= n)); [|reflexivity].
      destruct (decide (k < j)).
      + rewrite !bool_decide_eq_true_2 by lia. reflexivity.
      + rewrite !bool_decide_eq_false_2 by lia. reflexivity. }
  destruct (foldM_range up_loop_body
              (fun c ico => forall k, ico !! k =
                 if decide (1 <= k <= n)
                 then Some (ico_rec cm k (bool_decide (2 <= k)) (bool_decide (k < c)))
                 else None)
              (fun k => [EvInterpolate k]) 1 n ico2) as (ico3 & E3 & I3).
  { lia. }
  { intros k. rewrite I2. case_decide; [|reflexivity].
    destruct (decide (2 <= k)).
    - rewrite !bool_decide_eq_true_2 by lia. rewrite bool_decide_eq_false_2 by lia.
      reflexivity.
    - rewrite !bool_decide_eq_false_2 by lia. reflexivity. }
  { intros k ico Hk I. unfold up_loop_body.
    pose proof (I k) as Ik. rewrite decide_True in Ik by lia.
    pose proof (I (k + 1)) as Ik'. rewrite decide_True in Ik' by lia.
    rewrite (ico_get_ok _ _ _ Ik), bind_ret_l.
    rewrite (ico_get_ok _ _ _ Ik'), bind_ret_l, bind_ret_l.
    rewrite bind_call_ok, bind_ret_l.
    eexists. split; [reflexivity|].
    intros j. destruct (decide (k = j)) as [<-|Hj].
    - rewrite lookup_insert_eq, decide_True by lia.
      rewrite !(bool_decide_eq_true_2 (k < k + 1)) by lia. reflexivity.
    - rewrite lookup_insert_ne, I by assumption.
      destruct (decide (1 <= j <= n)); [|reflexivity].
      destruct (decide (j < k)).
      + rewrite !(bool_decide_eq_true_2 (j < _)) by lia. reflexivity.
      + rewrite !(bool_decide_eq_false_2 (j < _)) by lia. reflexivity. }
  exists ico3. split; [|exact I3].
  rewrite (bind_ok _ _ _ _ E1), (bind_ok _ _ _ _ E2), E3. reflexivity.
Qed.

(** *** The blocks built by [__init__] *)

Section Blocks.
Variables (n ic oc d sf : Z) (cm um : string).

(** [self.filts[i]] *)
Definition filt (i : Z) : Z := if decide (i = 0) then ic else sf * 2 ^ (i - 1).

Definition sconv_of : ConvLayer :=
  if decide (cm = "repa") then IcoRePaConv else IcoDiNeConv.

Definition pool_mode_of : string := if decide (um = "maxpad") then "max" else "mean".

(** The block registered as [down(idx + 1)]. *)
Definition down_block_at (idx : Z) : DownBlock :=
  mkDownBlock (bool_decide (idx = 0))
    (if negb (bool_decide (idx = 0)) then
       Some (mkIcoPool
               (if decide (idx = 0) then None else Some (neighs_at (n - idx + 1)))
               (if decide (idx = 0) then None else Some (down_table (n - idx + 1)))
               pool_mode_of)
     else None)
    (double_conv_layers sconv_of (filt idx) (filt (idx + 1)) (conv_table cm (n - idx))).

Definition up_layer_of (in_ch out_ch : Z) (neigh : Arr) (up down : option Arr) : UpLayer :=
  if decide (um = "interp") then IcoUpSample in_ch out_ch up
  else if decide (um = "zeropad") then IcoFixIndexUpSample in_ch out_ch up
  else if decide (um = "maxpad") then IcoMaxIndexUpSample in_ch out_ch neigh down
  else IcoUpConv in_ch out_ch neigh down.

(** The block registered as [up(cnt)]: it takes order [n - d + cnt] to the
    next finer one. *)
Definition up_block_at (cnt : Z) : UpBlock :=
  let idx := d - cnt in
  let order := n - idx in
  mkUpBlock um
    (up_layer_of (filt (idx + 1)) (filt idx) (neighs_at (order + 1))
       (Some (up_table order)) (Some (down_table (order + 1))))
    (double_conv_layers sconv_of (filt (idx + 1)) (filt idx) (conv_table cm (order + 1))).

Lemma py_index_filts (i : Z) :
  0 <= i <= d -> py_index (make_filts ic sf d) i = Ok (filt i).
Proof.
  intros Hi. apply py_index_ok; [lia|]. unfold make_filts, filt.
  case_decide as H0.
  - subst i. reflexivity.
  - replace (Z.to_nat i) with (S (Z.to_nat (i - 1))) by lia.
    cbn [app nth_error]. rewrite nth_error_map, nth_error_range by lia.
    cbn [option_map]. by rewrite Z.add_0_l.
Qed.

Lemma py_index_filts_short : d <= 0 -> exists e, py_index (make_filts ic sf d) 1 = Raise e.
Proof.
  intros Hd. unfold make_filts. rewrite range_nil by lia. cbn. eauto.
Qed.

Lemma filt_ge_0 (i : Z) : 0 <= ic -> 0 <= sf -> 0 <= filt i.
Proof.
  intros Hic Hsf. unfold filt. case_decide; [exact Hic|].
  destruct (Z_le_gt_dec 0 (i - 1)).
  - apply Z.mul_nonneg_nonneg; [exact Hsf|]. by apply Z.pow_nonneg.
  - rewrite Z.pow_neg_r by lia. lia.
Qed.

Lemma double_conv_init_ok cv i o c :
  0 <= i -> 0 <= o -> double_conv_init cv i o c = Ok (double_conv_layers cv i o c).
Proof.
  intros Hi Ho. unfold double_conv_init, new_Conv, new_BatchNorm1d.
  destruct (i <? 0) eqn:Ei; [lia|]. destruct (o <? 0) eqn:Eo; [lia|]. reflexivity.
Qed.

Lemma double_conv_init_neg cv i o c :
  i < 0 \/ o < 0 -> double_conv_init cv i o c = Raise negative_dimension.
Proof.
  intros H. unfold double_conv_init, new_Conv, new_BatchNorm1d.
  destruct (i <? 0) eqn:Ei; [reflexivity|]. destruct (o <? 0) eqn:Eo; [reflexivity|]. lia.
Qed.

Lemma DownBlock_init_ok cv i o c dn di mode first :
  0 <= i -> 0 <= o ->
  DownBlock_init cv i o c dn di mode first =
  Ok (mkDownBlock first (if negb first then Some (mkIcoPool dn di mode) else None)
        (double_conv_layers cv i o c)).
Proof.
  intros Hi Ho. unfold DownBlock_init. by rewrite double_conv_init_ok.
Qed.

Lemma DownBlock_init_neg cv i o c dn di mode first :
  i < 0 \/ o < 0 -> DownBlock_init cv i o c dn di mode first = Raise negative_dimension.
Proof.
  intros H. unfold DownBlock_init. by rewrite double_conv_init_neg.
Qed.

Lemma UpBlock_init_ok cv i o c nb up dn :
  up_mode_supported um -> 0 <= i -> 0 <= o ->
  UpBlock_init cv i o c nb up dn um =
  Ok (mkUpBlock um (up_layer_of i o nb up dn) (double_conv_layers cv i o c)).
Proof.
  intros Hum Hi Ho. unfold UpBlock_init, up_layer_of, new_UpLayer.
  rewrite double_conv_init_ok by assumption.
  destruct (i <? 0) eqn:Ei; [lia|]. destruct (o <? 0) eqn:Eo; [lia|]. cbn [orb].
  repeat case_decide; try reflexivity.
  destruct Hum as [?|[?|[?|?]]]; contradiction.
Qed.

Lemma UpBlock_init_neg cv i o c nb up dn :
  up_mode_supported um -> i < 0 \/ o < 0 ->
  UpBlock_init cv i o c nb up dn um = Raise negative_dimension.
Proof.
  intros Hum H. unfold UpBlock_init, new_UpLayer.
  assert (E : (i <? 0) || (o <? 0) = true).
  { destruct (i <? 0) eqn:Ei; [reflexivity|]. destruct (o <? 0) eqn:Eo; [reflexivity|]. lia. }
  rewrite E. repeat case_decide; try reflexivity.
  destruct Hum as [?|[?|[?|?]]]; contradiction.
Qed.

Lemma UpBlock_init_invalid cv i o c nb up dn :
  ~ up_mode_supported um ->
  UpBlock_init cv i o c nb up dn um = Raise (ValueError "Invalid upsampling method.").
Proof.
  intros Hum. unfold UpBlock_init. unfold up_mode_supported in Hum.
  repeat case_decide; try reflexivity; exfalso; apply Hum; auto.
Qed.

Lemma new_down_block_ok (ico : gmap Z Ico) (st : option Z * gmap Z DownBlock) (idx : Z) :
  hierarchy_at n cm ico -> 0 <= idx < d -> idx < n -> 0 <= ic -> 0 <= sf ->
  new_down_block n um ico (make_filts ic sf d) sconv_of st idx =
  ([EvNewDownBlock idx], Ok (Some (n - idx), <[idx + 1 := down_block_at idx]> (snd st))).
Proof.
  intros Hico Hidx Hd Hic Hsf. unfold new_down_block.
  rewrite !py_index_filts, !bind_lift_ok by lia.
  pose proof (Hico (n - idx)) as H1. rewrite decide_True in H1 by lia.
  rewrite (ico_get_ok _ _ _ H1), bind_ret_l.
  unfold down_block_at, pool_mode_of.
  destruct (decide (idx = 0)) as [->|Hne]; cbv beta iota.
  - rewrite bind_ret_l, DownBlock_init_ok, bind_call_ok by (by apply filt_ge_0).
    rewrite (bool_decide_eq_true_2 (0 = 0)) by reflexivity. reflexivity.
  - pose proof (Hico (n - idx + 1)) as H2. rewrite decide_True in H2 by lia.
    rewrite (ico_get_ok _ _ _ H2), bind_ret_l.
    cbn [ico_rec down_indices shape_of].
    rewrite (bool_decide_eq_true_2 (2 <= n - idx + 1)) by lia. cbn [shape_of].
    rewrite !bind_ret_l, DownBlock_init_ok, bind_call_ok by (by apply filt_ge_0).
    rewrite (bool_decide_eq_false_2 (idx = 0)) by assumption. reflexivity.
Qed.

(** A negative [in_channels] or [start_filts] is met when the first
    [DownBlock] is built. *)
Lemma new_down_block_negative (ico : gmap Z Ico) (st : option Z * gmap Z DownBlock) :
  hierarchy_at n cm ico -> 1 <= d -> 1 <= n -> ic < 0 \/ sf < 0 ->
  new_down_block n um ico (make_filts ic sf d) sconv_of st 0 =
  ([EvNewDownBlock 0], Raise negative_dimension).
Proof.
  intros Hico Hd Hn Hneg. unfold new_down_block.
  rewrite !py_index_filts, !bind_lift_ok by lia.
  pose proof (Hico (n - 0)) as H1. rewrite decide_True in H1 by lia.
  rewrite (ico_get_ok _ _ _ H1), bind_ret_l.
  assert (Hf : filt 0 < 0 \/ filt (0 + 1) < 0).
  { unfold filt. destruct (decide (0 = 0)); [|lia]. destruct (decide (0 + 1 = 0)); [lia|].
    change (0 + 1 - 1) with 0. rewrite Z.pow_0_r, Z.mul_1_r. exact Hneg. }
  destruct (decide (0 = 0)) as [_|?]; [|lia]. rewrite bind_ret_l.
  by rewrite DownBlock_init_neg.
Qed.

Lemma new_down_block_KeyError (ico : gmap Z Ico) (st : option Z * gmap Z DownBlock) :
  hierarchy_at n cm ico -> 0 <= n < d ->
  new_down_block n um ico (make_filts ic sf d) sconv_of st n = ([], Raise (KeyError 0)).
Proof.
  intros Hico Hn. unfold new_down_block.
  rewrite !py_index_filts, !bind_lift_ok by lia.
  pose proof (Hico (n - n)) as H1. rewrite decide_False in H1 by lia.
  unfold ico_get. rewrite H1. replace (n - n) with 0 by lia. reflexivity.
Qed.

Lemma new_up_block_ok (ico : gmap Z Ico) (ups : gmap Z UpBlock) (idx : Z) :
  hierarchy_at n cm ico -> 1 <= idx <= d - 1 -> d <= n -> up_mode_supported um ->
  0 <= ic -> 0 <= sf ->
  new_up_block um ico (make_filts ic sf d) sconv_of (Some (n - idx), d - idx, ups) idx =
  ([EvNewUpBlock (d - idx)],
   Ok (Some (n - idx + 1), d - idx + 1, <[d - idx := up_block_at (d - idx)]> ups)).
Proof.
  intros Hico Hidx Hd Hum Hic Hsf. unfold new_up_block.
  rewrite !py_index_filts, !bind_lift_ok by lia. rewrite bind_ret_l.
  pose proof (Hico (n - idx + 1)) as H1. rewrite decide_True in H1 by lia.
  pose proof (Hico (n - idx)) as H2. rewrite decide_True in H2 by lia.
  rewrite (ico_get_ok _ _ _ H1), bind_ret_l, (ico_get_ok _ _ _ H2), bind_ret_l.
  cbn [ico_rec up_indices down_indices neighbor_indices conv_neighbor_indices].
  rewrite (bool_decide_eq_true_2 (n - idx < n)) by lia.
  rewrite (bool_decide_eq_true_2 (2 <= n - idx + 1)) by lia.
  cbn [shape_of].
  rewrite bind_ret_l, UpBlock_init_ok, bind_call_ok by (assumption || by apply filt_ge_0).
  unfold up_block_at. replace (d - (d - idx)) with idx by lia. reflexivity.
Qed.

Lemma new_up_block_invalid (ico : gmap Z Ico) (ups : gmap Z UpBlock) (idx cnt : Z) :
  hierarchy_at n cm ico -> 1 <= idx <= d - 1 -> d <= n -> ~ up_mode_supported um ->
  new_up_block um ico (make_filts ic sf d) sconv_of (Some (n - idx), cnt, ups) idx =
  ([EvNewUpBlock cnt], Raise (ValueError "Invalid upsampling method.")).
Proof.
  intros Hico Hidx Hd Hum. unfold new_up_block.
  rewrite !py_index_filts, !bind_lift_ok by lia. rewrite bind_ret_l.
  pose proof (Hico (n - idx + 1)) as H1. rewrite decide_True in H1 by lia.
  pose proof (Hico (n - idx)) as H2. rewrite decide_True in H2 by lia.
  rewrite (ico_get_ok _ _ _ H1), bind_ret_l, (ico_get_ok _ _ _ H2), bind_ret_l.
  cbn [ico_rec up_indices down_indices neighbor_indices conv_neighbor_indices].
  rewrite (bool_decide_eq_true_2 (n - idx < n)) by lia.
  cbn [shape_of]. rewrite bind_ret_l, UpBlock_init_invalid by assumption.
  reflexivity.
Qed.

Definition downs_at (c : Z) (downs : gmap Z DownBlock) : Prop :=
  forall j, downs !! j = if decide (1 <= j <= c) then Some (down_block_at (j - 1)) else None.

Definition ups_at (c : Z) (ups : gmap Z UpBlock) : Prop :=
  forall j, ups !! j = if decide (1 <= j <= c) then Some (up_block_at j) else None.

Lemma down_blocks_ok (ico : gmap Z Ico) (o0 : option Z) (c : Z) :
  hierarchy_at n cm ico -> 1 <= c <= d -> c <= n -> 0 <= ic -> 0 <= sf ->
  exists downs,
    foldM (new_down_block n um ico (make_filts ic sf d) sconv_of) (o0, ∅) (range 0 c) =
    (flat_map (fun k => [EvNewDownBlock k]) (range 0 c), Ok (Some (n - (c - 1)), downs)) /\
    downs_at c downs.
Proof.
  intros Hico Hd Hn Hic Hsf.
  destruct (foldM_range (new_down_block n um ico (make_filts ic sf d) sconv_of)
              (fun c st => (0 < c -> fst st = Some (n - (c - 1))) /\ downs_at c (snd st))
              (fun k => [EvNewDownBlock k]) 0 c (o0, ∅)) as ([o downs] & E & Io & Idowns).
  { lia. }
  { cbn [fst snd]. split; [lia|]. intros j. rewrite lookup_empty.
    by rewrite decide_False by lia. }
  { intros k [o downs] Hk [_ I]. eexists. split; [apply new_down_block_ok; (assumption || lia)|].
    cbn [fst snd]. split; [intros _; f_equal; lia|].
    intros j. destruct (decide (k + 1 = j)) as [<-|Hj].
    - rewrite lookup_insert_eq, decide_True by lia. do 2 f_equal. lia.
    - rewrite lookup_insert_ne, I by assumption.
      destruct (decide (1 <= j <= k)).
      + by rewrite decide_True by lia.
      + by rewrite decide_False by lia. }
  cbn [fst snd] in *. exists downs. split; [|exact Idowns].
  rewrite E, Io by lia. reflexivity.
Qed.

Lemma up_blocks_ok (ico : gmap Z Ico) :
  hierarchy_at n cm ico -> 1 <= d <= n -> up_mode_supported um \/ d = 1 ->
  0 <= ic -> 0 <= sf ->
  exists o cnt ups,
    foldM (new_up_block um ico (make_filts ic sf d) sconv_of)
          (Some (n - (d - 1)), 1, ∅) (range_down (d - 1) 0) =
    (flat_map (fun k => [EvNewUpBlock (d - k)]) (range_down (d - 1) 0), Ok (o, cnt, ups)) /\
    ups_at (d - 1) ups.
Proof.
  intros Hico Hd Hum Hic Hsf.
  destruct (foldM_range_down (new_up_block um ico (make_filts ic sf d) sconv_of)
              (fun c st => fst (fst st) = Some (n - c) /\ snd (fst st) = d - c /\
                           ups_at (d - 1 - c) (snd st))
              (fun k => [EvNewUpBlock (d - k)]) (d - 1) 0 (Some (n - (d - 1)), 1, ∅))
    as ([[o cnt] ups] & E & _ & _ & I).
  { lia. }
  { cbn [fst snd]. split; [reflexivity|]. split; [lia|].
    intros j. rewrite lookup_empty. by rewrite decide_False by lia. }
  { intros k [[o cnt] ups] Hk (Ho & Hcnt & I). cbn [fst snd] in *. subst o cnt.
    destruct Hum as [Hum|Hd1]; [|lia].
    eexists. split; [apply new_up_block_ok; (assumption || lia)|].
    cbn [fst snd]. split; [f_equal; lia|]. split; [lia|].
    intros j. destruct (decide (d - k = j)) as [<-|Hj].
    - by rewrite lookup_insert_eq, decide_True by lia.
    - rewrite lookup_insert_ne, I by assumption.
      destruct (decide (1 <= j <= d - 1 - k)).
      + by rewrite decide_True by lia.
      + by rewrite decide_False by lia. }
  exists o, cnt, ups. split; [exact E|].
  intros j. rewrite I. by replace (d - 1 - 0) with (d - 1) by lia.
Qed.

Lemma nn_Linear_ok (i o : Z) :
  0 <= i -> 0 <= o -> exists l, nn_Linear i o = Ok l /\ wf_linear l /\
                                in_features l = i /\ out_features l = o.
Proof.
  intros Hi Ho. unfold nn_Linear.
  destruct (i <? 0) eqn:E1; [lia|]. destruct (o <? 0) eqn:E2; [lia|].
  cbn [orb]. eexists. split; [reflexivity|].
  unfold wf_linear, wf_rows. cbn [in_features out_features weight bias].
  rewrite !length_map, !length_seq. repeat split; try lia.
  apply Forall_map, Forall_forall. intros j _. by rewrite length_map, length_seq.
Qed.

Lemma nn_Linear_neg (i o : Z) :
  i < 0 \/ o < 0 -> exists e, nn_Linear i o = Raise e.
Proof.
  intros H. unfold nn_Linear.
  destruct (i <? 0) eqn:E1; [cbn; eauto|]. destruct (o <? 0) eqn:E2; [cbn; eauto|]. lia.
Qed.

(** The arguments with which [__init__] returns a model. *)
Definition init_args_ok : Prop :=
  1 <= d <= n /\ 0 <= sf /\ 0 <= oc /\ conv_mode_supported cm /\
  (up_mode_supported um \/ d = 1) /\ 0 <= ic.

(** The model it returns. *)
Definition model_at (self : SphericalUNet) : Prop :=
  in_order self = n /\ depth self = d /\ conv_mode self = cm /\ up_mode self = um /\
  in_vertices self = number_of_ico_vertices n /\
  in_channels self = ic /\ out_channels self = oc /\
  hierarchy_at n cm (ico self) /\
  filts self = make_filts ic sf d /\
  sconv self = sconv_of /\
  downs_at d (downs self) /\ ups_at (d - 1) (ups self) /\
  nn_Linear sf oc = Ok (fc self).

Definition init_events : list event :=
  hierarchy_events n cm ++
  flat_map (fun k => [EvNewDownBlock k]) (range 0 d) ++
  flat_map (fun k => [EvNewUpBlock (d - k)]) (range_down (d - 1) 0) ++
  [EvNewLinear].

Lemma filt_1 : filt 1 = sf.
Proof. unfold filt. rewrite decide_False by lia. cbn. lia. Qed.

Lemma init_ok :
  init_args_ok ->
  exists self, SphericalUNet_init n ic oc d sf cm um = (init_events, Ok self) /\
               model_at self.
Proof.
  intros (Hd & Hsf & Hoc & Hcm & Hum & Hic). unfold SphericalUNet_init, init_events.
  destruct (build_hierarchy_ok n cm ltac:(lia) Hcm) as (ico & E1 & Hico).
  destruct (down_blocks_ok ico (order_after_hierarchy n) d Hico ltac:(lia) ltac:(lia)
              Hic Hsf) as (downs & E2 & Hdowns).
  destruct (up_blocks_ok ico Hico Hd Hum Hic Hsf) as (o & cnt & ups & E3 & Hups).
  destruct (nn_Linear_ok sf oc Hsf Hoc) as (l & E4 & _).
  fold sconv_of.
  rewrite (bind_ok _ _ _ _ E1), (bind_ok _ _ _ _ E2), (bind_ok _ _ _ _ E3).
  rewrite py_index_filts, bind_lift_ok, filt_1, E4, bind_call_ok by lia.
  eexists. split; [reflexivity|].
  unfold model_at. cbn. repeat split; assumption.
Qed.

Lemma build_hierarchy_empty : n <= 0 -> build_hierarchy n cm = ([], Ok ∅).
Proof.
  intros Hn. unfold build_hierarchy.
  rewrite (range_nil 1 (n + 1)), (range_down_nil n 1), (range_nil 1 n) by lia.
  reflexivity.
Qed.

Lemma ico_loop_body_invalid (ico : gmap Z Ico) (k : Z) :
  ~ conv_mode_supported cm ->
  ico_loop_body cm ico k =
  ([EvIcosahedron k; EvNeighbors k 1], Raise (ValueError "Unexptected convolution mode.")).
Proof.
  intros Hcm. unfold ico_loop_body.
  destruct (cache icosahedron k) as [v t].
  rewrite bind_call_ok. rewrite bind_call_ok.
  unfold conv_neighs_of. unfold conv_mode_supported in Hcm.
  repeat case_decide; try reflexivity; exfalso; apply Hcm; auto.
Qed.

(** An unsupported convolution mode is met in the first iteration of the
    first loop, after the icosahedron of order 1 and its neighbours. *)
Lemma build_hierarchy_conv_invalid :
  1 <= n -> ~ conv_mode_supported cm ->
  build_hierarchy n cm =
  ([EvIcosahedron 1; EvNeighbors 1 1], Raise (ValueError "Unexptected convolution mode.")).
Proof.
  intros Hn Hcm. unfold build_hierarchy. rewrite (range_cons 1 (n + 1)) by lia.
  cbn [foldM].
  rewrite (bind_fail _ _ _ _ (ico_loop_body_invalid ∅ 1 Hcm)). reflexivity.
Qed.

#[local] Instance conv_mode_supported_dec : Decision (conv_mode_supported cm).
Proof. unfold conv_mode_supported. apply _. Defined.

#[local] Instance up_mode_supported_dec : Decision (up_mode_supported um).
Proof. unfold up_mode_supported. apply _. Defined.

(** An unsupported upsampling mode is met when the first [UpBlock] is
    built, after the whole hierarchy and the down blocks. *)
Lemma init_up_invalid :
  2 <= d <= n -> conv_mode_supported cm -> ~ up_mode_supported um ->
  0 <= ic -> 0 <= sf ->
  SphericalUNet_init n ic oc d sf cm um =
  (hierarchy_events n cm ++ flat_map (fun k => [EvNewDownBlock k]) (range 0 d) ++
     [EvNewUpBlock 1],
   Raise (ValueError "Invalid upsampling method.")).
Proof.
  intros Hd Hcm Hum Hic Hsf. unfold SphericalUNet_init.
  destruct (build_hierarchy_ok n cm ltac:(lia) Hcm) as (ico & E1 & Hico).
  destruct (down_blocks_ok ico (order_after_hierarchy n) d Hico ltac:(lia) ltac:(lia)
              Hic Hsf) as (downs & E2 & Hdowns).
  fold sconv_of.
  rewrite (bind_ok _ _ _ _ E1), (bind_ok _ _ _ _ E2).
  rewrite (range_down_cons (d - 1) 0) by lia. cbn [foldM].
  rewrite (new_up_block_invalid ico ∅ (d - 1) 1 Hico) by (assumption || lia).
  reflexivity.
Qed.

Lemma py_index_raises {A B} (l : list A) (i : Z) (k : A -> M B) e :
  py_index l i = Raise e -> raises (lift (py_index l i) ≫= k).
Proof. intros ->. eapply raises_bind_fail. reflexivity. Qed.

Lemma init_fails :
  ~ init_args_ok -> raises (SphericalUNet_init n ic oc d sf cm um).
Proof.
  intros Hbad. unfold SphericalUNet_init. fold sconv_of.
  destruct (decide (n <= 0)) as [Hn|Hn].
  { eapply raises_bind_ok; [by apply build_hierarchy_empty|].
    destruct (decide (1 <= d)) as [Hd|Hd].
    - rewrite (range_cons 0 d) by lia. cbn [foldM].
      eapply raises_bind_fail. eapply bind_fail.
      unfold new_down_block.
      rewrite !py_index_filts, !bind_lift_ok by lia.
      unfold ico_get. rewrite lookup_empty. reflexivity.
    - rewrite (range_nil 0 d), (range_down_nil (d - 1) 0) by lia. cbn [foldM].
      rewrite !bind_ret_l.
      destruct (py_index_filts_short ltac:(lia)) as (e & E).
      eapply py_index_raises, E. }
  destruct (decide (conv_mode_supported cm)) as [Hcm|Hcm].
  2:{ eapply raises_bind_fail. apply build_hierarchy_conv_invalid; (assumption || lia). }
  destruct (build_hierarchy_ok n cm ltac:(lia) Hcm) as (ico & E1 & Hico).
  eapply raises_bind_ok; [exact E1|].
  destruct (decide (d <= 0)) as [Hd0|Hd0].
  { rewrite (range_nil 0 d), (range_down_nil (d - 1) 0) by lia. cbn [foldM].
    rewrite !bind_ret_l.
    destruct (py_index_filts_short ltac:(lia)) as (e & E).
    eapply py_index_raises, E. }
  destruct (decide (ic < 0 \/ sf < 0)) as [Hneg|Hneg].
  { rewrite (range_cons 0 d) by lia. cbn [foldM].
    eapply raises_bind_fail. eapply bind_fail.
    apply new_down_block_negative; (assumption || lia). }
  destruct (decide (n < d)) as [Hdn|Hdn].
  { eapply raises_bind_fail.
    eapply (foldM_range_raise _
              (fun c st => (0 < c -> fst st = Some (n - (c - 1))) /\ downs_at c (snd st))
              (fun k => [EvNewDownBlock k]) 0 d n).
    - lia.
    - cbn [fst snd]. split; [lia|]. intros j. rewrite lookup_empty.
      by rewrite decide_False by lia.
    - intros k [o downs] Hk [_ I]. eexists.
      split; [apply new_down_block_ok; (assumption || lia)|].
      cbn [fst snd]. split; [intros _; f_equal; lia|].
      intros j. destruct (decide (k + 1 = j)) as [<-|Hj].
      + rewrite lookup_insert_eq, decide_True by lia. do 2 f_equal. lia.
      + rewrite lookup_insert_ne, I by assumption.
        destruct (decide (1 <= j <= k)).
        * by rewrite decide_True by lia.
        * by rewrite decide_False by lia.
    - intros s _. apply new_down_block_KeyError; (assumption || lia). }
  destruct (down_blocks_ok ico (order_after_hierarchy n) d Hico ltac:(lia) ltac:(lia)
              ltac:(lia) ltac:(lia)) as (downs & E2 & Hdowns).
  eapply raises_bind_ok; [exact E2|].
  destruct (decide (up_mode_supported um \/ d = 1)) as [Hum|Hum].
  2:{ assert (Hd1 : d <> 1) by (intros ?; apply Hum; by right).
      assert (Hum' : ~ up_mode_supported um) by (intros ?; apply Hum; by left).
      rewrite (range_down_cons (d - 1) 0) by lia. cbn [foldM].
      eapply raises_bind_fail. eapply bind_fail.
      apply (new_up_block_invalid ico ∅ (d - 1) 1 Hico); [lia|lia|exact Hum']. }
  destruct (up_blocks_ok ico Hico ltac:(lia) Hum ltac:(lia) ltac:(lia))
    as (o & cnt & ups & E3 & Hups).
  eapply raises_bind_ok; [exact E3|].
  rewrite py_index_filts, bind_lift_ok, filt_1 by lia.
  destruct (nn_Linear_neg sf oc) as (e & E).
  { destruct (decide (sf < 0 \/ oc < 0)) as [H|H]; [exact H|].
    exfalso. apply Hbad. unfold init_args_ok. repeat split; (assumption || lia). }
  eapply raises_bind_fail. unfold call. rewrite E. reflexivity.
Qed.

(** A constructed model: its arguments were acceptable and it is the model
    described by [model_at]. *)
Lemma init_inv (tr : list event) (self : SphericalUNet) :
  SphericalUNet_init n ic oc d sf cm um = (tr, Ok self) ->
  init_args_ok /\ model_at self /\ tr = init_events.
Proof.
  intros E.
  assert (Hargs : init_args_ok).
  { destruct (decide (1 <= d <= n /\ 0 <= sf /\ 0 <= oc /\ conv_mode_supported cm /\
                      (up_mode_supported um \/ d = 1) /\ 0 <= ic)) as [H|H]; [exact H|].
    destruct (init_fails H) as (tr' & e & E'). congruence. }
  destruct (init_ok Hargs) as (self' & E' & Hm).
  rewrite E in E'. injection E' as -> ->. auto.
Qed.

(** *** More on [__init__] *)

(** A map whose keys are the integers of [a, b) has [b - a] entries. *)
Lemma size_keys_range {A} (m : gmap Z A) (a b : Z) :
  (forall k, is_Some (m !! k) <-> a <= k < b) -> size m = Z.to_nat (b - a).
Proof.
  intros Hkeys. rewrite <- size_dom.
  assert (Hdom : dom m = list_to_set (range a b)).
  { apply set_eq. intros k.
    rewrite elem_of_dom, Hkeys, elem_of_list_to_set, list_elem_of_In, elem_of_range.
    reflexivity. }
  rewrite Hdom, size_list_to_set, length_range; [reflexivity|].
  unfold range. apply NoDup_fmap_2; [intros i j ?; lia|]. apply NoDup_seq.
Qed.

(** X1.  [__init__] returns a model exactly when [1 <= depth <= in_order],
    [in_channels], [start_filts] and [out_channels] are not negative (a
    layer with a negative number of channels cannot be built), the
    convolution mode is supported, and the upsampling mode is supported or,
    with depth 1, never looked at. *)
Theorem init_returns_iff :
  (exists tr self, SphericalUNet_init n ic oc d sf cm um = (tr, Ok self)) <->
  1 <= d <= n /\ 0 <= ic /\ 0 <= sf /\ 0 <= oc /\ conv_mode_supported cm /\
  (up_mode_supported um \/ d = 1).
Proof.
  split.
  - intros (tr & self & E). apply init_inv in E.
    destruct E as ((Hd & Hsf & Hoc & Hcm & Hum & Hic) & _).
    exact (conj Hd (conj Hic (conj Hsf (conj Hoc (conj Hcm Hum))))).
  - intros (Hd & Hic & Hsf & Hoc & Hcm & Hum).
    destruct init_ok as (self & E & _); [|eauto].
    exact (conj Hd (conj Hsf (conj Hoc (conj Hcm (conj Hum Hic))))).
Qed.

(** X25.  A negative [in_channels] or [start_filts] (with
    [in_order >= 1], [depth >= 1] and a supported convolution mode): the
    hierarchy is built, and the construction of the first down block raises
    the [RuntimeError] of the layer that cannot allocate its parameters;
    nothing else is built. *)
Theorem init_negative_channels :
  1 <= n -> 1 <= d -> conv_mode_supported cm -> ic < 0 \/ sf < 0 ->
  SphericalUNet_init n ic oc d sf cm um =
  (hierarchy_events n cm ++ [EvNewDownBlock 0], Raise negative_dimension).
Proof.
  intros Hn Hd Hcm Hneg. unfold SphericalUNet_init. fold sconv_of.
  destruct (build_hierarchy_ok n cm ltac:(lia) Hcm) as (ico & E1 & Hico).
  rewrite (bind_ok _ _ _ _ E1).
  rewrite (range_cons 0 d) by lia. cbn [foldM].
  rewrite (new_down_block_negative ico _ Hico Hd Hn Hneg). reflexivity.
Qed.

(** X2.  A depth larger than the input order, with channel counts
    [in_channels] and [start_filts] that are not negative: the hierarchy is
    built, the down blocks 0..in_order-1 are built, and the next one looks
    up the icosahedron of order 0, which is a [KeyError]. *)
Theorem init_depth_exceeds_order :
  1 <= n < d -> conv_mode_supported cm -> 0 <= ic -> 0 <= sf ->
  SphericalUNet_init n ic oc d sf cm um =
  (hierarchy_events n cm ++ flat_map (fun k => [EvNewDownBlock k]) (range 0 n),
   Raise (KeyError 0)).
Proof.
  intros Hn Hcm Hic Hsf. unfold SphericalUNet_init. fold sconv_of.
  destruct (build_hierarchy_ok n cm ltac:(lia) Hcm) as (ico & E1 & Hico).
  rewrite (bind_ok _ _ _ _ E1).
  assert (E2 : foldM (new_down_block n um ico (make_filts ic sf d) sconv_of)
                 (order_after_hierarchy n, ∅) (range 0 d) =
               (flat_map (fun k => [EvNewDownBlock k]) (range 0 n) ++ [],
                Raise (KeyError 0))).
  { apply (foldM_range_raise _
             (fun c st => (0 < c -> fst st = Some (n - (c - 1))) /\ downs_at c (snd st))).
    - lia.
    - cbn [fst snd]. split; [lia|]. intros j. rewrite lookup_empty.
      by rewrite decide_False by lia.
    - intros k [o downs] Hk [_ I]. eexists.
      split; [apply new_down_block_ok; (assumption || lia)|].
      cbn [fst snd]. split; [intros _; f_equal; lia|].
      intros j. destruct (decide (k + 1 = j)) as [<-|Hj].
      + rewrite lookup_insert_eq, decide_True by lia. do 2 f_equal. lia.
      + rewrite lookup_insert_ne, I by assumption.
        destruct (decide (1 <= j <= k)).
        * by rewrite decide_True by lia.
        * by rewrite decide_False by lia.
    - intros s _. apply new_down_block_KeyError; (assumption || lia). }
  rewrite (bind_fail _ _ _ _ E2). cbn [trace outcome fst snd].
  by rewrite app_nil_r.
Qed.

(** X3.  A depth of zero or less: no block is built, [filts] has the one
    entry [in_channels], and reading [filts[1]] for the last layer is an
    [IndexError]; the log is the one of the hierarchy. *)
Theorem init_depth_not_positive :
  d <= 0 -> n <= 0 \/ conv_mode_supported cm ->
  SphericalUNet_init n ic oc d sf cm um =
  (trace (build_hierarchy n cm), Raise (IndexError "list index out of range")).
Proof.
  intros Hd Hn. unfold SphericalUNet_init. fold sconv_of.
  assert (E1 : exists ico, build_hierarchy n cm = (trace (build_hierarchy n cm), Ok ico)).
  { destruct (decide (n <= 0)) as [Hn0|Hn0].
    - rewrite build_hierarchy_empty by assumption. by exists ∅.
    - destruct Hn as [?|Hcm]; [lia|].
      destruct (build_hierarchy_ok n cm ltac:(lia) Hcm) as (ico & -> & _). by exists ico. }
  destruct E1 as (ico & E1). rewrite (bind_ok _ _ _ _ E1).
  rewrite (range_nil 0 d), (range_down_nil (d - 1) 0) by lia. cbn [foldM].
  rewrite !bind_ret_l. unfold make_filts. rewrite (range_nil 0 d) by lia.
  cbn. by rewrite app_nil_r.
Qed.

(** X4.  The filter schedule of a model: [depth + 1] entries, [in_channels]
    first, [start_filts] second, and each later entry twice the one before. *)
Theorem init_filts_schedule (tr : list event) (self : SphericalUNet) :
  SphericalUNet_init n ic oc d sf cm um = (tr, Ok self) ->
  length (filts self) = Z.to_nat (d + 1) /\
  py_index (filts self) 0 = Ok ic /\
  py_index (filts self) 1 = Ok sf /\
  (forall i, 1 <= i < d ->
     exists c, py_index (filts self) i = Ok c /\ py_index (filts self) (i + 1) = Ok (2 * c)).
Proof.
  intros E. destruct (init_inv _ _ E) as (Hargs & Hm & _).
  destruct Hargs as (Hd & _).
  destruct Hm as (_ & _ & _ & _ & _ & _ & _ & _ & -> & _).
  split; [unfold make_filts; rewrite length_app, length_map, length_range; cbn; lia|].
  split; [by rewrite py_index_filts by lia|].
  split; [by rewrite py_index_filts, filt_1 by lia|].
  intros i Hi. exists (filt i). rewrite !py_index_filts by lia. split; [reflexivity|].
  f_equal. unfold filt. rewrite !decide_False by lia.
  replace (i + 1 - 1) with (Z.succ (i - 1)) by lia.
  rewrite Z.pow_succ_r by lia. lia.
Qed.

(** X5.  The blocks of a model: [depth] down blocks under 1..depth and
    [depth - 1] up blocks under 1..depth-1.  The first down block is the
    only one without pooling; the others pool with mode "max" when the
    upsampling mode is "maxpad" and with mode "mean" otherwise.  Every up
    block has the upsampling mode of the model. *)
Theorem init_block_inventory (tr : list event) (self : SphericalUNet) :
  SphericalUNet_init n ic oc d sf cm um = (tr, Ok self) ->
  size (downs self) = Z.to_nat d /\
  size (ups self) = Z.to_nat (d - 1) /\
  (forall k blk, downs self !! k = Some blk ->
     1 <= k <= d /\
     db_first blk = bool_decide (k = 1) /\
     db_pooling blk =
       if decide (k = 1) then None
       else Some (mkIcoPool (Some (neighs_at (n - k + 2))) (Some (down_table (n - k + 2)))
                    (if decide (um = "maxpad") then "max" else "mean"))) /\
  (forall k blk, ups self !! k = Some blk -> 1 <= k <= d - 1 /\ ub_up_mode blk = um).
Proof.
  intros E. destruct (init_inv _ _ E) as (Hargs & Hm & _).
  destruct Hargs as (Hd & _).
  destruct Hm as (_ & _ & _ & _ & _ & _ & _ & _ & _ & _ & Hdowns & Hups & _).
  split; [|split; [|split]].
  - rewrite (size_keys_range _ 1 (d + 1)); [f_equal; lia|].
    intros k. rewrite Hdowns. destruct (decide (1 <= k <= d)); split; intros H;
      [lia | eauto | by destruct H | lia].
  - rewrite (size_keys_range _ 1 d); [reflexivity|].
    intros k. rewrite Hups. destruct (decide (1 <= k <= d - 1)); split; intros H;
      [lia | eauto | by destruct H | lia].
  - intros k blk Hk. rewrite Hdowns in Hk.
    destruct (decide (1 <= k <= d)) as [Hr|]; [|discriminate]. injection Hk as <-.
    split; [exact Hr|]. unfold down_block_at, pool_mode_of.
    cbn [db_first db_pooling].
    destruct (decide (k = 1)) as [->|Hne].
    + rewrite decide_True by lia. by rewrite !bool_decide_eq_true_2 by lia.
    + rewrite !decide_False by lia. rewrite !bool_decide_eq_false_2 by lia.
      cbn [negb]. split; [reflexivity|]. do 3 f_equal; f_equal; lia.
  - intros k blk Hk. rewrite Hups in Hk.
    destruct (decide (1 <= k <= d - 1)) as [Hr|]; [|discriminate]. injection Hk as <-.
    split; [exact Hr|]. reflexivity.
Qed.

End Blocks.

(** *** Statements about [SphericalUNet] *)

(** C1.  A model returned by [__init__] raises [RuntimeError] on an input
    whose number of vertices (size at index 2) is not
    [number_of_ico_vertices(in_order)], and the log of the call is empty: no
    down block, up block or linear layer has run. *)
Theorem forward_vertex_mismatch_raises
    (n ic oc d sf : Z) (cm um : string) (tr : list event) (self : SphericalUNet)
    (x : Tensor T) :
  SphericalUNet_init n ic oc d sf cm um = (tr, Ok self) ->
  Z.of_nat (size2 x) <> number_of_ico_vertices n ->
  forward self x =
  ([], Raise (RuntimeError ("Input data must be projected on an " +:+ pretty n
                              +:+ " order icosahedron."))).
Proof.
  intros Hinit Hx.
  destruct (init_inv _ _ _ _ _ _ _ _ _ Hinit) as (_ & Hm & _).
  destruct Hm as (Hn & _ & _ & _ & Hv & _).
  unfold forward, check_input. rewrite Hv, Hn.
  rewrite decide_True by assumption. reflexivity.
Qed.

Lemma encoder_step_trace (self : SphericalUNet) st (idx : Z) (blk : DownBlock) :
  downs self !! idx = Some blk -> trace (encoder_step self st idx) = [EvDownBlock idx].
Proof.
  intros Hb. destruct st as [[x eo] po]. unfold encoder_step, getattr_down.
  rewrite Hb, bind_ret_l, trace_bind. unfold call, trace, outcome. cbn [fst snd].
  destruct (DownBlock_forward blk x) as [[y p]|e]; reflexivity.
Qed.

(** C10.  The check looks at the number of vertices only: with the right
    number of vertices and a number of channels other than [in_channels],
    the check passes, [forward] goes on with its body, and the first down
    block is run on the input. *)
Theorem forward_check_ignores_channels
    (n ic oc d sf : Z) (cm um : string) (tr : list event) (self : SphericalUNet)
    (x : Tensor T) :
  SphericalUNet_init n ic oc d sf cm um = (tr, Ok self) ->
  Z.of_nat (size2 x) = number_of_ico_vertices n ->
  Z.of_nat (size1 x) <> ic ->
  check_input self x = ([], Ok tt) /\
  forward self x = forward_body self x /\
  exists rest, trace (forward self x) = EvDownBlock 1 :: rest.
Proof.
  intros Hinit Hx _.
  destruct (init_inv _ _ _ _ _ _ _ _ _ Hinit) as (Hargs & Hm & _).
  destruct Hargs as (Hd & _).
  destruct Hm as (Hn & Hdepth & _ & _ & Hv & _ & _ & _ & _ & _ & Hdowns & _).
  assert (Hcheck : check_input self x = ret tt).
  { unfold check_input. rewrite Hv. by rewrite decide_False by (intros ?; contradiction). }
  assert (Hfw : forward self x = forward_body self x).
  { unfold forward. rewrite Hcheck.
    exact (bind_ret_l tt (fun _ => forward_body self x)). }
  split; [exact Hcheck|]. split; [exact Hfw|].
  rewrite Hfw. unfold forward_body. rewrite Hdepth, (range_cons 1 (d + 1)) by lia.
  cbn [foldM]. pose proof (Hdowns 1) as H1. rewrite decide_True in H1 by lia.
  rewrite !trace_bind, (encoder_step_trace _ _ _ _ H1). cbn [app]. eauto.
Qed.

(** C8.  On a model returned by [__init__] and a well-formed tensor of
    shape (batch, filts[1], in_vertices), the last stage of [forward]
    (permute, flatten into rows, linear layer, restore, permute back) runs
    the linear layer once and gives exactly the tensor whose entry
    [(b, o, v)] is entry [o] of the same layer applied to the feature vector
    of vertex [v] in sample [b]. *)
Theorem fc_stage_is_vertexwise
    (n ic oc d sf : Z) (cm um : string) (tr : list event) (self : SphericalUNet)
    (x : Tensor T) :
  SphericalUNet_init n ic oc d sf cm um = (tr, Ok self) ->
  wf_tensor x ->
  py_index (filts self) 1 = Ok (Z.of_nat (size1 x)) ->
  Z.of_nat (size2 x) = in_vertices self ->
  fc_stage self x = ([EvLinear], Ok (vertexwise_linear (fc self) x)).
Proof.
  intros Hinit Hwf Hc Hv.
  destruct (init_inv _ _ _ _ _ _ _ _ _ Hinit) as (Hargs & Hm & _).
  destruct Hargs as (Hd & Hsf & Hoc & _).
  destruct Hm as (_ & _ & _ & _ & _ & _ & Hout & _ & Hfilts & _ & _ & _ & Hfc).
  destruct (nn_Linear_ok sf oc Hsf Hoc) as (l & El & Hwfl & Hin & Hol).
  rewrite Hfc in El. injection El as <-.
  rewrite Hfilts, py_index_filts, filt_1 in Hc by lia. injection Hc as Hc.
  apply fc_stage_pipeline; try assumption.
  - rewrite Hfilts, py_index_filts, filt_1 by lia. by rewrite Hin.
  - by rewrite Hol, Hout.
  - by rewrite Hin, Hc.
Qed.

(** C4.  For [in_order >= 1] and a supported convolution mode the three
    loops of [__init__] return a hierarchy with exactly [in_order] records,
    under the keys 1..in_order; the record under [k] has order [k], has
    [down_indices] exactly when [2 <= k <= in_order] and [up_indices] exactly
    when [1 <= k <= in_order - 1]; and it is the hierarchy of every model
    that [__init__] returns for this order and mode. *)
Theorem hierarchy_records (n : Z) (cm : string) :
  1 <= n -> conv_mode_supported cm ->
  exists hier : gmap Z Ico,
    outcome (build_hierarchy n cm) = Ok hier /\
    size hier = Z.to_nat n /\
    (forall k, is_Some (hier !! k) <-> 1 <= k <= n) /\
    (forall k r, hier !! k = Some r ->
       order r = k /\
       (is_Some (down_indices r) <-> 2 <= k <= n) /\
       (is_Some (up_indices r) <-> 1 <= k <= n - 1)) /\
    (forall ic oc d sf um tr self,
       SphericalUNet_init n ic oc d sf cm um = (tr, Ok self) -> ico self = hier).
Proof.
  intros Hn Hcm.
  destruct (build_hierarchy_ok n cm Hn Hcm) as (hier & E & Hh).
  exists hier. split; [by rewrite E|].
  assert (Hkeys : forall k, is_Some (hier !! k) <-> 1 <= k <= n).
  { intros k. rewrite Hh.
    destruct (decide (1 <= k <= n)); split; intros H';
      [assumption | eauto | by destruct H' | contradiction]. }
  split; [|split; [exact Hkeys|split]].
  - rewrite <- size_dom.
    assert (Hdom : dom hier = list_to_set (range 1 (n + 1))).
    { apply set_eq. intros k.
      rewrite elem_of_dom, Hkeys, elem_of_list_to_set, list_elem_of_In, elem_of_range. lia. }
    rewrite Hdom, size_list_to_set, length_range; [lia|].
    unfold range. apply NoDup_fmap_2; [intros i j ?; lia|]. apply NoDup_seq.
  - intros k r Hr. rewrite Hh in Hr. case_decide as Hk; [|discriminate].
    injection Hr as <-. cbn [ico_rec order down_indices up_indices].
    split; [reflexivity|]. split.
    + destruct (decide (2 <= k)).
      * rewrite bool_decide_eq_true_2 by assumption. split; [lia|eauto].
      * rewrite bool_decide_eq_false_2 by assumption.
        split; [intros [? ?]; discriminate|lia].
    + destruct (decide (k < n)).
      * rewrite bool_decide_eq_true_2 by assumption. split; [lia|eauto].
      * rewrite bool_decide_eq_false_2 by assumption.
        split; [intros [? ?]; discriminate|lia].
  - intros ic oc d sf um tr self Hinit.
    destruct (init_inv _ _ _ _ _ _ _ _ _ Hinit) as (_ & Hm & _).
    destruct Hm as (_ & _ & _ & _ & _ & _ & _ & Hico & _).
    apply map_eq. intros k. by rewrite Hico, Hh.
Qed.

(** C3 (as the code has it).  With [in_order >= 1] an unsupported
    convolution mode raises [ValueError] in the first iteration of the first
    loop, when only the icosahedron of order 1 and its 1-ring neighbours have
    been asked for.  With a supported convolution mode,
    [2 <= depth <= in_order] and channel counts [in_channels] and
    [start_filts] that are not negative (a negative one makes the
    construction of the first down block raise), an unsupported upsampling
    mode raises [ValueError] when the first [UpBlock] is built, after the
    whole hierarchy and all the down blocks. *)
Theorem init_unsupported_modes (n ic oc d sf : Z) (cm um : string) :
  (1 <= n -> ~ conv_mode_supported cm ->
   SphericalUNet_init n ic oc d sf cm um =
   ([EvIcosahedron 1; EvNeighbors 1 1],
    Raise (ValueError "Unexptected convolution mode."))) /\
  (2 <= d <= n -> conv_mode_supported cm -> ~ up_mode_supported um ->
   0 <= ic -> 0 <= sf ->
   SphericalUNet_init n ic oc d sf cm um =
   (hierarchy_events n cm ++ flat_map (fun k => [EvNewDownBlock k]) (range 0 d) ++
      [EvNewUpBlock 1],
    Raise (ValueError "Invalid upsampling method."))).
Proof.
  split.
  - intros Hn Hcm. unfold SphericalUNet_init.
    by rewrite (bind_fail _ _ _ _ (build_hierarchy_conv_invalid n cm Hn Hcm)).
  - apply init_up_invalid.
Qed.

(** *** More on the hierarchy, [forward] and the vertex-wise filter *)

(** X6.  With the convolution mode "1ring" the convolution of every order
    uses the very table kept for pooling, and the construction asks
    [neighbors] for nothing deeper than one ring and never calls
    [neighbors_rec]. *)
Theorem ring1_shares_the_pooling_table
    (n ic oc d sf : Z) (um : string) (tr : list event) (self : SphericalUNet) :
  SphericalUNet_init n ic oc d sf "1ring" um = (tr, Ok self) ->
  (forall k r, ico self !! k = Some r ->
     conv_neighbor_indices r = CNArray (neighbor_indices r)) /\
  (forall ev, In ev tr ->
     (forall k, ev <> EvNeighbors k 2) /\ (forall k, ev <> EvNeighborsRec k)).
Proof.
  intros E. destruct (init_inv _ _ _ _ _ _ _ _ _ E) as (_ & Hm & ->).
  destruct Hm as (_ & _ & _ & _ & _ & _ & _ & Hico & _). split.
  - intros k r Hr. rewrite Hico in Hr.
    destruct (decide (1 <= k <= n)); [|discriminate]. by injection Hr as <-.
  - intros ev Hev. unfold init_events, hierarchy_events, conv_events in Hev.
    rewrite !in_app_iff, !in_flat_map in Hev.
    destruct Hev as [[(k & _ & H)|[(k & _ & H)|(k & _ & H)]]
                    |[(k & _ & H)|[(k & _ & H)|H]]];
      cbn in H; repeat (destruct H as [<-|H]); try contradiction;
      split; intros; discriminate.
Qed.

Lemma encoder_step_raises (self : SphericalUNet) st (idx : Z) (blk : DownBlock) (e : exn) :
  downs self !! idx = Some blk ->
  DownBlock_forward blk (fst (fst st)) = Raise e ->
  encoder_step self st idx = ([EvDownBlock idx], Raise e).
Proof.
  intros Hb He. destruct st as [[x eo] po]. cbn [fst] in He.
  unfold encoder_step, getattr_down. rewrite Hb, bind_ret_l, He. reflexivity.
Qed.

(** X7.  An exception raised inside the first down block (by its
    convolution, normalisation or activation) is the exception of [forward]:
    nothing catches it, and no other block is run. *)
Theorem forward_first_block_error
    (n ic oc d sf : Z) (cm um : string) (tr : list event) (self : SphericalUNet)
    (x : Tensor T) (blk : DownBlock) (e : exn) :
  SphericalUNet_init n ic oc d sf cm um = (tr, Ok self) ->
  Z.of_nat (size2 x) = number_of_ico_vertices n ->
  downs self !! 1 = Some blk ->
  DownBlock_forward blk x = Raise e ->
  forward self x = ([EvDownBlock 1], Raise e).
Proof.
  intros Hinit Hx Hblk He.
  destruct (init_inv _ _ _ _ _ _ _ _ _ Hinit) as (Hargs & Hm & _).
  destruct Hargs as (Hd & _).
  destruct Hm as (_ & Hdepth & _ & _ & Hv & _).
  unfold forward, check_input. rewrite Hv.
  rewrite decide_False by (intros ?; contradiction). rewrite bind_ret_l.
  unfold forward_body. rewrite Hdepth, (range_cons 1 (d + 1)) by lia. cbn [foldM].
  erewrite (bind_fail (_ ≫= _)); [reflexivity|].
  eapply bind_fail. by eapply encoder_step_raises.
Qed.

Lemma fc_stage_constructed
    (n ic oc d sf : Z) (cm um : string) (tr : list event) (self : SphericalUNet)
    (x : Tensor T) :
  SphericalUNet_init n ic oc d sf cm um = (tr, Ok self) ->
  wf_tensor x -> Z.of_nat (size1 x) = sf -> Z.of_nat (size2 x) = in_vertices self ->
  fc_stage self x = ([EvLinear], Ok (vertexwise_linear (fc self) x)) /\
  out_features (fc self) = oc /\ 0 <= oc.
Proof.
  intros Hinit Hwf Hc Hv.
  destruct (init_inv _ _ _ _ _ _ _ _ _ Hinit) as (Hargs & Hm & _).
  destruct Hargs as (Hd & Hsf & Hoc & _).
  destruct Hm as (_ & _ & _ & _ & _ & _ & Hout & _ & Hfilts & _ & _ & _ & Hfc).
  destruct (nn_Linear_ok sf oc Hsf Hoc) as (l & El & Hwfl & Hin & Hol).
  rewrite Hfc in El. injection El as <-.
  split; [|by split].
  apply fc_stage_pipeline; try assumption.
  - rewrite Hfilts, py_index_filts, filt_1 by lia. by rewrite Hin.
  - by rewrite Hol, Hout.
  - by rewrite Hin.
Qed.

(** X8.  The last stage never regroups a tensor with the wrong number of
    channels: with a sample and a vertex at least, a channel count other
    than [filts[1]] makes the reshape raise, before the linear layer runs. *)
Theorem fc_stage_channel_mismatch
    (n ic oc d sf : Z) (cm um : string) (tr : list event) (self : SphericalUNet)
    (x : Tensor T) :
  SphericalUNet_init n ic oc d sf cm um = (tr, Ok self) ->
  (0 < size0 x)%nat -> (0 < size2 x)%nat ->
  Z.of_nat (size2 x) = in_vertices self ->
  Z.of_nat (size1 x) <> sf ->
  fc_stage self x = ([], Raise (RuntimeError "shape is invalid for input size")).
Proof.
  intros Hinit Hb Hv Hverts Hc.
  destruct (init_inv _ _ _ _ _ _ _ _ _ Hinit) as (Hargs & Hm & _).
  destruct Hargs as (Hd & _).
  destruct Hm as (_ & _ & _ & _ & _ & _ & _ & _ & Hfilts & _).
  unfold fc_stage. rewrite Hfilts, py_index_filts, filt_1, bind_lift_ok by lia.
  unfold reshape2. cbn [size0 size1 size2 permute021].
  assert (Hfit : sizes_fit [Z.of_nat (size0 x) * in_vertices self; sf]
                   (size0 x * size2 x * size1 x) = false).
  { unfold sizes_fit. cbn [forallb fold_right]. apply andb_false_iff. right.
    apply Z.eqb_neq. rewrite <- Hverts, !Nat2Z.inj_mul, Z.mul_1_r. intros Heq.
    apply Hc. symmetry.
    apply (Z.mul_reg_l _ _ (Z.of_nat (size0 x) * Z.of_nat (size2 x))); [nia|exact Heq]. }
  rewrite Hfit. reflexivity.
Qed.

(** Entry [(b, c, v)] of a tensor. *)
Definition entry (t : Tensor T) (b c v : nat) : T :=
  nth v (nth c (nth b (elems t) []) []) tzero.

Lemma nth_map_seq {A} (f : nat -> A) (len i : nat) (dflt : A) :
  (i < len)%nat -> nth i (map f (seq 0 len)) dflt = f i.
Proof.
  intros Hi. rewrite (nth_indep _ dflt (f 0%nat)) by (by rewrite length_map, length_seq).
  rewrite map_nth, seq_nth by assumption. reflexivity.
Qed.

Lemma entry_vertexwise_linear (l : Linear T) (x : Tensor T) (b o v : nat) :
  (b < size0 x)%nat -> (o < Z.to_nat (out_features l))%nat -> (v < size2 x)%nat ->
  entry (vertexwise_linear l x) b o v =
  nth o (linear_row tzero tadd tmul l (feature_vector x b v)) tzero.
Proof.
  intros Hb Ho Hv. unfold entry, vertexwise_linear. cbn [elems].
  rewrite (nth_map_seq _ _ _ _ Hb), (nth_map_seq _ _ _ _ Ho), (nth_map_seq _ _ _ _ Hv).
  reflexivity.
Qed.

(** X9.  The last stage mixes nothing across vertices: if two inputs hold
    the same feature vector at vertex [v] of sample [b], their outputs hold
    the same values at that vertex of that sample, whatever the other
    vertices hold. *)
Theorem fc_stage_is_local
    (n ic oc d sf : Z) (cm um : string) (tr : list event) (self : SphericalUNet)
    (x x' : Tensor T) (b v : nat) :
  SphericalUNet_init n ic oc d sf cm um = (tr, Ok self) ->
  wf_tensor x -> wf_tensor x' ->
  size0 x' = size0 x -> size1 x' = size1 x -> size2 x' = size2 x ->
  Z.of_nat (size1 x) = sf -> Z.of_nat (size2 x) = in_vertices self ->
  (b < size0 x)%nat -> (v < size2 x)%nat ->
  feature_vector x b v = feature_vector x' b v ->
  exists y y',
    outcome (fc_stage self x) = Ok y /\ outcome (fc_stage self x') = Ok y' /\
    forall o, (o < Z.to_nat oc)%nat -> entry y b o v = entry y' b o v.
Proof.
  intros Hinit Hwf Hwf' H0 H1 H2 Hc Hv Hb Hvv Hfv.
  destruct (fc_stage_constructed _ _ _ _ _ _ _ _ _ x Hinit Hwf Hc Hv) as (E & Hout & _).
  destruct (fc_stage_constructed _ _ _ _ _ _ _ _ _ x' Hinit Hwf') as (E' & _);
    [congruence|congruence|].
  exists (vertexwise_linear (fc self) x), (vertexwise_linear (fc self) x').
  split; [by rewrite E|]. split; [by rewrite E'|].
  intros o Ho. rewrite !entry_vertexwise_linear by (rewrite ?Hout; lia).
  by rewrite Hfv.
Qed.

(** *** Shapes through [forward] *)

Section ForwardShapes.

(** [prov_ok p b c k]: [p] is the provenance of a max pooling of [b] samples
    and [c] channels down to order [k]. *)
Variable prov_ok : Prov -> nat -> Z -> Z -> Prop.

Definition has_shape (x : Tensor T) (b : nat) (c v : Z) : Prop :=
  wf_tensor x /\ size0 x = b /\ Z.of_nat (size1 x) = c /\ Z.of_nat (size2 x) = v.

(** What the model asks of the layers it composes: built with the tables of
    an order and a number of input and output channels, a layer takes a
    batch x channels x vertices tensor of that order to one of the stated
    channels and order. *)
Record layer_contracts (cm : string) : Prop := {
  conv_ok : forall cl i o k b x,
    1 <= k -> 0 <= o -> has_shape x b i (number_of_ico_vertices k) ->
    exists y, conv_forward cl i o (conv_table cm k) x = Ok y /\
              has_shape y b o (number_of_ico_vertices k);
  batchnorm_ok : forall c b v x,
    has_shape x b c v ->
    exists y, batchnorm_forward c x = Ok y /\ has_shape y b c v;
  leaky_relu_ok : forall b c v x,
    has_shape x b c v ->
    exists y, leaky_relu_forward x = Ok y /\ has_shape y b c v;
  pool_ok : forall mode k b c x,
    1 <= k -> has_shape x b c (number_of_ico_vertices (k + 1)) ->
    exists y p,
      pool_forward (mkIcoPool (Some (neighs_at (k + 1))) (Some (down_table (k + 1))) mode) x
        = Ok (y, p) /\
      has_shape y b c (number_of_ico_vertices k) /\
      (mode = "max" -> exists pr, p = Some pr /\ prov_ok pr b c k);
  upsample_ok : forall i o k b x,
    1 <= k -> 0 <= o -> has_shape x b i (number_of_ico_vertices k) ->
    exists y, up_forward (IcoUpSample i o (Some (up_table k))) x = Ok y /\
              has_shape y b o (number_of_ico_vertices (k + 1));
  fixindex_ok : forall i o k b x,
    1 <= k -> 0 <= o -> has_shape x b i (number_of_ico_vertices k) ->
    exists y, up_forward (IcoFixIndexUpSample i o (Some (up_table k))) x = Ok y /\
              has_shape y b o (number_of_ico_vertices (k + 1));
  upconv_ok : forall i o k b x,
    1 <= k -> 0 <= o -> has_shape x b i (number_of_ico_vertices k) ->
    exists y,
      up_forward (IcoUpConv i o (neighs_at (k + 1)) (Some (down_table (k + 1)))) x = Ok y /\
      has_shape y b o (number_of_ico_vertices (k + 1));
  maxindex_ok : forall i o k b x pr,
    1 <= k -> 0 <= o -> has_shape x b i (number_of_ico_vertices k) ->
    prov_ok pr b o k ->
    exists y,
      up_forward_indices
        (IcoMaxIndexUpSample i o (neighs_at (k + 1)) (Some (down_table (k + 1)))) x (Some pr)
        = Ok y /\
      has_shape y b o (number_of_ico_vertices (k + 1))
}.

Lemma has_shape_eq (x : Tensor T) b c v c' v' :
  has_shape x b c v -> c = c' -> v = v' -> has_shape x b c' v'.
Proof. by intros H <- <-. Qed.

Lemma zip_with_app_wf (r1 r2 c : nat) (l1 l2 : list (list (list T))) :
  length l1 = length l2 ->
  Forall (wf_rows r1 c) l1 -> Forall (wf_rows r2 c) l2 ->
  Forall (wf_rows (r1 + r2) c) (zip_with (@app (list T)) l1 l2).
Proof.
  revert l2. induction l1 as [|m1 l1 IH]; intros [|m2 l2] Hlen H1 H2;
    try discriminate; cbn [zip_with]; [constructor|].
  inversion H1 as [|? ? [Hm1 Hr1] Hl1]; inversion H2 as [|? ? [Hm2 Hr2] Hl2]; subst.
  constructor.
  - split; [by rewrite length_app|]. by apply Forall_app.
  - apply IH; [by injection Hlen|assumption|assumption].
Qed.

Lemma cat1_ok (x1 x2 : Tensor T) b c1 c2 v :
  has_shape x1 b c1 v -> has_shape x2 b c2 v ->
  exists y, cat1 x1 x2 = Ok y /\ has_shape y b (c1 + c2) v.
Proof.
  intros ([Hl1 Hw1] & Hb1 & Hc1 & Hv1) ([Hl2 Hw2] & Hb2 & Hc2 & Hv2).
  unfold cat1. rewrite Hb1, Hb2, Nat.eqb_refl.
  replace (size2 x2) with (size2 x1) in * by lia. rewrite Nat.eqb_refl. cbn [andb].
  eexists. split; [reflexivity|].
  unfold has_shape, wf_tensor. cbn [size0 size1 size2 elems].
  repeat split; try lia.
  - rewrite length_zip_with. lia.
  - apply zip_with_app_wf; [lia|assumption|assumption].
Qed.

Section WithContracts.
Variables (n ic oc d sf : Z) (cm um : string).
Hypothesis contracts : layer_contracts cm.
Hypothesis args_ok : init_args_ok n ic oc d sf cm um.

Lemma filt_nonneg (i : Z) : 1 <= i -> 0 <= filt ic sf i.
Proof using args_ok.
  intros Hi. destruct args_ok as (_ & Hsf & _). unfold filt.
  rewrite decide_False by lia. apply Z.mul_nonneg_nonneg; [lia|].
  apply Z.pow_nonneg. lia.
Qed.

Lemma filt_double (i : Z) : 1 <= i -> filt ic sf i + filt ic sf i = filt ic sf (i + 1).
Proof.
  intros Hi. unfold filt. rewrite !decide_False by lia.
  replace (i + 1 - 1) with (Z.succ (i - 1)) by lia.
  rewrite Z.pow_succ_r by lia. lia.
Qed.

Lemma double_conv_ok cl i o k b (x : Tensor T) :
  1 <= k -> 0 <= o -> has_shape x b i (number_of_ico_vertices k) ->
  exists y, Sequential_forward (double_conv_layers cl i o (conv_table cm k)) x = Ok y /\
            has_shape y b o (number_of_ico_vertices k).
Proof using contracts.
  intros Hk Ho Hx. unfold double_conv_layers. cbn [Sequential_forward layer_forward].
  destruct (conv_ok cm contracts cl i o k b x Hk Ho Hx) as (y1 & -> & H1).
  destruct (batchnorm_ok cm contracts o b _ y1 H1) as (y2 & -> & H2).
  destruct (leaky_relu_ok cm contracts b o _ y2 H2) as (y3 & -> & H3).
  destruct (conv_ok cm contracts cl o o k b y3 Hk Ho H3) as (y4 & -> & H4).
  destruct (batchnorm_ok cm contracts o b _ y4 H4) as (y5 & -> & H5).
  destruct (leaky_relu_ok cm contracts b o _ y5 H5) as (y6 & -> & H6).
  by exists y6.
Qed.

Lemma down_block_forward_ok (idx : Z) b (x : Tensor T) :
  0 <= idx < n ->
  has_shape x b (filt ic sf idx) (number_of_ico_vertices (n - Z.max 0 (idx - 1))) ->
  exists y p,
    DownBlock_forward (down_block_at n ic sf cm um idx) x = Ok (y, p) /\
    has_shape y b (filt ic sf (idx + 1)) (number_of_ico_vertices (n - idx)) /\
    (1 <= idx -> um = "maxpad" ->
     exists pr, p = Some pr /\ prov_ok pr b (filt ic sf idx) (n - idx)).
Proof using contracts args_ok.
  intros Hidx Hx. unfold DownBlock_forward, down_block_at.
  cbn [db_first db_pooling db_block].
  destruct (decide (idx = 0)) as [->|Hne].
  - rewrite bool_decide_eq_true_2 by reflexivity. cbn [negb].
    destruct (double_conv_ok (sconv_of cm) (filt ic sf 0) (filt ic sf (0 + 1)) (n - 0) b x)
      as (y & -> & Hy).
    + lia.
    + apply filt_nonneg. lia.
    + eapply has_shape_eq; [exact Hx|reflexivity|f_equal; lia].
    + exists y, None. split; [reflexivity|]. split; [exact Hy|]. lia.
  - rewrite bool_decide_eq_false_2 by assumption. cbn [negb].
    destruct (pool_ok cm contracts (pool_mode_of um) (n - idx) b (filt ic sf idx) x)
      as (y1 & p & E & H1 & Hp).
    + lia.
    + eapply has_shape_eq; [exact Hx|reflexivity|f_equal; lia].
    + rewrite E.
      destruct (double_conv_ok (sconv_of cm) (filt ic sf idx) (filt ic sf (idx + 1))
                  (n - idx) b y1) as (y & -> & Hy).
      * lia.
      * apply filt_nonneg. lia.
      * exact H1.
      * exists y, p. split; [reflexivity|]. split; [exact Hy|].
        intros _ Hum. apply Hp. unfold pool_mode_of. by rewrite decide_True.
Qed.

Lemma up_block_forward_ok (cnt : Z) b (x1 x2 : Tensor T) (mpi : option Prov) :
  1 <= cnt <= d - 1 ->
  has_shape x1 b (filt ic sf (d - cnt + 1)) (number_of_ico_vertices (n - (d - cnt))) ->
  has_shape x2 b (filt ic sf (d - cnt)) (number_of_ico_vertices (n - (d - cnt) + 1)) ->
  (um = "maxpad" ->
   exists pr, mpi = Some pr /\ prov_ok pr b (filt ic sf (d - cnt)) (n - (d - cnt))) ->
  exists y,
    UpBlock_forward (up_block_at n ic d sf cm um cnt) x1 x2 mpi = Ok y /\
    has_shape y b (filt ic sf (d - cnt)) (number_of_ico_vertices (n - (d - cnt) + 1)).
Proof using contracts args_ok.
  intros Hcnt H1 H2 Hp.
  destruct args_ok as (Hd & Hsf & Hoc & Hcm & Hum & Hic).
  destruct Hum as [Hum|Hd1]; [|lia].
  assert (Ho : 0 <= filt ic sf (d - cnt)) by (apply filt_nonneg; lia).
  assert (Hk : 1 <= n - (d - cnt)) by lia.
  unfold UpBlock_forward, up_block_at. cbn [ub_up_mode ub_up ub_double_conv].
  assert (Hup : exists y1,
    (if decide (um = "maxpad")
     then up_forward_indices
            (up_layer_of um (filt ic sf (d - cnt + 1)) (filt ic sf (d - cnt))
               (neighs_at (n - (d - cnt) + 1)) (Some (up_table (n - (d - cnt))))
               (Some (down_table (n - (d - cnt) + 1)))) x1 mpi
     else up_forward
            (up_layer_of um (filt ic sf (d - cnt + 1)) (filt ic sf (d - cnt))
               (neighs_at (n - (d - cnt) + 1)) (Some (up_table (n - (d - cnt))))
               (Some (down_table (n - (d - cnt) + 1)))) x1) = Ok y1 /\
    has_shape y1 b (filt ic sf (d - cnt)) (number_of_ico_vertices (n - (d - cnt) + 1))).
  { unfold up_layer_of. destruct Hum as [-> | [-> | [-> | ->]]]; cbn.
    - by apply (upsample_ok cm contracts).
    - by apply (fixindex_ok cm contracts).
    - destruct (Hp eq_refl) as (pr & -> & Hpr). by apply (maxindex_ok cm contracts).
    - by apply (upconv_ok cm contracts). }
  destruct Hup as (y1 & -> & Hy1).
  destruct (cat1_ok y1 x2 b _ _ _ Hy1 H2) as (y2 & -> & Hy2).
  apply double_conv_ok; [lia|assumption|].
  eapply has_shape_eq; [exact Hy2|apply filt_double; lia|reflexivity].
Qed.

(** The state of the encoder loop when [idx] is about to take the value
    [c]: the current tensor, the outputs and the pooling outputs so far. *)
Definition enc_inv (b : nat) (c : Z)
    (st : Tensor T * list (Tensor T) * list (option Prov)) : Prop :=
  has_shape (fst (fst st)) b (filt ic sf (c - 1))
            (number_of_ico_vertices (n - Z.max 0 (c - 2))) /\
  length (snd (fst st)) = Z.to_nat (c - 1) /\
  length (snd st) = Z.to_nat (c - 1) /\
  (forall j, 1 <= j <= c - 1 ->
     exists t, nth_error (snd (fst st)) (Z.to_nat (j - 1)) = Some t /\
               has_shape t b (filt ic sf j) (number_of_ico_vertices (n - (j - 1)))) /\
  (um = "maxpad" -> forall j, 2 <= j <= c - 1 ->
     exists pr, nth_error (snd st) (Z.to_nat (j - 1)) = Some (Some pr) /\
                prov_ok pr b (filt ic sf (j - 1)) (n - (j - 1))).

Lemma encoder_step_ok (self : SphericalUNet) b st (k : Z) :
  downs_at n ic sf cm um d (downs self) -> 1 <= k <= d ->
  enc_inv b k st ->
  exists st', encoder_step self st k = ([EvDownBlock k], Ok st') /\ enc_inv b (k + 1) st'.
Proof using contracts args_ok.
  intros Hdowns Hk. destruct st as [[x eo] po]. unfold enc_inv. cbn [fst snd].
  intros (Hx & Heo & Hpo & Hout & Hprov).
  destruct args_ok as (Hd & _).
  unfold encoder_step, getattr_down. rewrite (Hdowns k), decide_True, bind_ret_l by lia.
  destruct (down_block_forward_ok (k - 1) b x) as (y & p & E & Hy & Hp).
  { lia. }
  { eapply has_shape_eq; [exact Hx|reflexivity|f_equal; lia]. }
  rewrite E, bind_call_ok. cbn [trace outcome ret fst snd].
  eexists. split; [reflexivity|]. cbn [fst snd].
  split; [eapply has_shape_eq; [exact Hy|f_equal; lia|f_equal; lia]|].
  split; [rewrite length_app; cbn [length]; lia|].
  split; [rewrite length_app; cbn [length]; lia|].
  split.
  - intros j Hj. destruct (decide (j = k)) as [->|Hne].
    + exists y. split.
      * rewrite nth_error_app2 by lia.
        replace (Z.to_nat (k - 1) - length eo)%nat with O by lia. reflexivity.
      * eapply has_shape_eq; [exact Hy|f_equal; lia|reflexivity].
    + destruct (Hout j ltac:(lia)) as (t & Ht & Hs). exists t. split; [|exact Hs].
      rewrite nth_error_app1 by lia. exact Ht.
  - intros Hum j Hj. destruct (decide (j = k)) as [->|Hne].
    + destruct (Hp ltac:(lia) Hum) as (pr & -> & Hpr). exists pr. split.
      * rewrite nth_error_app2 by lia.
        replace (Z.to_nat (k - 1) - length po)%nat with O by lia. reflexivity.
      * eapply eq_rect; [exact Hpr|]. f_equal.
    + destruct (Hprov Hum j ltac:(lia)) as (pr & Ht & Hs). exists pr. split; [|exact Hs].
      rewrite nth_error_app1 by lia. exact Ht.
Qed.

Lemma decoder_step_ok (self : SphericalUNet) b eo po (x : Tensor T) (k : Z) :
  ups_at n ic d sf cm um (d - 1) (ups self) -> 1 <= k < d ->
  enc_inv b (d + 1) (x, eo, po) ->
  forall x1 : Tensor T,
  has_shape x1 b (filt ic sf (d - k + 1)) (number_of_ico_vertices (n - d + k)) ->
  exists y, decoder_step self (rev eo) (rev po) x1 k = ([EvUpBlock k], Ok y) /\
            has_shape y b (filt ic sf (d - (k + 1) + 1))
                      (number_of_ico_vertices (n - d + (k + 1))).
Proof using contracts args_ok.
  intros Hups Hk (_ & Heo & Hpo & Hout & Hprov) x1 Hx1. cbn [fst snd] in *.
  unfold decoder_step, getattr_up. rewrite (Hups k), decide_True, bind_ret_l by lia.
  destruct (Hout (d - k) ltac:(lia)) as (t & Ht & Hts).
  assert (Et : py_index (rev eo) k = Ok t).
  { apply py_index_ok; [lia|]. rewrite nth_error_rev.
    destruct (Nat.ltb_spec (Z.to_nat k) (length eo)) as [_|?]; [|lia].
    rewrite <- Ht. f_equal. lia. }
  assert (Ep : exists mpi, py_index (rev po) (k - 1) = Ok mpi /\
            (um = "maxpad" ->
             exists pr, mpi = Some pr /\ prov_ok pr b (filt ic sf (d - k)) (n - (d - k)))).
  { destruct (nth_error po (Z.to_nat (d - k))) as [mpi|] eqn:Em.
    2:{ apply nth_error_None in Em. lia. }
    exists mpi. split.
    - apply py_index_ok; [lia|]. rewrite nth_error_rev.
      destruct (Nat.ltb_spec (Z.to_nat (k - 1)) (length po)) as [_|?]; [|lia].
      rewrite <- Em. f_equal. lia.
    - intros Hum. destruct (Hprov Hum (d - k + 1) ltac:(lia)) as (pr & Hpr & Hok).
      replace (d - k + 1 - 1) with (d - k) in * by lia.
      rewrite Em in Hpr. injection Hpr as ->. by exists pr. }
  destruct Ep as (mpi & Ep & Hmpi).
  rewrite Et, bind_lift_ok, Ep, bind_lift_ok.
  destruct (up_block_forward_ok k b x1 t mpi) as (y & Ey & Hy).
  { lia. }
  { eapply has_shape_eq; [exact Hx1|reflexivity|f_equal; lia]. }
  { eapply has_shape_eq; [exact Hts|reflexivity|f_equal; lia]. }
  { exact Hmpi. }
  exists y. split; [unfold call; by rewrite Ey|].
  eapply has_shape_eq; [exact Hy|f_equal; lia|f_equal; lia].
Qed.

Lemma vertexwise_linear_shape (l : Linear T) (x : Tensor T) b c v :
  wf_linear l -> has_shape x b c v ->
  has_shape (vertexwise_linear l x) b (out_features l) v.
Proof.
  intros (_ & Ho & _) (_ & Hb & _ & Hv). unfold has_shape, wf_tensor, vertexwise_linear.
  cbn [size0 size1 size2 elems]. rewrite length_map, length_seq.
  repeat split; try (assumption || lia).
  apply Forall_map, Forall_forall. intros s _. split.
  - by rewrite length_map, length_seq.
  - apply Forall_map, Forall_forall. intros o _. by rewrite length_map, length_seq.
Qed.

Lemma forward_body_ok (self : SphericalUNet) b (x : Tensor T) :
  model_at n ic oc d sf cm um self ->
  has_shape x b ic (number_of_ico_vertices n) ->
  exists y, forward_body self x =
            (flat_map (fun k => [EvDownBlock k]) (range 1 (d + 1)) ++
             flat_map (fun k => [EvUpBlock k]) (range 1 d) ++ [EvLinear], Ok y) /\
            has_shape y b oc (number_of_ico_vertices n).
Proof using contracts args_ok.
  intros Hm Hx.
  destruct Hm as (Hn & Hdepth & _ & _ & Hv & _ & Hout & _ & Hfilts & _ & Hdowns & Hups & Hfc).
  destruct args_ok as (Hd & Hsf & Hoc & _).
  destruct (nn_Linear_ok sf oc Hsf Hoc) as (l & El & Hwfl & Hin & Hol).
  rewrite Hfc in El. injection El as <-.
  unfold forward_body. rewrite Hdepth.
  destruct (foldM_range (encoder_step self) (enc_inv b) (fun k => [EvDownBlock k])
              1 (d + 1) (x, [], [])) as ([[x1 eo] po] & E1 & I1).
  { lia. }
  { unfold enc_inv. cbn [fst snd length].
    split; [eapply has_shape_eq; [exact Hx|reflexivity|f_equal; lia]|].
    repeat split; try lia; intros; lia. }
  { intros k st Hk. apply encoder_step_ok; [assumption|lia]. }
  rewrite (bind_ok _ _ _ _ E1). cbn beta iota.
  destruct (foldM_range (decoder_step self (rev eo) (rev po))
              (fun c y => has_shape y b (filt ic sf (d - c + 1))
                                    (number_of_ico_vertices (n - d + c)))
              (fun k => [EvUpBlock k]) 1 d x1) as (x2 & E2 & I2).
  { lia. }
  { destruct I1 as (I1 & _). cbn [fst] in I1.
    eapply has_shape_eq; [exact I1|f_equal; lia|f_equal; lia]. }
  { intros k y Hk Hy. eapply decoder_step_ok; eassumption. }
  rewrite (bind_ok _ _ _ _ E2).
  assert (Hx2 : has_shape x2 b sf (number_of_ico_vertices n)).
  { eapply has_shape_eq; [exact I2| |f_equal; lia].
    replace (d - d + 1) with 1 by lia. apply filt_1. }
  destruct Hx2 as (Hwf2 & Hb2 & Hc2 & Hv2).
  rewrite (fc_stage_pipeline self x2); try assumption.
  - eexists. split; [reflexivity|].
    eapply has_shape_eq;
      [apply (vertexwise_linear_shape _ _ b sf (number_of_ico_vertices n)); [assumption|]
      | by rewrite Hol | reflexivity].
    exact (conj Hwf2 (conj Hb2 (conj Hc2 Hv2))).
  - rewrite Hfilts, py_index_filts, filt_1 by lia. by rewrite Hin.
  - by rewrite Hol, Hout.
  - by rewrite Hin.
  - by rewrite Hv.
Qed.

End WithContracts.

(** C2.  Provided the layers honour their contracts, a model returned by
    [__init__] takes every well-formed input of shape
    (batch, in_channels, V), with V = [number_of_ico_vertices(in_order)], to
    a well-formed output of shape (batch, out_channels, V). *)
Theorem forward_output_shape
    (n ic oc d sf : Z) (cm um : string) (tr : list event) (self : SphericalUNet)
    (batch : nat) (x : Tensor T) :
  layer_contracts cm ->
  SphericalUNet_init n ic oc d sf cm um = (tr, Ok self) ->
  has_shape x batch ic (number_of_ico_vertices n) ->
  exists y, outcome (forward self x) = Ok y /\
            has_shape y batch oc (number_of_ico_vertices n).
Proof.
  intros Hc Hinit Hx.
  destruct (init_inv _ _ _ _ _ _ _ _ _ Hinit) as (Hargs & Hm & _).
  destruct (forward_body_ok n ic oc d sf cm um Hc Hargs self batch x Hm Hx) as (y & E & Hy).
  exists y. split; [|exact Hy].
  unfold forward, check_input.
  destruct Hm as (_ & _ & _ & _ & Hv & _). destruct Hx as (_ & _ & _ & Hx).
  rewrite decide_False by (rewrite Hv, Hx; auto).
  rewrite bind_ret_l, E. reflexivity.
Qed.

(** X10.  With layers that honour their contracts, [forward] on a well
    shaped input runs the down blocks 1..depth in that order, then the up
    blocks 1..depth-1 in that order, then the linear layer, each once. *)
Theorem forward_execution_order
    (n ic oc d sf : Z) (cm um : string) (tr : list event) (self : SphericalUNet)
    (batch : nat) (x : Tensor T) :
  layer_contracts cm ->
  SphericalUNet_init n ic oc d sf cm um = (tr, Ok self) ->
  has_shape x batch ic (number_of_ico_vertices n) ->
  trace (forward self x) =
  flat_map (fun k => [EvDownBlock k]) (range 1 (d + 1)) ++
  flat_map (fun k => [EvUpBlock k]) (range 1 d) ++ [EvLinear].
Proof.
  intros Hc Hinit Hx.
  destruct (init_inv _ _ _ _ _ _ _ _ _ Hinit) as (Hargs & Hm & _).
  destruct (forward_body_ok n ic oc d sf cm um Hc Hargs self batch x Hm Hx) as (y & E & _).
  unfold forward, check_input.
  destruct Hm as (_ & _ & _ & _ & Hv & _). destruct Hx as (_ & _ & _ & Hx).
  rewrite decide_False by (rewrite Hv, Hx; auto).
  rewrite bind_ret_l, E. reflexivity.
Qed.

(** X11.  A down block under the contracts.  With channel counts that are
    not negative the block is built.  The first block of the encoder does
    not pool, whatever pooling tables and mode it was given, and hands back
    no pooling indices; it keeps the order and changes the channels.  Any
    other block takes order [k + 1] to order [k] and hands back pooling
    indices when its mode is "max". *)
Theorem DownBlock_forward_shape
    (cm : string) (cl : ConvLayer) (i o k : Z) (mode : string) (dn di : option Arr)
    (b : nat) (x x' : Tensor T) :
  layer_contracts cm -> 1 <= k -> 0 <= o ->
  has_shape x b i (number_of_ico_vertices k) ->
  has_shape x' b i (number_of_ico_vertices (k + 1)) ->
  (exists blk y,
     DownBlock_init cl i o (conv_table cm k) dn di mode true = Ok blk /\
     DownBlock_forward blk x = Ok (y, None) /\
     has_shape y b o (number_of_ico_vertices k)) /\
  (exists blk y p,
     DownBlock_init cl i o (conv_table cm k)
       (Some (neighs_at (k + 1))) (Some (down_table (k + 1))) mode false = Ok blk /\
     DownBlock_forward blk x' = Ok (y, p) /\
     has_shape y b o (number_of_ico_vertices k) /\
     (mode = "max" -> exists pr, p = Some pr /\ prov_ok pr b i k)).
Proof.
  intros Hc Hk Ho Hx Hx'.
  assert (Hi : 0 <= i) by (destruct Hx as (_ & _ & <- & _); lia).
  rewrite !DownBlock_init_ok by assumption. unfold DownBlock_forward.
  cbn [negb]. split.
  - eexists. destruct (double_conv_ok cm Hc cl i o k b x Hk Ho Hx) as (y & E & Hy).
    exists y. split; [reflexivity|]. cbn [db_first db_pooling db_block negb].
    by rewrite E.
  - eexists. destruct (pool_ok cm Hc mode k b i x' Hk Hx') as (y1 & p & E1 & H1 & Hp).
    destruct (double_conv_ok cm Hc cl i o k b y1 Hk Ho H1) as (y & E & Hy).
    exists y, p. split; [reflexivity|]. cbn [db_first db_pooling db_block negb].
    by rewrite E1, E.
Qed.

(** X12.  An up block under the contracts: built for the step from order
    [k] to order [k + 1] with [in_ch] and [out_ch] channels, it takes a
    tensor of [in_ch] channels at order [k] and a skip connection of
    [in_ch - out_ch] channels at order [k + 1] to a tensor of [out_ch]
    channels at order [k + 1]; the pooling indices are needed in the mode
    "maxpad" only. *)
Theorem UpBlock_forward_shape
    (cm um : string) (cl : ConvLayer) (i o k : Z) (blk : UpBlock)
    (b : nat) (x1 x2 : Tensor T) (max_pool_indices : option Prov) :
  layer_contracts cm -> 1 <= k -> 0 <= o ->
  UpBlock_init cl i o (conv_table cm (k + 1)) (neighs_at (k + 1))
    (Some (up_table k)) (Some (down_table (k + 1))) um = Ok blk ->
  has_shape x1 b i (number_of_ico_vertices k) ->
  has_shape x2 b (i - o) (number_of_ico_vertices (k + 1)) ->
  (um = "maxpad" -> exists pr, max_pool_indices = Some pr /\ prov_ok pr b o k) ->
  exists y, UpBlock_forward blk x1 x2 max_pool_indices = Ok y /\
            has_shape y b o (number_of_ico_vertices (k + 1)).
Proof.
  intros Hc Hk Ho Hblk H1 H2 Hp.
  assert (Hum : up_mode_supported um).
  { destruct (decide (up_mode_supported um)) as [H|H]; [exact H|].
    rewrite UpBlock_init_invalid in Hblk by exact H. discriminate. }
  assert (Hi : 0 <= i) by (destruct H1 as (_ & _ & <- & _); lia).
  rewrite (UpBlock_init_ok um) in Hblk by assumption. injection Hblk as <-.
  unfold UpBlock_forward. cbn [ub_up_mode ub_up ub_double_conv].
  assert (Hup : exists y1,
    (if decide (um = "maxpad")
     then up_forward_indices
            (up_layer_of um i o (neighs_at (k + 1)) (Some (up_table k))
               (Some (down_table (k + 1)))) x1 max_pool_indices
     else up_forward
            (up_layer_of um i o (neighs_at (k + 1)) (Some (up_table k))
               (Some (down_table (k + 1)))) x1) = Ok y1 /\
    has_shape y1 b o (number_of_ico_vertices (k + 1))).
  { unfold up_layer_of. destruct Hum as [-> | [-> | [-> | ->]]]; cbn.
    - by apply (upsample_ok cm Hc).
    - by apply (fixindex_ok cm Hc).
    - destruct (Hp eq_refl) as (pr & -> & Hpr). by apply (maxindex_ok cm Hc).
    - by apply (upconv_ok cm Hc). }
  destruct Hup as (y1 & -> & Hy1).
  destruct (cat1_ok y1 x2 b _ _ _ Hy1 H2) as (y2 & -> & Hy2).
  apply (double_conv_ok cm Hc); [lia|assumption|].
  eapply has_shape_eq; [exact Hy2|lia|reflexivity].
Qed.

End ForwardShapes.

End UNet.

(** ** A concrete instance

    Stand-ins for the helpers and layers that keep only sizes: the vertices
    of an order are their number, an index table is its number of rows, and
    a layer returns the tensor of zeros of the shape its contract states.
    The model is the one of the docstring of [SphericalUNet]: order 2,
    2 input channels, 4 output channels, depth 2, 8 starting filters, and a
    batch of 10 inputs on the 162 vertices of the order-2 icosahedron. *)

Definition const_tensor {T} (b c v : nat) (a : T) : Tensor T :=
  mkTensor b c v (repeat (repeat (repeat a v) c) b).

Definition demo_vertices (k : Z) : Z := 10 * 4 ^ k + 2.
Definition demo_icosahedron (k : Z) : Z * unit := (demo_vertices k, tt).
Definition demo_neighbors (v : Z) (_ : unit) (_ : Z) (_ : bool) : Z := v.
Definition demo_neighbors_rec (v : Z) (_ : unit) (_ _ : Z) : Z * Z * Z := (v, v, v).
Definition demo_downsample (fine coarse : Z) : Z := coarse.
Definition demo_interpolate (coarse fine : Z) (_ : unit) : Z := fine.
Definition demo_asarray (m : Z) : Z := m.

Definition demo_conv (_ : ConvLayer) (i o : Z) (_ : @ConvNeighs Z) (x : Tensor Z)
    : result (Tensor Z) :=
  if Z.of_nat (size1 x) =? i then Ok (const_tensor (size0 x) (Z.to_nat o) (size2 x) 0)
  else Raise (RuntimeError "channels").
Definition demo_batchnorm (_ : Z) (x : Tensor Z) : result (Tensor Z) := Ok x.
Definition demo_leaky_relu (x : Tensor Z) : result (Tensor Z) := Ok x.
Definition demo_pool (p : @IcoPool Z) (x : Tensor Z) : result (Tensor Z * option unit) :=
  match pool_down_indices p with
  | Some rows =>
      Ok (const_tensor (size0 x) (size1 x) (Z.to_nat rows) 0,
          if decide (pool_mode p = "max") then Some tt else None)
  | None => Raise (RuntimeError "no down indices")
  end.
Definition demo_up (l : @UpLayer Z) (x : Tensor Z) : result (Tensor Z) :=
  match l with
  | IcoUpSample _ o (Some rows) | IcoFixIndexUpSample _ o (Some rows) =>
      Ok (const_tensor (size0 x) (Z.to_nat o) (Z.to_nat rows) 0)
  | IcoUpConv _ o rows _ => Ok (const_tensor (size0 x) (Z.to_nat o) (Z.to_nat rows) 0)
  | _ => Raise (RuntimeError "upsampling")
  end.
Definition demo_up_indices (l : @UpLayer Z) (x : Tensor Z) (p : option unit)
    : result (Tensor Z) :=
  match l, p with
  | IcoMaxIndexUpSample _ o rows _, Some _ =>
      Ok (const_tensor (size0 x) (Z.to_nat o) (Z.to_nat rows) 0)
  | _, _ => Raise (RuntimeError "max pooling indices")
  end.
Definition demo_weight (_ _ : nat) : Z := 1.
Definition demo_bias (_ : nat) : Z := 0.
Definition demo_prov_ok (_ : unit) (_ : nat) (_ _ : Z) : Prop := True.

Definition demo_init (n ic oc d sf : Z) (cm um : string) : M (@SphericalUNet Z unit Z Z) :=
  SphericalUNet_init demo_vertices demo_icosahedron demo_neighbors demo_neighbors_rec
    demo_downsample demo_interpolate demo_asarray demo_weight demo_bias
    n ic oc d sf cm um.

Definition demo_forward (self : @SphericalUNet Z unit Z Z) (x : Tensor Z) : M (Tensor Z) :=
  forward 0 Z.add Z.mul demo_conv demo_batchnorm demo_leaky_relu demo_pool demo_up
    demo_up_indices self x.

Definition demo_unet : @SphericalUNet Z unit Z Z :=
  match outcome (demo_init 2 2 4 2 8 "1ring" "interp") with
  | Ok self => self
  | Raise _ => mkSphericalUNet 0 0 "" 0 0 0 "" ∅ [] IcoDiNeConv ∅ ∅ (mkLinear 0 0 [] [])
  end.

Lemma demo_init_ok :
  demo_init 2 2 4 2 8 "1ring" "interp" =
  ([EvIcosahedron 1; EvNeighbors 1 1; EvIcosahedron 2; EvNeighbors 2 1;
    EvDownsample 2; EvInterpolate 1;
    EvNewDownBlock 0; EvNewDownBlock 1; EvNewUpBlock 1; EvNewLinear], Ok demo_unet).
Proof. vm_compute. reflexivity. Qed.

Lemma const_tensor_shape {T} (b c v : nat) (a : T) :
  has_shape (const_tensor b c v a) b (Z.of_nat c) (Z.of_nat v).
Proof.
  unfold has_shape, wf_tensor, wf_rows, const_tensor. cbn [size0 size1 size2 elems].
  rewrite repeat_length. repeat split.
  apply Forall_forall. intros m Hm%list_elem_of_In%repeat_spec. subst m.
  rewrite repeat_length. split; [reflexivity|].
  apply Forall_forall. intros r Hr%list_elem_of_In%repeat_spec. subst r.
  apply repeat_length.
Qed.

Lemma demo_vertices_nonneg (k : Z) : 0 <= demo_vertices k.
Proof. unfold demo_vertices. pose proof (Z.pow_nonneg 4 k). lia. Qed.

Lemma const_tensor_shape_Z (b : nat) (c v : Z) :
  0 <= c -> 0 <= v -> has_shape (const_tensor b (Z.to_nat c) (Z.to_nat v) 0) b c v.
Proof.
  intros Hc Hv. pose proof (const_tensor_shape b (Z.to_nat c) (Z.to_nat v) 0) as H.
  by rewrite !Z2Nat.id in H.
Qed.

(** The stand-in layers honour the contracts. *)
Lemma demo_contracts (cm : string) :
  layer_contracts demo_vertices demo_icosahedron demo_neighbors demo_neighbors_rec
    demo_downsample demo_interpolate demo_asarray demo_conv demo_batchnorm
    demo_leaky_relu demo_pool demo_up demo_up_indices demo_prov_ok cm.
Proof.
  constructor.
  - intros cl i o k b x Hk Ho (Hwf & Hb & Hc & Hv). unfold demo_conv.
    rewrite Hc, Z.eqb_refl. eexists. split; [reflexivity|].
    rewrite <- Hb. eapply has_shape_eq; [apply const_tensor_shape|lia|lia].
  - intros c b v x Hx. by exists x.
  - intros b c v x Hx. by exists x.
  - intros mode k b c x Hk (Hwf & Hb & Hc & Hv). unfold demo_pool.
    cbn [pool_down_indices pool_mode]. do 2 eexists. split; [reflexivity|]. split.
    + unfold down_table, verts_at, demo_downsample, demo_icosahedron. cbn [fst].
      replace (k + 1 - 1) with k by lia. pose proof (demo_vertices_nonneg k).
      rewrite <- Hb. eapply has_shape_eq; [apply const_tensor_shape|lia|lia].
    + intros ->. exists tt. by rewrite decide_True.
  - intros i o k b x Hk Ho (Hwf & Hb & Hc & Hv). unfold demo_up.
    eexists. split; [reflexivity|]. rewrite <- Hb.
    apply const_tensor_shape_Z; [lia|apply demo_vertices_nonneg].
  - intros i o k b x Hk Ho (Hwf & Hb & Hc & Hv). unfold demo_up.
    eexists. split; [reflexivity|]. rewrite <- Hb.
    apply const_tensor_shape_Z; [lia|apply demo_vertices_nonneg].
  - intros i o k b x Hk Ho (Hwf & Hb & Hc & Hv). unfold demo_up.
    eexists. split; [reflexivity|]. rewrite <- Hb.
    apply const_tensor_shape_Z; [lia|apply demo_vertices_nonneg].
  - intros i o k b x pr Hk Ho (Hwf & Hb & Hc & Hv) _. unfold demo_up_indices.
    eexists. split; [reflexivity|]. rewrite <- Hb.
    apply const_tensor_shape_Z; [lia|apply demo_vertices_nonneg].
Qed.

(** *** The statements at the concrete instance *)

Lemma forward_vertex_mismatch_raises_witness :
  demo_forward demo_unet (const_tensor 10 2 42 0) =
  ([], Raise (RuntimeError ("Input data must be projected on an " +:+ pretty 2
                              +:+ " order icosahedron."))).
Proof.
  apply (forward_vertex_mismatch_raises 0 Z.add Z.mul demo_vertices demo_icosahedron
           demo_neighbors demo_neighbors_rec demo_downsample demo_interpolate demo_asarray
           demo_conv demo_batchnorm demo_leaky_relu demo_pool demo_up demo_up_indices
           demo_weight demo_bias 2 2 4 2 8 "1ring" "interp" _ demo_unet
           (const_tensor 10 2 42 0) demo_init_ok).
  vm_compute. discriminate.
Defined.

Lemma forward_check_ignores_channels_witness :
  check_input demo_unet (const_tensor 10 3 162 0) = ([], Ok tt) /\
  demo_forward demo_unet (const_tensor 10 3 162 0) =
  forward_body 0 Z.add Z.mul demo_conv demo_batchnorm demo_leaky_relu demo_pool demo_up
    demo_up_indices demo_unet (const_tensor 10 3 162 0) /\
  exists rest,
    trace (demo_forward demo_unet (const_tensor 10 3 162 0)) = EvDownBlock 1 :: rest.
Proof.
  apply (forward_check_ignores_channels 0 Z.add Z.mul demo_vertices demo_icosahedron
           demo_neighbors demo_neighbors_rec demo_downsample demo_interpolate demo_asarray
           demo_conv demo_batchnorm demo_leaky_relu demo_pool demo_up demo_up_indices
           demo_weight demo_bias 2 2 4 2 8 "1ring" "interp" _ demo_unet
           (const_tensor 10 3 162 0) demo_init_ok).
  - vm_compute. reflexivity.
  - vm_compute. discriminate.
Defined.

Lemma forward_output_shape_witness :
  exists y, outcome (demo_forward demo_unet (const_tensor 10 2 162 0)) = Ok y /\
            has_shape y 10 4 162.
Proof.
  apply (forward_output_shape 0 Z.add Z.mul demo_vertices demo_icosahedron
           demo_neighbors demo_neighbors_rec demo_downsample demo_interpolate demo_asarray
           demo_conv demo_batchnorm demo_leaky_relu demo_pool demo_up demo_up_indices
           demo_weight demo_bias demo_prov_ok 2 2 4 2 8 "1ring" "interp" _ demo_unet
           10%nat (const_tensor 10 2 162 0) (demo_contracts "1ring") demo_init_ok).
  exact (const_tensor_shape 10 2 162 0).
Defined.

Lemma fc_stage_is_vertexwise_witness :
  fc_stage 0 Z.add Z.mul demo_unet (const_tensor 10 8 162 0) =
  ([EvLinear], Ok (vertexwise_linear 0 Z.add Z.mul (fc demo_unet) (const_tensor 10 8 162 0))).
Proof.
  apply (fc_stage_is_vertexwise 0 Z.add Z.mul demo_vertices demo_icosahedron
           demo_neighbors demo_neighbors_rec demo_downsample demo_interpolate demo_asarray
           demo_weight demo_bias 2 2 4 2 8 "1ring" "interp" _ demo_unet
           (const_tensor 10 8 162 0) demo_init_ok).
  - apply (const_tensor_shape 10 8 162 0).
  - vm_compute. reflexivity.
  - vm_compute. reflexivity.
Defined.

Lemma hierarchy_records_witness :
  exists hier : gmap Z (@Ico Z unit Z),
    outcome (build_hierarchy demo_icosahedron demo_neighbors demo_neighbors_rec
               demo_downsample demo_interpolate demo_asarray 2 "1ring") = Ok hier /\
    size hier = 2%nat /\
    (forall k, is_Some (hier !! k) <-> 1 <= k <= 2) /\
    (forall k r, hier !! k = Some r ->
       order r = k /\
       (is_Some (down_indices r) <-> 2 <= k <= 2) /\
       (is_Some (up_indices r) <-> 1 <= k <= 2 - 1)) /\
    (forall ic oc d sf um tr self,
       SphericalUNet_init demo_vertices demo_icosahedron demo_neighbors demo_neighbors_rec
         demo_downsample demo_interpolate demo_asarray demo_weight demo_bias
         2 ic oc d sf "1ring" um = (tr, Ok self) -> ico self = hier).
Proof.
  apply (hierarchy_records demo_vertices demo_icosahedron demo_neighbors demo_neighbors_rec
           demo_downsample demo_interpolate demo_asarray demo_weight demo_bias 2 "1ring").
  - lia.
  - left. reflexivity.
Defined.

Lemma init_unsupported_modes_witness :
  demo_init 2 2 4 2 8 "3ring" "interp" =
  ([EvIcosahedron 1; EvNeighbors 1 1], Raise (ValueError "Unexptected convolution mode.")) /\
  demo_init 2 2 4 2 8 "1ring" "linear" =
  ([EvIcosahedron 1; EvNeighbors 1 1; EvIcosahedron 2; EvNeighbors 2 1;
    EvDownsample 2; EvInterpolate 1; EvNewDownBlock 0; EvNewDownBlock 1; EvNewUpBlock 1],
   Raise (ValueError "Invalid upsampling method.")).
Proof.
  pose proof (init_unsupported_modes demo_vertices demo_icosahedron demo_neighbors
                demo_neighbors_rec demo_downsample demo_interpolate demo_asarray
                demo_weight demo_bias 2 2 4 2 8) as H.
  split.
  - apply (proj1 (H "3ring" "interp")); [lia|].
    intros [?|[?|?]]; discriminate.
  - apply (proj2 (H "1ring" "linear")); [lia|by left| |lia|lia].
    intros [?|[?|[?|?]]]; discriminate.
Defined.

(** C3 as the specification words it fails on the code.  With depth 1 no
    [UpBlock] is built, and an unsupported upsampling mode is accepted: a
    model is returned.  With [in_order = 0] the first loop is empty, and an
    unsupported convolution mode ends in [KeyError], not [ValueError].  And
    the rejection of an upsampling mode (depth 2) comes after every geometric
    helper has been called. *)
Lemma init_unsupported_modes_not_always_rejected :
  ~ up_mode_supported "linear" /\ ~ conv_mode_supported "3ring" /\
  (exists self,
     demo_init 1 2 4 1 8 "1ring" "linear" =
     ([EvIcosahedron 1; EvNeighbors 1 1; EvNewDownBlock 0; EvNewLinear], Ok self)) /\
  demo_init 0 2 4 1 8 "3ring" "interp" = ([], Raise (KeyError 0)) /\
  demo_init 2 2 4 2 8 "1ring" "linear" =
  ([EvIcosahedron 1; EvNeighbors 1 1; EvIcosahedron 2; EvNeighbors 2 1;
    EvDownsample 2; EvInterpolate 1; EvNewDownBlock 0; EvNewDownBlock 1; EvNewUpBlock 1],
   Raise (ValueError "Invalid upsampling method.")).
Proof.
  split; [intros [?|[?|[?|?]]]; discriminate|].
  split; [intros [?|[?|?]]; discriminate|].
  split; [eexists; vm_compute; reflexivity|].
  split; vm_compute; reflexivity.
Qed.

(** *** The further statements at the concrete instance *)

Lemma init_depth_exceeds_order_witness :
  demo_init 1 2 4 3 8 "1ring" "interp" =
  ([EvIcosahedron 1; EvNeighbors 1 1; EvNewDownBlock 0], Raise (KeyError 0)).
Proof.
  apply (init_depth_exceeds_order demo_vertices demo_icosahedron demo_neighbors
           demo_neighbors_rec demo_downsample demo_interpolate demo_asarray
           demo_weight demo_bias 1 2 4 3 8 "1ring" "interp").
  - lia.
  - left. reflexivity.
  - lia.
  - lia.
Defined.

Lemma init_negative_channels_witness :
  demo_init 2 (-2) 4 2 8 "1ring" "interp" =
  ([EvIcosahedron 1; EvNeighbors 1 1; EvIcosahedron 2; EvNeighbors 2 1;
    EvDownsample 2; EvInterpolate 1; EvNewDownBlock 0],
   Raise (RuntimeError "Trying to create tensor with negative dimension")).
Proof.
  apply (init_negative_channels demo_vertices demo_icosahedron demo_neighbors
           demo_neighbors_rec demo_downsample demo_interpolate demo_asarray
           demo_weight demo_bias 2 (-2) 4 2 8 "1ring" "interp").
  - lia.
  - lia.
  - left. reflexivity.
  - left. lia.
Defined.

Lemma init_depth_not_positive_witness :
  demo_init 2 2 4 0 8 "1ring" "interp" =
  ([EvIcosahedron 1; EvNeighbors 1 1; EvIcosahedron 2; EvNeighbors 2 1;
    EvDownsample 2; EvInterpolate 1], Raise (IndexError "list index out of range")).
Proof.
  apply (init_depth_not_positive demo_vertices demo_icosahedron demo_neighbors
           demo_neighbors_rec demo_downsample demo_interpolate demo_asarray
           demo_weight demo_bias 2 2 4 0 8 "1ring" "interp").
  - lia.
  - right. left. reflexivity.
Defined.

Lemma init_filts_schedule_witness :
  length (filts demo_unet) = 3%nat /\
  py_index (filts demo_unet) 0 = Ok 2 /\
  py_index (filts demo_unet) 1 = Ok 8 /\
  (forall i, 1 <= i < 2 ->
     exists c, py_index (filts demo_unet) i = Ok c /\
               py_index (filts demo_unet) (i + 1) = Ok (2 * c)).
Proof.
  exact (init_filts_schedule demo_vertices demo_icosahedron demo_neighbors
           demo_neighbors_rec demo_downsample demo_interpolate demo_asarray
           demo_weight demo_bias 2 2 4 2 8 "1ring" "interp" _ demo_unet demo_init_ok).
Defined.

Lemma init_block_inventory_witness :
  size (downs demo_unet) = 2%nat /\
  size (ups demo_unet) = 1%nat /\
  (forall k blk, downs demo_unet !! k = Some blk ->
     1 <= k <= 2 /\
     db_first blk = bool_decide (k = 1) /\
     db_pooling blk =
       if decide (k = 1) then None
       else Some (mkIcoPool
                    (Some (neighs_at demo_icosahedron demo_neighbors demo_asarray (2 - k + 2)))
                    (Some (down_table demo_icosahedron demo_downsample (2 - k + 2)))
                    (if decide ("interp" = "maxpad") then "max" else "mean"))) /\
  (forall k blk, ups demo_unet !! k = Some blk -> 1 <= k <= 2 - 1 /\ ub_up_mode blk = "interp").
Proof.
  exact (init_block_inventory demo_vertices demo_icosahedron demo_neighbors
           demo_neighbors_rec demo_downsample demo_interpolate demo_asarray
           demo_weight demo_bias 2 2 4 2 8 "1ring" "interp" _ demo_unet demo_init_ok).
Defined.

Lemma ring1_shares_the_pooling_table_witness :
  (forall k r, ico demo_unet !! k = Some r ->
     conv_neighbor_indices r = CNArray (neighbor_indices r)) /\
  (forall ev,
     In ev [EvIcosahedron 1; EvNeighbors 1 1; EvIcosahedron 2; EvNeighbors 2 1;
            EvDownsample 2; EvInterpolate 1;
            EvNewDownBlock 0; EvNewDownBlock 1; EvNewUpBlock 1; EvNewLinear] ->
     (forall k, ev <> EvNeighbors k 2) /\ (forall k, ev <> EvNeighborsRec k)).
Proof.
  exact (ring1_shares_the_pooling_table demo_vertices demo_icosahedron demo_neighbors
           demo_neighbors_rec demo_downsample demo_interpolate demo_asarray
           demo_weight demo_bias 2 2 4 2 8 "interp" _ demo_unet demo_init_ok).
Defined.

Lemma forward_first_block_error_witness :
  demo_forward demo_unet (const_tensor 10 3 162 0) =
  ([EvDownBlock 1], Raise (RuntimeError "channels")).
Proof.
  eapply (forward_first_block_error 0 Z.add Z.mul demo_vertices demo_icosahedron
            demo_neighbors demo_neighbors_rec demo_downsample demo_interpolate demo_asarray
            demo_conv demo_batchnorm demo_leaky_relu demo_pool demo_up demo_up_indices
            demo_weight demo_bias 2 2 4 2 8 "1ring" "interp" _ demo_unet
            (const_tensor 10 3 162 0) _ _ demo_init_ok).
  - vm_compute. reflexivity.
  - vm_compute. reflexivity.
  - vm_compute. reflexivity.
Defined.

Lemma fc_stage_channel_mismatch_witness :
  fc_stage 0 Z.add Z.mul demo_unet (const_tensor 10 3 162 0) =
  ([], Raise (RuntimeError "shape is invalid for input size")).
Proof.
  apply (fc_stage_channel_mismatch 0 Z.add Z.mul demo_vertices demo_icosahedron
           demo_neighbors demo_neighbors_rec demo_downsample demo_interpolate demo_asarray
           demo_weight demo_bias 2 2 4 2 8 "1ring" "interp" _ demo_unet
           (const_tensor 10 3 162 0) demo_init_ok).
  - cbn. lia.
  - cbn. lia.
  - vm_compute. reflexivity.
  - vm_compute. discriminate.
Defined.

(** Two inputs that agree on vertex 5 of sample 1 only. *)
Definition demo_marked (a : Z) : Tensor Z :=
  mkTensor 2 8 162
    [ repeat (repeat a 162) 8;
      repeat (repeat a 5 ++ [7] ++ repeat a 156) 8 ].

Lemma demo_marked_wf (a : Z) : wf_tensor (demo_marked a).
Proof.
  split; [reflexivity|]. cbn [elems demo_marked size1 size2].
  repeat constructor; try apply repeat_length;
    apply Forall_forall; intros r Hr%list_elem_of_In%repeat_spec; subst r;
    rewrite ?length_app, ?repeat_length; reflexivity.
Qed.

Lemma fc_stage_is_local_witness :
  exists y y',
    outcome (fc_stage 0 Z.add Z.mul demo_unet (demo_marked 0)) = Ok y /\
    outcome (fc_stage 0 Z.add Z.mul demo_unet (demo_marked 1)) = Ok y' /\
    forall o, (o < Z.to_nat 4)%nat -> entry 0 y 1 o 5 = entry 0 y' 1 o 5.
Proof.
  apply (fc_stage_is_local 0 Z.add Z.mul demo_vertices demo_icosahedron
           demo_neighbors demo_neighbors_rec demo_downsample demo_interpolate demo_asarray
           demo_weight demo_bias 2 2 4 2 8 "1ring" "interp" _ demo_unet
           (demo_marked 0) (demo_marked 1) 1%nat 5%nat demo_init_ok).
  - apply demo_marked_wf.
  - apply demo_marked_wf.
  - reflexivity.
  - reflexivity.
  - reflexivity.
  - reflexivity.
  - vm_compute. reflexivity.
  - cbn. lia.
  - cbn. lia.
  - vm_compute. reflexivity.
Defined.

Lemma forward_execution_order_witness :
  trace (demo_forward demo_unet (const_tensor 10 2 162 0)) =
  [EvDownBlock 1; EvDownBlock 2; EvUpBlock 1; EvLinear].
Proof.
  apply (forward_execution_order 0 Z.add Z.mul demo_vertices demo_icosahedron
           demo_neighbors demo_neighbors_rec demo_downsample demo_interpolate demo_asarray
           demo_conv demo_batchnorm demo_leaky_relu demo_pool demo_up demo_up_indices
           demo_weight demo_bias demo_prov_ok 2 2 4 2 8 "1ring" "interp" _ demo_unet
           10%nat (const_tensor 10 2 162 0) (demo_contracts "1ring") demo_init_ok).
  exact (const_tensor_shape 10 2 162 0).
Defined.

Lemma DownBlock_forward_shape_witness :
  (exists blk y,
     DownBlock_init IcoDiNeConv 2 8
       (conv_table demo_icosahedron demo_neighbors demo_neighbors_rec demo_asarray "1ring" 1)
       None None "max" true = Ok blk /\
     DownBlock_forward demo_conv demo_batchnorm demo_leaky_relu demo_pool blk
       (const_tensor 10 2 42 0) = Ok (y, None) /\
     has_shape y 10 8 (demo_vertices 1)) /\
  (exists blk y p,
     DownBlock_init IcoDiNeConv 2 8
       (conv_table demo_icosahedron demo_neighbors demo_neighbors_rec demo_asarray "1ring" 1)
       (Some (neighs_at demo_icosahedron demo_neighbors demo_asarray (1 + 1)))
       (Some (down_table demo_icosahedron demo_downsample (1 + 1))) "max" false = Ok blk /\
     DownBlock_forward demo_conv demo_batchnorm demo_leaky_relu demo_pool blk
       (const_tensor 10 2 162 0) = Ok (y, p) /\
     has_shape y 10 8 (demo_vertices 1) /\
     ("max" = "max" -> exists pr, p = Some pr /\ demo_prov_ok pr 10 2 1)).
Proof.
  apply (DownBlock_forward_shape demo_vertices demo_icosahedron demo_neighbors
           demo_neighbors_rec demo_downsample demo_interpolate demo_asarray
           demo_conv demo_batchnorm demo_leaky_relu demo_pool demo_up demo_up_indices
           demo_prov_ok "1ring" IcoDiNeConv 2 8 1 "max" None None 10%nat
           (const_tensor 10 2 42 0) (const_tensor 10 2 162 0) (demo_contracts "1ring")).
  - lia.
  - lia.
  - exact (const_tensor_shape 10 2 42 0).
  - exact (const_tensor_shape 10 2 162 0).
Defined.

Lemma UpBlock_forward_shape_witness :
  exists blk,
    UpBlock_init IcoDiNeConv 16 8
      (conv_table demo_icosahedron demo_neighbors demo_neighbors_rec demo_asarray "1ring" (1 + 1))
      (neighs_at demo_icosahedron demo_neighbors demo_asarray (1 + 1))
      (Some (up_table demo_icosahedron demo_interpolate demo_asarray 1))
      (Some (down_table demo_icosahedron demo_downsample (1 + 1))) "maxpad" = Ok blk /\
    exists y,
      UpBlock_forward demo_conv demo_batchnorm demo_leaky_relu demo_up demo_up_indices
        blk (const_tensor 10 16 42 0) (const_tensor 10 8 162 0) (Some tt) = Ok y /\
      has_shape y 10 8 (demo_vertices (1 + 1)).
Proof.
  eexists. split; [reflexivity|].
  eapply (UpBlock_forward_shape demo_vertices demo_icosahedron demo_neighbors
            demo_neighbors_rec demo_downsample demo_interpolate demo_asarray
            demo_conv demo_batchnorm demo_leaky_relu demo_pool demo_up demo_up_indices
            demo_prov_ok "1ring" "maxpad" IcoDiNeConv 16 8 1 _ 10%nat
            (const_tensor 10 16 42 0) (const_tensor 10 8 162 0) (Some tt)
            (demo_contracts "1ring")).
  - lia.
  - lia.
  - reflexivity.
  - exact (const_tensor_shape 10 16 42 0).
  - exact (const_tensor_shape 10 8 162 0).
  - intros _. exists tt. split; [reflexivity|exact I].
Defined.

(** ** The augmentations ([surfify/augmentation/base.py])

    Textures are arrays of floats; a float is modelled by the number it
    denotes and arithmetic is exact: rationals where the code only stores,
    compares and adds, reals for the Gaussian kernel.  Arrays live in a
    store and are passed by reference, as numpy arrays are. *)

#[global] Instance result_ret : MRet result := @Ok.
#[global] Instance result_bind : MBind result :=
  fun A B (k : A -> result B) (m : result A) =>
    match m with
    | Ok a => k a
    | Raise e => Raise e
    end.

(** *** [np.random] *)

(** The generator: the integers and the standard normal samples it is yet
    to produce.  Every outcome of a draw is the outcome for some generator. *)
Record Rng : Type := mkRng {
  rng_ints : list Z;
  rng_normals : list Q
}.

(** [np.random.randint(low, high)]: an integer of [low, high). *)
Definition randint (g : Rng) (low high : Z) : result (Z * Rng) :=
  if low <? high then
    match rng_ints g with
    | z :: rest => Ok (low + z mod (high - low), mkRng rest (rng_normals g))
    | [] => Ok (low, g)
    end
  else Raise (ValueError "low >= high").

(** [np.random.normal(loc, scale, size)] *)
Definition normal (g : Rng) (loc scale : Q) (size : nat) : result (list Q * Rng) :=
  if Qle_bool 0 scale then
    Ok (map (fun z => (loc + scale * z)%Q) (firstn size (rng_normals g ++ repeat 0%Q size)),
        mkRng (rng_ints g) (skipn size (rng_normals g)))
  else Raise (ValueError "scale < 0").

(** *** Arrays by reference *)

(** Position of index [i] in an array of length [n]; a negative index counts
    from the end. *)
Definition norm_index (n : nat) (i : Z) : option nat :=
  if (0 <=? i) && (i <? Z.of_nat n) then Some (Z.to_nat i)
  else if (- Z.of_nat n <=? i) && (i <? 0) then Some (Z.to_nat (i + Z.of_nat n))
  else None.

(** [data[indices] = value] on the contents of an array. *)
Fixpoint setitem (data : list Q) (indices : list Z) (value : Q) : result (list Q) :=
  match indices with
  | [] => Ok data
  | i :: rest =>
      match norm_index (length data) i with
      | Some j => setitem (<[j := value]> data) rest value
      | None => Raise (IndexError "index is out of bounds")
      end
  end.

Definition read_array (h : gmap positive (list Q)) (ref : positive) : result (list Q) :=
  match h !! ref with
  | Some data => Ok data
  | None => Raise (NameError "no such array")
  end.

Section Augmentations.

(** Arrays of shape (N, 3) and (M, 3). *)
Definition Vertices : Type := list (Q * Q * Q).
Definition Triangles : Type := list (Z * Z * Z).

(** The neighbours of each vertex, one row per vertex in the order of the
    vertex indices (the values of the dictionary of [surfify.utils.neighbors]). *)
Definition Neighs : Type := list (list Z).

(** The helpers of [surfify.utils] ([depth = None]: the default depth). *)
Variable neighbors : Vertices -> Triangles -> option Z -> bool -> Neighs.
Variable find_neighbors : Z -> Z -> Neighs -> list Z.

(** The convolution of [surfify.nn]: [IcoDiNeConv(in_feats, out_feats,
    neigh_indices, bias)] builds a layer or raises, and a layer is applied
    with the weights it has been given. *)
Context {DiNeConv : Type}.
Variable IcoDiNeConv_init : Z -> Z -> Neighs -> bool -> result DiNeConv.
Variable IcoDiNeConv_forward : DiNeConv -> list R -> list R -> list R.

(** *** SurfCutOut *)

Record SurfCutOut : Type := mkSurfCutOut {
  co_vertices : Vertices;
  co_triangles : Triangles;
  co_neighs : Neighs;
  co_patch_size : Z;
  co_n_patches : Z;
  co_sigma : Z;
  co_replacement_value : Q
}.

Definition SurfCutOut_init (vertices : Vertices) (triangles : Triangles)
    (neighs : option Neighs) (patch_size n_patches sigma : Z) (replacement_value : Q)
    : SurfCutOut :=
  mkSurfCutOut vertices triangles
    (match neighs with
     | None => neighbors vertices triangles None true
     | Some given => given
     end)
    patch_size n_patches sigma replacement_value.

(** The two draws of one iteration: the vertex and the size. *)
Definition cutout_draw (self : SurfCutOut) (g : Rng) : result (Z * Z * Rng) :=
  '(random_node, g) ← randint g 0 (Z.of_nat (length (co_vertices self)));
  '(random_size, g) ← randint g (co_patch_size self - co_sigma self)
                         (co_patch_size self + co_sigma self + 1);
  Ok (random_node, random_size, g).

(** One iteration of the loop of [run] on the array at [ref]. *)
Definition cutout_patch (self : SurfCutOut) (ref : positive)
    (st : Rng * gmap positive (list Q)) : result (Rng * gmap positive (list Q)) :=
  '(random_node, random_size, g) ← cutout_draw self (fst st);
  let patch_indices := find_neighbors random_node random_size (co_neighs self) in
  data ← read_array (snd st) ref;
  data' ← setitem data patch_indices (co_replacement_value self);
  Ok (g, <[ref := data']> (snd st)).

Fixpoint cutout_loop (self : SurfCutOut) (ref : positive) (k : nat)
    (st : Rng * gmap positive (list Q)) : result (Rng * gmap positive (list Q)) :=
  match k with
  | O => Ok st
  | S k' => st' ← cutout_patch self ref st; cutout_loop self ref k' st'
  end.

(** [run(data)]: the loop runs [n_patches] times and the reference it was
    given is returned. *)
Definition SurfCutOut_run (self : SurfCutOut) (ref : positive)
    (st : Rng * gmap positive (list Q)) : result (positive * Rng * gmap positive (list Q)) :=
  '(g, h) ← cutout_loop self ref (Z.to_nat (co_n_patches self)) st;
  Ok (ref, g, h).

(** *** SurfNoise *)

Record SurfNoise : Type := mkSurfNoise { sn_sigma : Q }.

Definition SurfNoise_init (sigma : Q) : SurfNoise := mkSurfNoise sigma.

(** [data += np.random.normal(0, self.sigma, len(data))] *)
Definition SurfNoise_run (self : SurfNoise) (ref : positive)
    (st : Rng * gmap positive (list Q)) : result (positive * Rng * gmap positive (list Q)) :=
  data ← read_array (snd st) ref;
  '(noise, g) ← normal (fst st) 0 (sn_sigma self) (length data);
  Ok (ref, g, <[ref := zip_with Qplus data noise]> (snd st)).

(** *** SurfBlur *)

(** [int(x)]: towards zero. *)
Definition py_int (x : Q) : Z := Z.quot (Qnum x) (Z.pos (Qden x)).

Record SurfBlur : Type := mkSurfBlur {
  sb_vertices : Vertices;
  sb_triangles : Triangles;
  sb_sigma : Q;
  sb_neighs : Neighs;
  sb_positions : list Z;
  sb_conv : DiNeConv
}.

(** [np.asarray(list(neighs.values()))]: the rows become the rows of one
    array, which they cannot when their lengths differ. *)
Definition np_asarray (rows : Neighs) : result Neighs :=
  match rows with
  | [] => Ok []
  | row0 :: rest =>
      if forallb (fun row => Nat.eqb (length row) (length row0)) rest then Ok rows
      else Raise (ValueError "inhomogeneous shape")
  end.

Definition blur_depth (sigma : Q) : Z := Z.max 1 (py_int (2 * sigma + (1 # 2))%Q).

(** Lines 165-166: 0 for the centre, then each ring of 1..depth repeated
    [6 * ring] times. *)
Definition blur_positions (depth : Z) : list Z :=
  [0] ++ flat_map (fun ring => repeat ring (Z.to_nat (6 * ring))) (range 1 (depth + 1)).

Definition SurfBlur_init (vertices : Vertices) (triangles : Triangles) (sigma : Q)
    (neighs : option Neighs) : result SurfBlur :=
  let depth := blur_depth sigma in
  let neighs := match neighs with
                | None => neighbors vertices triangles (Some depth) true
                | Some given => given
                end in
  neighs ← np_asarray neighs;
  let positions := blur_positions depth in
  row0 ← py_index neighs 0;
  if Nat.eqb (length positions) (length row0) then
    conv ← IcoDiNeConv_init 1 1 neighs false;
    Ok (mkSurfBlur vertices triangles sigma neighs positions conv)
  else Raise AssertionError.

(** The unnormalised weight of a slot at ring distance [r], as the real
    number the expression denotes: the code computes it in floating point,
    where it is rounded and, for a small sigma, underflows to 0.  What is
    stated of the weights is stated in exact arithmetic. *)
Definition gaussian_weight (sigma : Q) (r : Z) : R :=
  exp (Q2R (- (1 # 2) * (inject_Z r / sigma) ^ 2)%Q).

Definition Rsum (l : list R) : R := fold_right Rplus 0%R l.

(** Lines 183-184.  A weight is [None] when it is not a number.  With
    [sigma = 0] numpy divides the ring distances by zero: nan at the centre
    (0/0) and inf on the rings, so the kernel is nan at the centre, its sum
    is nan and every normalised weight is nan. *)
Definition gaussian_kernel (self : SurfBlur) : list (option R) :=
  if Qeq_bool (sb_sigma self) 0%Q then map (fun _ => None) (sb_positions self)
  else
    let kernel := map (gaussian_weight (sb_sigma self)) (sb_positions self) in
    map (fun w => Some (w / Rsum kernel)%R) kernel.

(** The sum of an array of weights, not a number if one of them is not. *)
Fixpoint kernel_sum (k : list (option R)) : option R :=
  match k with
  | [] => Some 0%R
  | Some w :: rest => option_map (Rplus w) (kernel_sum rest)
  | None :: _ => None
  end.

(** [run(data)]: the kernel becomes the weight of the convolution, which is
    applied to the texture; [None] when the kernel is not a number. *)
Definition SurfBlur_run (self : SurfBlur) (data : list R) : option (list R) :=
  match kernel_sum (gaussian_kernel self) with
  | Some _ =>
      Some (IcoDiNeConv_forward (sb_conv self)
              (map (fun w => match w with Some w => w | None => 0%R end)
                   (gaussian_kernel self)) data)
  | None => None
  end.

(** *** Statements about [SurfBlur] *)

(** The nearest integer, a tie going up. *)
Definition round_half_up (x : Q) : Z := Qfloor (x + (1 # 2)).

(** The nearest integer, a tie going away from zero. *)
Definition round_half_away (x : Q) : Z :=
  if Qle_bool 0 x then Qfloor (x + (1 # 2)) else Qceiling (x - (1 # 2)).

(** The nearest integer, a tie going to the even one (Python's [round]). *)
Definition round_half_even (x : Q) : Z :=
  let f := Qfloor x in
  match (x - inject_Z f ?= 1 # 2)%Q with
  | Lt => f
  | Gt => f + 1
  | Eq => if Z.even f then f else f + 1
  end.

Lemma round_half_up_nearest (x : Q) :
  (x - (1 # 2) < inject_Z (round_half_up x) /\ inject_Z (round_half_up x) <= x + (1 # 2))%Q.
Proof.
  unfold round_half_up. split.
  - pose proof (Qlt_floor (x + (1 # 2))) as H.
    rewrite inject_Z_plus in H. apply (Qplus_lt_l _ _ 1).
    eapply Qle_lt_trans; [|exact H]. ring_simplify. apply Qle_refl.
  - apply Qfloor_le.
Qed.

Lemma py_int_max_floor (x : Q) : Z.max 1 (py_int x) = Z.max 1 (Qfloor x).
Proof.
  destruct x as [p q]. unfold py_int. cbn [Qfloor Qnum Qden].
  destruct (Z_le_gt_dec 0 p) as [Hp|Hp].
  - by rewrite Z.quot_div_nonneg by lia.
  - assert (p `quot` Z.pos q <= 0).
    { rewrite <- (Z.opp_involutive p), Z.quot_opp_l by lia.
      pose proof (Z.quot_pos (- p) (Z.pos q)). lia. }
    assert (p `div` Z.pos q < 0) by (apply Z.div_lt_upper_bound; lia).
    lia.
Qed.

Lemma round_half_away_max (x : Q) :
  Z.max 1 (round_half_away x) = Z.max 1 (round_half_up x).
Proof.
  unfold round_half_away, round_half_up.
  destruct (Qle_bool 0 x) eqn:E; [reflexivity|].
  assert (Hx : (x < 0)%Q).
  { apply Qnot_le_lt. intros H. apply Qle_bool_iff in H. congruence. }
  assert (Hc : Qceiling (x - (1 # 2)) <= 0).
  { pose proof (Qceiling_lt (x - (1 # 2))) as H.
    assert (H' : (inject_Z (Qceiling (x - (1 # 2)) - 1) < inject_Z 0)%Q).
    { eapply Qlt_trans; [exact H|]. change (inject_Z 0) with 0%Q. Lqa.lra. }
    rewrite <- Zlt_Qlt in H'. lia. }
  assert (Hf : Qfloor (x + (1 # 2)) <= 0).
  { pose proof (Qfloor_le (x + (1 # 2))) as H.
    assert (H' : (inject_Z (Qfloor (x + (1 # 2))) < inject_Z 1)%Q).
    { eapply Qle_lt_trans; [exact H|]. change (inject_Z 1) with 1%Q. Lqa.lra. }
    rewrite <- Zlt_Qlt in H'. lia. }
  lia.
Qed.

Lemma length_ring_slots (n : nat) :
  length (flat_map (fun ring => repeat ring (Z.to_nat (6 * ring)))
            (range 1 (Z.of_nat n + 1))) = (3 * n * (n + 1))%nat.
Proof.
  induction n as [|n IH]; [reflexivity|].
  replace (Z.of_nat (S n) + 1) with (Z.of_nat n + 1 + 1) by lia.
  rewrite range_snoc by lia. rewrite flat_map_app, length_app, IH.
  cbn [flat_map]. rewrite app_nil_r, repeat_length. lia.
Qed.

Lemma length_blur_positions (d : Z) :
  0 <= d -> length (blur_positions d) = Z.to_nat (1 + 3 * d * (d + 1)).
Proof.
  intros Hd. unfold blur_positions. rewrite length_app. cbn [length].
  rewrite <- (Z2Nat.id d) at 1 by lia. rewrite length_ring_slots. nia.
Qed.

Lemma In_blur_positions (d r : Z) :
  In r (blur_positions d) <-> r = 0 \/ 1 <= r <= d.
Proof.
  unfold blur_positions. rewrite in_app_iff, in_flat_map. cbn [In]. split.
  - intros [[<-|[]]|(ring & Hring & Hr)]; [by left|].
    apply repeat_spec in Hr. subst. apply elem_of_range in Hring. right. lia.
  - intros [->|Hr]; [left; by left|]. right. exists r. split.
    + apply elem_of_range. lia.
    + replace (Z.to_nat (6 * r)) with (S (Z.to_nat (6 * r - 1))) by lia. by left.
Qed.

Lemma np_asarray_Ok (rows arr : Neighs) : np_asarray rows = Ok arr -> arr = rows.
Proof.
  unfold np_asarray. destruct rows as [|row0 rest]; [by intros [= <-]|].
  case_match; [by intros [= <-]|discriminate].
Qed.

(** C5 (as the code has it).  The ring depth [SurfBlur.__init__] uses is
    [max(1, int(2 * sigma + 0.5))]: [max(1, r)] where [r] is [2 * sigma]
    rounded to the nearest integer with a tie going up or, which gives the
    same depth, away from zero (not to the even neighbour, as [round] does).
    With [neighs=None] the table asked of [neighbors] is the one for that
    depth; the construction goes through when its rows make an array, its
    first row has the [1 + 3 * depth * (depth + 1)] slots of that many rings
    and the convolution can be built on it; the table of the instance, which
    is the one given to the convolution, is then that table, and the ring
    distances of the slots are exactly 0..depth. *)
Theorem blur_ring_depth (vertices : Vertices) (triangles : Triangles) (sigma : Q) :
  let depth := Z.max 1 (round_half_up (2 * sigma)) in
  let table := neighbors vertices triangles (Some depth) true in
  blur_depth sigma = depth /\
  depth = Z.max 1 (round_half_away (2 * sigma)) /\
  (2 * sigma - (1 # 2) < inject_Z (round_half_up (2 * sigma)) <= 2 * sigma + (1 # 2))%Q /\
  SurfBlur_init vertices triangles sigma None =
    (arr ← np_asarray table;
     row0 ← py_index arr 0;
     if Nat.eqb (Z.to_nat (1 + 3 * depth * (depth + 1))) (length row0)
     then conv ← IcoDiNeConv_init 1 1 arr false;
          Ok (mkSurfBlur vertices triangles sigma arr (blur_positions depth) conv)
     else Raise AssertionError) /\
  (forall self, SurfBlur_init vertices triangles sigma None = Ok self ->
     sb_neighs self = table /\
     IcoDiNeConv_init 1 1 table false = Ok (sb_conv self) /\
     sb_positions self = blur_positions depth /\
     exists row0 rest, table = row0 :: rest /\
       Forall (fun row => Z.of_nat (length row) = 1 + 3 * depth * (depth + 1)) table) /\
  (forall r, In r (blur_positions depth) <-> 0 <= r <= depth).
Proof.
  intros depth table.
  assert (Hd : blur_depth sigma = depth) by apply py_int_max_floor.
  assert (Hinit : SurfBlur_init vertices triangles sigma None =
    (arr ← np_asarray table;
     row0 ← py_index arr 0;
     if Nat.eqb (Z.to_nat (1 + 3 * depth * (depth + 1))) (length row0)
     then conv ← IcoDiNeConv_init 1 1 arr false;
          Ok (mkSurfBlur vertices triangles sigma arr (blur_positions depth) conv)
     else Raise AssertionError)).
  { unfold SurfBlur_init. rewrite Hd. fold table.
    rewrite length_blur_positions by (unfold depth; lia). reflexivity. }
  split; [exact Hd|]. split; [symmetry; apply round_half_away_max|].
  split; [apply round_half_up_nearest|]. split; [exact Hinit|]. split.
  - intros self Hself. rewrite Hinit in Hself.
    destruct (np_asarray table) as [arr|e] eqn:Earr; [|discriminate].
    pose proof (np_asarray_Ok _ _ Earr) as ->. cbn in Hself.
    destruct table as [|row0 rest] eqn:Etable; [discriminate|].
    change (py_index (row0 :: rest) 0) with (Ok (A := list Z) row0) in Hself.
    cbn in Hself.
    destruct (Nat.eqb _ (length row0)) eqn:Elen; [|discriminate].
    apply Nat.eqb_eq in Elen.
    destruct (IcoDiNeConv_init 1 1 (row0 :: rest) false) as [conv|e] eqn:Econv;
      [|discriminate].
    injection Hself as <-. cbn [sb_neighs sb_conv sb_positions].
    split; [reflexivity|]. split; [reflexivity|]. split; [reflexivity|].
    exists row0, rest. split; [reflexivity|].
    assert (Hw : Z.of_nat (length row0) = 1 + 3 * depth * (depth + 1)).
    { unfold depth in *. lia. }
    constructor; [exact Hw|].
    cbn [np_asarray] in Earr.
    destruct (forallb _ rest) eqn:Eall; [|discriminate].
    rewrite forallb_forall in Eall. apply Forall_forall.
    intros row Hrow%list_elem_of_In%Eall%Nat.eqb_eq. lia.
  - intros r. rewrite In_blur_positions. unfold depth. lia.
Qed.

(** C5 as the specification words it fails on the code: with the [round]
    of Python and of numpy, which sends a tie to the even neighbour,
    [max(1, round(2 * sigma))] is 2 for sigma = 1.25, and the code uses the
    ring depth 3. *)
Example blur_depth_tie :
  blur_depth (5 # 4) = 3 /\ Z.max 1 (round_half_even (2 * (5 # 4))) = 2.
Proof. split; reflexivity. Qed.

Lemma gaussian_weight_pos (sigma : Q) (r : Z) : (0 < gaussian_weight sigma r)%R.
Proof. apply exp_pos. Qed.

Lemma Rsum_pos (l : list R) :
  l <> [] -> Forall (fun w => (0 < w)%R) l -> (0 < Rsum l)%R.
Proof.
  intros Hne Hall. destruct Hall as [|w l Hw Hl]; [done|]. clear Hne.
  cbn [Rsum fold_right]. fold (Rsum l).
  assert (0 <= Rsum l)%R.
  { clear Hw. induction Hl as [|w' l Hw' _ IH]; cbn; [lra|].
    fold (Rsum l). lra. }
  lra.
Qed.

Lemma kernel_sum_normalised (ws : list R) (total : R) :
  kernel_sum (map (fun w => Some (w / total)%R) ws) = Some (Rsum ws / total)%R.
Proof.
  induction ws as [|w ws IH]; cbn [map kernel_sum Rsum fold_right].
  - f_equal. unfold Rdiv. by rewrite Rmult_0_l.
  - rewrite IH. cbn [option_map]. f_equal. fold (Rsum ws). unfold Rdiv. ring.
Qed.

Lemma SurfBlur_init_positions vertices triangles sigma neighs (self : SurfBlur) :
  SurfBlur_init vertices triangles sigma neighs = Ok self ->
  sb_sigma self = sigma /\ sb_positions self = blur_positions (blur_depth sigma).
Proof.
  unfold SurfBlur_init. destruct (np_asarray _) as [arr|e]; [|discriminate]. cbn.
  destruct (py_index _ 0) as [row0|e]; [|discriminate].
  cbn. case_match; [|discriminate].
  destruct (IcoDiNeConv_init 1 1 arr false) as [conv|e]; [|discriminate].
  by intros [= <-].
Qed.

(** C6 (as the code has it).  For an instance whose sigma is not zero, the
    kernel of [run] gives the slot at ring distance [r] the weight
    [exp(-0.5 * (r / sigma)^2)] divided by the total over all the slots, and
    the weights, the one of the centre included, sum to 1. *)
Theorem blur_kernel_normalised vertices triangles sigma neighs (self : SurfBlur) :
  SurfBlur_init vertices triangles sigma neighs = Ok self ->
  ~ (sigma == 0)%Q ->
  gaussian_kernel self =
    map (fun r => Some (gaussian_weight sigma r /
                        Rsum (map (gaussian_weight sigma) (sb_positions self)))%R)
        (sb_positions self) /\
  kernel_sum (gaussian_kernel self) = Some 1%R.
Proof.
  intros Hinit Hsigma.
  destruct (SurfBlur_init_positions _ _ _ _ _ Hinit) as [Hs Hp].
  assert (Hk : gaussian_kernel self =
               map (fun w => Some (w / Rsum (map (gaussian_weight sigma) (sb_positions self)))%R)
                   (map (gaussian_weight sigma) (sb_positions self))).
  { unfold gaussian_kernel. rewrite Hs.
    destruct (Qeq_bool sigma 0) eqn:E; [|reflexivity].
    apply Qeq_bool_iff in E. contradiction. }
  split.
  - rewrite Hk, List.map_map. reflexivity.
  - rewrite Hk, kernel_sum_normalised. f_equal.
    apply Rinv_r. apply Rgt_not_eq, Rsum_pos.
    + rewrite Hp. unfold blur_positions. discriminate.
    + apply Forall_map, Forall_forall. intros r _. apply gaussian_weight_pos.
Qed.

(** *** Statements about [SurfCutOut] and [SurfNoise] *)

(** What the loop of [SurfCutOut.run] does to the contents of the array. *)
Fixpoint cutout_values (self : SurfCutOut) (k : nat) (g : Rng) (data : list Q)
    : result (Rng * list Q) :=
  match k with
  | O => Ok (g, data)
  | S k' =>
      '(random_node, random_size, g') ← cutout_draw self g;
      data' ← setitem data (find_neighbors random_node random_size (co_neighs self))
                (co_replacement_value self);
      cutout_values self k' g' data'
  end.

(** The number of entries that are zero. *)
Fixpoint count_zero (data : list Q) : nat :=
  match data with
  | [] => 0
  | q :: rest => (if Qeq_bool q 0 then 1 else 0) + count_zero rest
  end.

Lemma randint_ok (g : Rng) (low high : Z) :
  low < high ->
  exists v g', randint g low high = Ok (v, g') /\ low <= v < high.
Proof.
  intros H. unfold randint. destruct (low <? high) eqn:E; [|lia].
  destruct (rng_ints g) as [|z rest].
  - exists low, g. split; [reflexivity|lia].
  - eexists _, _. split; [reflexivity|].
    pose proof (Z.mod_pos_bound z (high - low)). lia.
Qed.

Lemma cutout_draw_ok (self : SurfCutOut) (g : Rng) :
  (0 < length (co_vertices self))%nat -> 0 <= co_sigma self ->
  exists node size g',
    cutout_draw self g = Ok (node, size, g') /\
    0 <= node < Z.of_nat (length (co_vertices self)) /\
    co_patch_size self - co_sigma self <= size <= co_patch_size self + co_sigma self.
Proof.
  intros HN Hs. unfold cutout_draw.
  destruct (randint_ok g 0 (Z.of_nat (length (co_vertices self)))) as (node & g1 & -> & Hn);
    [lia|].
  destruct (randint_ok g1 (co_patch_size self - co_sigma self)
              (co_patch_size self + co_sigma self + 1)) as (size & g2 & E & Hsz); [lia|].
  cbn. rewrite E. cbn. exists node, size, g2. repeat split; lia.
Qed.

Lemma norm_index_valid (n : nat) (i : Z) :
  0 <= i < Z.of_nat n -> norm_index n i = Some (Z.to_nat i).
Proof.
  intros H. unfold norm_index.
  destruct (0 <=? i) eqn:E1; [|lia]. destruct (i <? Z.of_nat n) eqn:E2; [|lia]. reflexivity.
Qed.

Lemma count_zero_insert (data : list Q) (j : nat) (q : Q) :
  data !! j = Some q -> Qeq_bool q 0 = false ->
  count_zero (<[j := 0%Q]> data) = S (count_zero data).
Proof.
  revert j. induction data as [|a data IH]; intros [|j] Hj Hq; try discriminate.
  - injection Hj as ->. cbn. by rewrite Hq.
  - change (<[S j := 0%Q]> (a :: data)) with (a :: <[j := 0%Q]> data).
    cbn [count_zero]. rewrite (IH j Hj Hq). lia.
Qed.

Lemma lookup_repeat {A} (a : A) (n j : nat) : (j < n)%nat -> repeat a n !! j = Some a.
Proof.
  revert j. induction n as [|n IH]; intros [|j] Hj; try lia; [reflexivity|].
  cbn. apply IH. lia.
Qed.

Lemma count_zero_ones (n : nat) : count_zero (repeat 1%Q n) = O.
Proof. induction n as [|n IH]; [reflexivity|]. cbn. exact IH. Qed.

(** Writing zero at valid positions into an array of zeros and ones whose
    zeros are at the positions of [S]. *)
Lemma setitem_zeros (indices : list Z) (data : list Q) (S : gset Z) :
  Forall (fun i => 0 <= i < Z.of_nat (length data)) indices ->
  (forall j, (j < length data)%nat ->
     data !! j = Some (if decide (Z.of_nat j ∈ S) then 0%Q else 1%Q)) ->
  count_zero data = size S ->
  exists data',
    setitem data indices 0%Q = Ok data' /\
    length data' = length data /\
    (forall j, (j < length data)%nat ->
       data' !! j = Some (if decide (Z.of_nat j ∈ S ∪ list_to_set indices) then 0%Q else 1%Q)) /\
    count_zero data' = size (S ∪ list_to_set indices).
Proof.
  clear IcoDiNeConv_forward IcoDiNeConv_init neighbors find_neighbors.
  revert data S. induction indices as [|i rest IH]; intros data S Hvalid Hdata Hcount.
  - exists data. cbn [setitem list_to_set]. rewrite (right_id_L ∅ (∪)). by repeat split.
  - inversion Hvalid as [|? ? Hi Hrest]; subst.
    cbn [setitem]. rewrite norm_index_valid by assumption.
    destruct (IH (<[Z.to_nat i := 0%Q]> data) (S ∪ {[i]})) as (data' & E & Hlen & Hpt & Hcnt).
    + rewrite length_insert. exact Hrest.
    + rewrite length_insert. intros j Hj.
      destruct (decide (j = Z.to_nat i)) as [->|Hne].
      * rewrite list_lookup_insert_eq by lia.
        rewrite decide_True; [reflexivity|]. apply elem_of_union_r, elem_of_singleton. lia.
      * rewrite list_lookup_insert_ne by congruence. rewrite Hdata by assumption.
        f_equal. destruct (decide (Z.of_nat j ∈ S)).
        -- rewrite decide_True; [reflexivity|]. by apply elem_of_union_l.
        -- rewrite decide_False; [reflexivity|].
           rewrite elem_of_union, elem_of_singleton. intros [?|?]; [contradiction|lia].
    + pose proof (Hdata (Z.to_nat i) ltac:(lia)) as Hdi. rewrite Z2Nat.id in Hdi by lia.
      destruct (decide (i ∈ S)) as [Hin|Hnin].
      * rewrite list_insert_id by exact Hdi.
        replace (S ∪ {[i]}) with S by set_solver. exact Hcount.
      * rewrite (count_zero_insert _ _ 1%Q Hdi eq_refl), Hcount.
        rewrite size_union by set_solver. rewrite size_singleton. lia.
    + exists data'. rewrite length_insert in Hlen, Hpt.
      cbn [list_to_set]. replace (S ∪ ({[i]} ∪ list_to_set rest))
        with (S ∪ {[i]} ∪ list_to_set rest) by set_solver.
      by repeat split.
Qed.

Lemma cutout_loop_values (self : SurfCutOut) (ref : positive) (k : nat)
    (g : Rng) (h : gmap positive (list Q)) (data : list Q) :
  h !! ref = Some data ->
  cutout_loop self ref k (g, h) =
  ('(g', new) ← cutout_values self k g data; Ok (g', <[ref := new]> h)).
Proof.
  revert g h data. induction k as [|k IH]; intros g h data Hh.
  - cbn. by rewrite insert_id.
  - cbn [cutout_loop cutout_values]. unfold cutout_patch. cbn [fst snd].
    destruct (cutout_draw self g) as [[[node size] g1]|e]; [|reflexivity].
    cbn. unfold read_array. rewrite Hh. cbn.
    destruct (setitem data _ _) as [data'|e]; [|reflexivity]. cbn.
    rewrite (IH g1 (<[ref := data']> h) data') by apply lookup_insert_eq.
    destruct (cutout_values self k g1 data') as [[g2 new]|e]; [|reflexivity].
    cbn. by rewrite insert_insert_eq.
Qed.

Lemma SurfCutOut_run_values (self : SurfCutOut) (ref : positive) (g : Rng)
    (h : gmap positive (list Q)) (data : list Q) :
  h !! ref = Some data ->
  SurfCutOut_run self ref (g, h) =
  ('(g', new) ← cutout_values self (Z.to_nat (co_n_patches self)) g data;
   Ok (ref, g', <[ref := new]> h)).
Proof.
  intros Hh. unfold SurfCutOut_run. rewrite (cutout_loop_values _ _ _ _ _ _ Hh).
  destruct (cutout_values _ _ _ _) as [[g' new]|e]; reflexivity.
Qed.

(** Whether position [j] of an array of length [n] is named by one of the
    indices, a negative index counting from the end. *)
Definition written (n : nat) (indices : list Z) (j : nat) : bool :=
  existsb (fun i => bool_decide (norm_index n i = Some j)) indices.

(** The indices of the patches of [k] iterations, in the order of the
    iterations: what the draws and [find_neighbors] give, the array apart. *)
Fixpoint cutout_patches (self : SurfCutOut) (k : nat) (g : Rng) : result (list Z * Rng) :=
  match k with
  | O => Ok ([], g)
  | S k' =>
      '(random_node, random_size, g') ← cutout_draw self g;
      '(rest, g'') ← cutout_patches self k' g';
      Ok (find_neighbors random_node random_size (co_neighs self) ++ rest, g'')
  end.

(** An assignment that succeeds keeps the length; the positions the indices
    name hold the value, the others what they held. *)
Lemma setitem_written (indices : list Z) (data data' : list Q) (v : Q) :
  setitem data indices v = Ok data' ->
  length data' = length data /\
  forall j x, data !! j = Some x ->
    data' !! j = Some (if written (length data) indices j then v else x).
Proof.
  revert data. induction indices as [|i rest IH]; intros data.
  - cbn [setitem]. intros [= <-]. split; [reflexivity|]. intros j x Hj. exact Hj.
  - cbn [setitem]. destruct (norm_index (length data) i) as [p|] eqn:Hp; [|discriminate].
    intros E. destruct (IH _ E) as [Hlen Hent]. rewrite length_insert in Hlen, Hent.
    split; [exact Hlen|]. intros j x Hj.
    pose proof (lookup_lt_Some _ _ _ Hj) as Hlt.
    unfold written. cbn [existsb]. fold (written (length data) rest j). rewrite Hp.
    destruct (decide (p = j)) as [->|Hne].
    + rewrite bool_decide_eq_true_2 by reflexivity. cbn [orb].
      rewrite (Hent j v) by (by apply list_lookup_insert_eq).
      by destruct (written (length data) rest j).
    + rewrite bool_decide_eq_false_2 by congruence. cbn [orb].
      apply Hent. by rewrite list_lookup_insert_ne.
Qed.

Lemma written_app (n : nat) (l1 l2 : list Z) (j : nat) :
  written n (l1 ++ l2) j = written n l1 j || written n l2 j.
Proof. unfold written. apply existsb_app. Qed.

(** The loop of [run]: the positions named by the indices of its patches
    hold the replacement value, the others what they held. *)
Lemma cutout_values_written (self : SurfCutOut) (k : nat) (g g' : Rng)
    (data new : list Q) :
  cutout_values self k g data = Ok (g', new) ->
  exists indices,
    cutout_patches self k g = Ok (indices, g') /\
    length new = length data /\
    forall j x, data !! j = Some x ->
      new !! j = Some (if written (length data) indices j
                       then co_replacement_value self else x).
Proof.
  revert g data. induction k as [|k IH]; intros g data.
  - cbn. intros [= <- <-]. exists []. split; [reflexivity|]. split; [reflexivity|].
    intros j x Hj. exact Hj.
  - cbn [cutout_values cutout_patches].
    destruct (cutout_draw self g) as [[[node size] g1]|e]; [|discriminate]. cbn.
    destruct (setitem data _ _) as [data1|e] eqn:Eset; [|discriminate]. cbn. intros E.
    destruct (IH _ _ E) as (rest & -> & Hlen & Hent).
    destruct (setitem_written _ _ _ _ Eset) as [Hlen1 Hent1].
    cbn. eexists. split; [reflexivity|]. split; [congruence|].
    intros j x Hj. rewrite written_app.
    rewrite (Hent j _ (Hent1 j x Hj)), Hlen1.
    destruct (written (length data) (find_neighbors node size (co_neighs self)) j),
      (written (length data) rest j); reflexivity.
Qed.

(** The samples [np.random.normal] hands out for an array of length [n]:
    the next [n] of the generator. *)
Lemma lookup_drawn_samples (normals : list Q) (n j : nat) :
  (j < n)%nat -> firstn n (normals ++ repeat 0%Q n) !! j = Some (nth j normals 0%Q).
Proof.
  intros Hj. rewrite lookup_take_lt by exact Hj.
  destruct (nth_lookup_or_length normals j 0%Q) as [E|E].
  - rewrite lookup_app_l by (by eapply lookup_lt_Some). exact E.
  - rewrite lookup_app_r by exact E. rewrite lookup_repeat by lia.
    by rewrite nth_overflow.
Qed.

Lemma lookup_noised (sigma : Q) (normals data : list Q) (j : nat) (x : Q) :
  data !! j = Some x ->
  zip_with Qplus data
    (map (fun z => (0 + sigma * z)%Q)
         (firstn (length data) (normals ++ repeat 0%Q (length data)))) !! j
  = Some (x + (0 + sigma * nth j normals 0))%Q.
Proof.
  intros Hj. pose proof (lookup_lt_Some _ _ _ Hj) as Hlt.
  rewrite lookup_zip_with, Hj. cbn.
  rewrite list_lookup_fmap, lookup_drawn_samples by exact Hlt. reflexivity.
Qed.

(** C9.  [SurfCutOut.run] and [SurfNoise.run] work on the array they are
    given: the reference they return is the one they received, and the store
    after the call is the store before it with the contents of that one
    array replaced by the perturbed values.  No other array changes and none
    is created, so the values the array held before the call are kept
    nowhere.  The perturbed values are these: after [SurfCutOut.run] the
    array has its length, every position named by an index of one of the
    patches holds the replacement value and every other position what it
    held; after [SurfNoise.run] the array has its length and position [j]
    holds what it held plus [sigma] times the sample drawn for it. *)
Theorem run_mutates_in_place (cutout : SurfCutOut) (noise : SurfNoise)
    (ref : positive) (g : Rng) (h : gmap positive (list Q)) (data : list Q) :
  h !! ref = Some data ->
  SurfCutOut_run cutout ref (g, h) =
    ('(g', new) ← cutout_values cutout (Z.to_nat (co_n_patches cutout)) g data;
     Ok (ref, g', <[ref := new]> h)) /\
  SurfNoise_run noise ref (g, h) =
    ('(samples, g') ← normal g 0 (sn_sigma noise) (length data);
     Ok (ref, g', <[ref := zip_with Qplus data samples]> h)) /\
  (forall run, run = SurfCutOut_run cutout \/ run = SurfNoise_run noise ->
   forall r g' h', run ref (g, h) = Ok (r, g', h') ->
     r = ref /\ dom h' = dom h /\ is_Some (h' !! ref) /\
     forall p, p <> ref -> h' !! p = h !! p) /\
  (forall r g' h', SurfCutOut_run cutout ref (g, h) = Ok (r, g', h') ->
     exists indices new,
       cutout_patches cutout (Z.to_nat (co_n_patches cutout)) g = Ok (indices, g') /\
       h' !! ref = Some new /\ length new = length data /\
       forall j x, data !! j = Some x ->
         new !! j = Some (if written (length data) indices j
                          then co_replacement_value cutout else x)) /\
  (forall r g' h', SurfNoise_run noise ref (g, h) = Ok (r, g', h') ->
     exists new,
       h' !! ref = Some new /\ length new = length data /\
       forall j x, data !! j = Some x ->
         new !! j = Some (x + (0 + sn_sigma noise * nth j (rng_normals g) 0))%Q).
Proof.
  intros Hh.
  assert (E1 : SurfCutOut_run cutout ref (g, h) =
    ('(g', new) ← cutout_values cutout (Z.to_nat (co_n_patches cutout)) g data;
     Ok (ref, g', <[ref := new]> h))).
  { by apply SurfCutOut_run_values. }
  assert (E2 : SurfNoise_run noise ref (g, h) =
    ('(samples, g') ← normal g 0 (sn_sigma noise) (length data);
     Ok (ref, g', <[ref := zip_with Qplus data samples]> h))).
  { unfold SurfNoise_run, read_array. cbn [fst snd]. rewrite Hh. reflexivity. }
  split; [exact E1|]. split; [exact E2|].
  assert (Hins : forall (new : list Q) (r : positive) (g' g'' : Rng)
                          (h' : gmap positive (list Q)),
            @Ok (positive * Rng * gmap positive (list Q)) (ref, g'', <[ref := new]> h)
              = Ok (r, g', h') ->
            r = ref /\ dom h' = dom h /\ is_Some (h' !! ref) /\
            forall p, p <> ref -> h' !! p = h !! p).
  { intros new r g' g'' h' [= <- _ <-]. split; [reflexivity|]. split.
    - rewrite dom_insert_L. apply elem_of_dom_2 in Hh. set_solver.
    - split; [rewrite lookup_insert_eq; eauto|].
      intros p Hp. by rewrite lookup_insert_ne. }
  split; [|split].
  - intros run [->| ->] r g' h' Hrun.
    + rewrite E1 in Hrun.
      destruct (cutout_values _ _ _ _) as [[g'' new]|e]; [|discriminate].
      by eapply Hins.
    + rewrite E2 in Hrun.
      destruct (normal _ _ _ _) as [[samples g'']|e]; [|discriminate].
      by eapply Hins.
  - intros r g' h' Hrun. rewrite E1 in Hrun.
    destruct (cutout_values _ _ _ _) as [[g'' new]|e] eqn:Ev; [|discriminate].
    injection Hrun as <- <- <-.
    destruct (cutout_values_written _ _ _ _ _ _ Ev) as (indices & Ep & Hlen & Hent).
    exists indices, new. split; [exact Ep|]. split; [apply lookup_insert_eq|].
    split; [exact Hlen|exact Hent].
  - intros r g' h' Hrun. rewrite E2 in Hrun. unfold normal in Hrun.
    destruct (Qle_bool 0 (sn_sigma noise)); [|discriminate].
    injection Hrun as <- <- <-. eexists. split; [apply lookup_insert_eq|]. split.
    + rewrite length_zip_with, length_map, length_firstn, length_app, repeat_length. lia.
    + intros j x Hj. by apply lookup_noised.
Qed.

(** C7 (as the code has it).  A texture of ones on the vertices, one patch,
    replacement value 0, [sigma >= 0] and a helper that returns vertex
    indices for a vertex: [run] returns; the number of rings used lies in
    [patch_size - sigma, patch_size + sigma]; the zeroed vertices are exactly
    those [find_neighbors] gives for the drawn vertex and that number of
    rings, so their count is the number of distinct vertices of the patch;
    every other vertex still holds 1. *)
Theorem cutout_single_patch (self : SurfCutOut) (ref : positive) (g : Rng)
    (h : gmap positive (list Q)) :
  let N := length (co_vertices self) in
  co_n_patches self = 1 ->
  co_replacement_value self = 0%Q ->
  0 <= co_sigma self ->
  (0 < N)%nat ->
  h !! ref = Some (repeat 1%Q N) ->
  (forall node size, 0 <= node < Z.of_nat N ->
     Forall (fun i => 0 <= i < Z.of_nat N) (find_neighbors node size (co_neighs self))) ->
  exists random_node random_size g' data',
    cutout_draw self g = Ok (random_node, random_size, g') /\
    co_patch_size self - co_sigma self <= random_size <= co_patch_size self + co_sigma self /\
    SurfCutOut_run self ref (g, h) = Ok (ref, g', <[ref := data']> h) /\
    length data' = N /\
    let patch := find_neighbors random_node random_size (co_neighs self) in
    (forall j, (j < N)%nat ->
       data' !! j = Some (if decide (Z.of_nat j ∈ patch) then 0%Q else 1%Q)) /\
    count_zero data' = size (list_to_set patch : gset Z).
Proof.
  intros N Hn Hv Hs HN Hh Hvalid.
  destruct (cutout_draw_ok self g HN Hs) as (node & sz & g' & Edraw & Hnode & Hsz).
  destruct (setitem_zeros (find_neighbors node sz (co_neighs self)) (repeat 1%Q N) ∅)
    as (data' & Eset & Hlen & Hpt & Hcnt).
  { rewrite repeat_length. by apply Hvalid. }
  { intros j Hj. rewrite repeat_length in Hj. rewrite decide_False by set_solver.
    by apply lookup_repeat. }
  { by rewrite count_zero_ones, size_empty. }
  rewrite repeat_length in Hlen, Hpt. rewrite (left_id_L ∅ (∪)) in Hcnt.
  exists node, sz, g', data'. split; [exact Edraw|]. split; [exact Hsz|]. split.
  - rewrite (SurfCutOut_run_values self ref g h _ Hh).
    rewrite Hn. change (Z.to_nat 1) with 1%nat. cbn [cutout_values].
    rewrite Edraw. cbn. rewrite Hv, Eset. reflexivity.
  - split; [exact Hlen|]. split; [|exact Hcnt].
    intros j Hj. rewrite (Hpt j Hj). f_equal.
    destruct (decide (Z.of_nat j ∈ find_neighbors node sz (co_neighs self))) as [Hin|Hnin].
    + rewrite decide_True; [reflexivity|]. apply elem_of_union_r, elem_of_list_to_set, Hin.
    + rewrite decide_False; [reflexivity|].
      rewrite elem_of_union, elem_of_list_to_set. intros [?|?]; [set_solver|contradiction].
Qed.

(** *** Further statements about [SurfCutOut.run] *)

Lemma randint_empty (g : Rng) (low high : Z) :
  high <= low -> randint g low high = Raise (ValueError "low >= high").
Proof. intros H. unfold randint. destruct (low <? high) eqn:E; [lia|reflexivity]. Qed.

(** X13.  With [n_patches <= 0] the loop of [run] has no iteration: the array is
    returned as it came, nothing is drawn and the store is not touched (it
    is not even read). *)
Theorem cutout_no_patches (self : SurfCutOut) (ref : positive)
    (st : Rng * gmap positive (list Q)) :
  co_n_patches self <= 0 ->
  SurfCutOut_run self ref st = Ok (ref, fst st, snd st).
Proof.
  intros H. unfold SurfCutOut_run. replace (Z.to_nat (co_n_patches self)) with O by lia.
  destruct st. reflexivity.
Qed.

(** X14.  With at least one patch, [run] on a mesh without vertices, or with
    [sigma <= -1], fails in the draws of its first iteration: the interval
    handed to [np.random.randint] is empty. *)
Theorem cutout_empty_interval (self : SurfCutOut) (ref : positive)
    (st : Rng * gmap positive (list Q)) :
  1 <= co_n_patches self ->
  co_vertices self = [] \/ co_sigma self <= -1 ->
  SurfCutOut_run self ref st = Raise (ValueError "low >= high").
Proof.
  intros Hn Hbad. unfold SurfCutOut_run.
  replace (Z.to_nat (co_n_patches self)) with (S (Z.to_nat (co_n_patches self - 1))) by lia.
  cbn [cutout_loop]. unfold cutout_patch.
  assert (E : cutout_draw self (fst st) = Raise (ValueError "low >= high")).
  { unfold cutout_draw. destruct Hbad as [Hv|Hs].
    - rewrite Hv. reflexivity.
    - destruct (randint (fst st) 0 _) as [[node g1]|e] eqn:E1.
      + cbn. rewrite randint_empty by lia. reflexivity.
      + unfold randint in E1. destruct (0 <? _); [|by injection E1 as <-].
        destruct (rng_ints (fst st)); discriminate. }
  rewrite E. reflexivity.
Qed.

Lemma norm_index_lt (n : nat) (i : Z) (j : nat) :
  norm_index n i = Some j -> (j < n)%nat.
Proof.
  unfold norm_index.
  destruct ((0 <=? i) && (i <? Z.of_nat n)) eqn:E1.
  - intros [= <-]. apply andb_true_iff in E1. lia.
  - destruct ((- Z.of_nat n <=? i) && (i <? 0)) eqn:E2; [|discriminate].
    intros [= <-]. apply andb_true_iff in E2. lia.
Qed.

Lemma norm_index_is_Some (n : nat) (i : Z) :
  - Z.of_nat n <= i < Z.of_nat n -> is_Some (norm_index n i).
Proof.
  intros H. unfold norm_index.
  destruct ((0 <=? i) && (i <? Z.of_nat n)) eqn:E1; [eauto|].
  destruct ((- Z.of_nat n <=? i) && (i <? 0)) eqn:E2; [eauto|].
  apply andb_false_iff in E1, E2. lia.
Qed.

Lemma norm_index_None (n : nat) (i : Z) :
  i < - Z.of_nat n \/ Z.of_nat n <= i -> norm_index n i = None.
Proof.
  intros H. unfold norm_index.
  destruct ((0 <=? i) && (i <? Z.of_nat n)) eqn:E1; [apply andb_true_iff in E1; lia|].
  destruct ((- Z.of_nat n <=? i) && (i <? 0)) eqn:E2; [apply andb_true_iff in E2; lia|].
  reflexivity.
Qed.

(** An assignment through indices that numpy accepts keeps the length, and
    an entry afterwards is the one before or the value written; an entry
    that already was the value stays. *)
Lemma setitem_entries (indices : list Z) (data : list Q) (v : Q) :
  Forall (fun i => - Z.of_nat (length data) <= i < Z.of_nat (length data)) indices ->
  exists data',
    setitem data indices v = Ok data' /\
    length data' = length data /\
    forall j x, data !! j = Some x -> data' !! j = Some x \/ data' !! j = Some v.
Proof.
  revert data. induction indices as [|i rest IH]; intros data Hvalid.
  - exists data. cbn [setitem]. repeat split. intros j x Hj. by left.
  - inversion Hvalid as [|? ? Hi Hrest]; subst. cbn [setitem].
    destruct (norm_index_is_Some _ _ Hi) as [p Hp]. rewrite Hp.
    destruct (IH (<[p := v]> data)) as (data' & E & Hlen & Hent).
    { by rewrite length_insert. }
    exists data'. rewrite length_insert in Hlen. split; [exact E|]. split; [exact Hlen|].
    intros j x Hj. destruct (decide (j = p)) as [->|Hne].
    + right. apply norm_index_lt in Hp.
      destruct (Hent p v) as [H|H]; [by apply list_lookup_insert_eq|exact H|exact H].
    + apply (Hent j x). by rewrite list_lookup_insert_ne.
Qed.

Lemma setitem_out_of_bounds (indices : list Z) (data : list Q) (v : Q) (i : Z) :
  In i indices ->
  i < - Z.of_nat (length data) \/ Z.of_nat (length data) <= i ->
  setitem data indices v = Raise (IndexError "index is out of bounds").
Proof.
  revert data. induction indices as [|i' rest IH]; intros data Hin Hi; [destruct Hin|].
  cbn [setitem]. destruct (norm_index (length data) i') as [p|] eqn:Hp; [|reflexivity].
  destruct Hin as [->|Hin].
  - rewrite norm_index_None in Hp by exact Hi. discriminate.
  - apply IH; [exact Hin|]. by rewrite length_insert.
Qed.

(** X15.  Any number of patches.  On a mesh with vertices, with [sigma >= 0], a
    texture with one value per vertex and a helper that returns indices
    numpy accepts for it (negative ones included), [run] returns the array
    it was given, with the same length; every entry is the one it was or
    the replacement value. *)
Theorem cutout_any_patches (self : SurfCutOut) (ref : positive) (g : Rng)
    (h : gmap positive (list Q)) (data : list Q) :
  let N := length (co_vertices self) in
  (0 < N)%nat ->
  0 <= co_sigma self ->
  h !! ref = Some data ->
  length data = N ->
  (forall node size, 0 <= node < Z.of_nat N ->
     Forall (fun i => - Z.of_nat N <= i < Z.of_nat N)
            (find_neighbors node size (co_neighs self))) ->
  exists g' data',
    SurfCutOut_run self ref (g, h) = Ok (ref, g', <[ref := data']> h) /\
    length data' = N /\
    forall j x, data !! j = Some x ->
      data' !! j = Some x \/ data' !! j = Some (co_replacement_value self).
Proof.
  intros N HN Hs Hh Hlen Hvalid.
  rewrite (SurfCutOut_run_values self ref g h data Hh).
  generalize (Z.to_nat (co_n_patches self)). intros k.
  assert (Hloop : forall k g data0, length data0 = N ->
            exists g' data',
              cutout_values self k g data0 = Ok (g', data') /\ length data' = N /\
              forall j x, data0 !! j = Some x ->
                data' !! j = Some x \/ data' !! j = Some (co_replacement_value self)).
  { clear k g data Hh Hlen. induction k as [|k IH]; intros g data Hlen.
    - exists g, data. cbn. repeat split; [exact Hlen|]. intros j x Hj. by left.
    - cbn [cutout_values].
      destruct (cutout_draw_ok self g HN Hs) as (node & sz & g1 & -> & Hnode & _). cbn.
      destruct (setitem_entries (find_neighbors node sz (co_neighs self)) data
                  (co_replacement_value self)) as (data1 & -> & Hlen1 & Hent1).
      { rewrite Hlen. by apply Hvalid. }
      cbn. destruct (IH g1 data1) as (g' & data' & E & Hlen' & Hent'); [congruence|].
      exists g', data'. split; [exact E|]. split; [exact Hlen'|].
      intros j x Hj. destruct (Hent1 j x Hj) as [H|H].
      + by apply Hent'.
      + right. destruct (Hent' j _ H) as [H'|H']; exact H'. }
  destruct (Hloop k g data Hlen) as (g' & data' & -> & Hlen' & Hent).
  exists g', data'. by repeat split.
Qed.

(** X16.  The draws use the number of vertices of the mesh, the assignment the
    length of the array: when the first patch holds an index outside the
    array (a texture shorter than the mesh, say), [run] raises the
    [IndexError] of the assignment. *)
Theorem cutout_index_error (self : SurfCutOut) (ref : positive) (g g1 : Rng)
    (h : gmap positive (list Q)) (data : list Q) (node size i : Z) :
  1 <= co_n_patches self ->
  h !! ref = Some data ->
  cutout_draw self g = Ok (node, size, g1) ->
  In i (find_neighbors node size (co_neighs self)) ->
  i < - Z.of_nat (length data) \/ Z.of_nat (length data) <= i ->
  SurfCutOut_run self ref (g, h) = Raise (IndexError "index is out of bounds").
Proof.
  intros Hn Hh Hdraw Hin Hi.
  rewrite (SurfCutOut_run_values self ref g h data Hh).
  replace (Z.to_nat (co_n_patches self)) with (S (Z.to_nat (co_n_patches self - 1))) by lia.
  cbn [cutout_values]. rewrite Hdraw. cbn.
  rewrite (setitem_out_of_bounds _ data _ i Hin Hi). reflexivity.
Qed.

(** *** Further statements about [SurfNoise.run] *)

(** X17.  A negative [sigma] is refused by [np.random.normal]. *)
Theorem noise_negative_sigma (noise : SurfNoise) (ref : positive) (g : Rng)
    (h : gmap positive (list Q)) (data : list Q) :
  (sn_sigma noise < 0)%Q ->
  h !! ref = Some data ->
  SurfNoise_run noise ref (g, h) = Raise (ValueError "scale < 0").
Proof.
  intros Hs Hh. unfold SurfNoise_run, read_array. cbn [fst snd]. rewrite Hh. cbn.
  unfold normal. destruct (Qle_bool 0 (sn_sigma noise)) eqn:E; [|reflexivity].
  apply Qle_bool_iff in E. Lqa.lra.
Qed.


(** X19.  With [sigma = 0] the samples are all 0: [run] returns the array with the
    values it had. *)
Theorem noise_zero_sigma (noise : SurfNoise) (ref : positive) (g : Rng)
    (h : gmap positive (list Q)) (data : list Q) :
  (sn_sigma noise == 0)%Q ->
  h !! ref = Some data ->
  exists g' new,
    SurfNoise_run noise ref (g, h) = Ok (ref, g', <[ref := new]> h) /\
    Forall2 Qeq new data.
Proof.
  intros H0 Hh. unfold SurfNoise_run, read_array. cbn [fst snd]. rewrite Hh. cbn.
  unfold normal. destruct (Qle_bool 0 (sn_sigma noise)) eqn:E.
  2:{ assert (Qle_bool 0 (sn_sigma noise) = true).
      { apply Qle_bool_iff. rewrite H0. apply Qle_refl. }
      congruence. }
  cbn. eexists _, _. split; [reflexivity|].
  assert (Hlen : length (firstn (length data) (rng_normals g ++ repeat 0%Q (length data)))
                 = length data).
  { rewrite length_firstn, length_app, repeat_length. lia. }
  revert Hlen. generalize (firstn (length data) (rng_normals g ++ repeat 0%Q (length data))).
  clear Hh. induction data as [|x data IH]; intros [|z samples] Hlen; try discriminate.
  - constructor.
  - cbn. constructor; [|apply IH; by injection Hlen].
    rewrite H0. ring.
Qed.

(** *** Further statements about [SurfBlur] *)

(** X20.  The ring depth is at least 1 and does not decrease when [sigma]
    grows. *)
Theorem blur_depth_monotone (sigma sigma' : Q) :
  (sigma <= sigma')%Q ->
  1 <= blur_depth sigma <= blur_depth sigma'.
Proof.
  intros Hle. unfold blur_depth. rewrite !py_int_max_floor.
  assert (Qfloor (2 * sigma + (1 # 2)) <= Qfloor (2 * sigma' + (1 # 2))).
  { apply Qfloor_resp_le. Lqa.lra. }
  lia.
Qed.

(** X21.  Every [sigma] below 0.75, zero and the negative ones included, gets the
    ring depth 1. *)
Theorem blur_depth_small_sigma (sigma : Q) :
  (sigma < 3 # 4)%Q -> blur_depth sigma = 1.
Proof.
  intros Hsmall. unfold blur_depth. rewrite py_int_max_floor.
  pose proof (Qfloor_le (2 * sigma + (1 # 2))) as H.
  assert (H' : (inject_Z (Qfloor (2 * sigma + (1 # 2))) < inject_Z 2)%Q).
  { eapply Qle_lt_trans; [exact H|]. change (inject_Z 2) with 2%Q. Lqa.lra. }
  rewrite <- Zlt_Qlt in H'. lia.
Qed.

Lemma count_occ_repeat (a r : Z) (n : nat) :
  count_occ Z.eq_dec (repeat a n) r = if decide (r = a) then n else O.
Proof.
  induction n as [|n IH]; cbn [repeat count_occ]; [by destruct (decide _)|].
  destruct (Z.eq_dec a r) as [->|Hne]; rewrite IH.
  - rewrite !decide_True by reflexivity. reflexivity.
  - rewrite !decide_False by congruence. reflexivity.
Qed.

Lemma count_occ_ring_slots (n : nat) (r : Z) :
  count_occ Z.eq_dec
    (flat_map (fun ring => repeat ring (Z.to_nat (6 * ring))) (range 1 (Z.of_nat n + 1))) r
  = if decide (1 <= r <= Z.of_nat n) then Z.to_nat (6 * r) else O.
Proof.
  induction n as [|n IH].
  - cbn. rewrite decide_False by lia. reflexivity.
  - replace (Z.of_nat (S n) + 1) with (Z.of_nat n + 1 + 1) by lia.
    rewrite range_snoc by lia. rewrite flat_map_app, count_occ_app, IH.
    cbn [flat_map]. rewrite app_nil_r, count_occ_repeat.
    destruct (decide (r = Z.of_nat n + 1)) as [->|Hne].
    + rewrite decide_False by lia. rewrite decide_True by lia. reflexivity.
    + destruct (decide (1 <= r <= Z.of_nat n)).
      * rewrite decide_True by lia. lia.
      * rewrite decide_False by lia. reflexivity.
Qed.

Definition ascending (l : list Z) : Prop :=
  forall i j a b, (i <= j)%nat -> l !! i = Some a -> l !! j = Some b -> a <= b.

Lemma ascending_app (l1 l2 : list Z) :
  ascending l1 -> ascending l2 ->
  (forall a b, In a l1 -> In b l2 -> a <= b) ->
  ascending (l1 ++ l2).
Proof.
  intros H1 H2 H12 i j a b Hij Hi Hj.
  apply lookup_app_Some in Hi, Hj.
  destruct Hi as [Hi|[Hli Hi]], Hj as [Hj|[Hlj Hj]].
  - by eapply H1.
  - apply H12; apply list_elem_of_In; by eapply list_elem_of_lookup_2.
  - apply lookup_lt_Some in Hj. lia.
  - eapply (H2 (i - length l1)%nat (j - length l1)%nat); [lia|exact Hi|exact Hj].
Qed.

Lemma ascending_ring_slots (n : nat) :
  ascending (flat_map (fun ring => repeat ring (Z.to_nat (6 * ring)))
               (range 1 (Z.of_nat n + 1))) /\
  Forall (fun a => 1 <= a <= Z.of_nat n)
    (flat_map (fun ring => repeat ring (Z.to_nat (6 * ring))) (range 1 (Z.of_nat n + 1))).
Proof.
  induction n as [|n [IHs IHb]].
  - split; [|constructor]. intros i j a b _ Hi. destruct i; discriminate.
  - replace (Z.of_nat (S n) + 1) with (Z.of_nat n + 1 + 1) by lia.
    rewrite range_snoc by lia. rewrite flat_map_app. cbn [flat_map]. rewrite app_nil_r.
    assert (Hrep : forall a, In a (repeat (Z.of_nat n + 1) (Z.to_nat (6 * (Z.of_nat n + 1))))
                     -> a = Z.of_nat n + 1).
    { intros a Ha. by apply repeat_spec in Ha. }
    split.
    + apply ascending_app; [exact IHs| |].
      * intros i j a b _ Hi Hj.
        apply list_elem_of_lookup_2, list_elem_of_In, Hrep in Hi, Hj. lia.
      * intros a b Ha%list_elem_of_In Hb. eapply Forall_forall in IHb; [|exact Ha].
        apply Hrep in Hb. cbn in IHb. lia.
    + apply Forall_app. split.
      * eapply Forall_impl; [exact IHb|]. intros a Ha. cbn in Ha. lia.
      * apply Forall_forall. intros a Ha%list_elem_of_In%Hrep. lia.
Qed.

(** X22.  The ring distances of the slots (lines 165-166): the centre once, ring
    [r] of 1..depth [6 * r] times, nothing else, and the distances do not
    decrease along the slots. *)
Theorem blur_positions_ring_counts (depth r : Z) :
  count_occ Z.eq_dec (blur_positions depth) r =
    (if decide (r = 0) then 1%nat
     else if decide (1 <= r <= depth) then Z.to_nat (6 * r) else O) /\
  ascending (blur_positions depth).
Proof.
  assert (Hrings : flat_map (fun ring => repeat ring (Z.to_nat (6 * ring)))
                     (range 1 (depth + 1)) =
                   flat_map (fun ring => repeat ring (Z.to_nat (6 * ring)))
                     (range 1 (Z.of_nat (Z.to_nat depth) + 1))).
  { destruct (Z_le_gt_dec 0 depth); [by rewrite Z2Nat.id|].
    rewrite !range_nil by lia. reflexivity. }
  split.
  - unfold blur_positions. rewrite count_occ_app, Hrings, count_occ_ring_slots.
    cbn [count_occ]. destruct (Z.eq_dec 0 r) as [<-|Hne].
    + destruct (decide (1 <= 0 <= Z.of_nat (Z.to_nat depth))); [lia|].
      destruct (decide (0 = 0)); [reflexivity|congruence].
    + destruct (decide (r = 0)); [congruence|].
      destruct (decide (1 <= r <= depth));
        destruct (decide (1 <= r <= Z.of_nat (Z.to_nat depth))); try lia; reflexivity.
  - destruct (ascending_ring_slots (Z.to_nat depth)) as [Hs Hb].
    unfold blur_positions. rewrite Hrings. intros i j a b Hij Hi Hj.
    eapply (ascending_app [0]); [| exact Hs | | exact Hij | exact Hi | exact Hj].
    + intros [|i'] [|j'] a' b' _ Hi' Hj'; try discriminate.
      injection Hi' as <-. injection Hj' as <-. lia.
    + intros a' b' [<-|[]] Hb'%list_elem_of_In.
      eapply Forall_forall in Hb; [|exact Hb']. cbn in Hb. lia.
Qed.

Lemma blur_depth_pos (sigma : Q) : 1 <= blur_depth sigma.
Proof. unfold blur_depth. lia. Qed.

(** X23.  [__init__] with a table of its own ([neighs] given): [neighbors]
    is not called.  Rows of different lengths do not make an array
    ([ValueError]); an empty table makes the look-up of its first row fail
    ([IndexError]); a first row that has not the
    [1 + 3 * depth * (depth + 1)] slots of the ring depth fails the
    assertion; otherwise the convolution is built on the table, and when
    that succeeds the instance holds the table as it was given. *)
Theorem blur_init_given_table (vertices : Vertices) (triangles : Triangles) (sigma : Q)
    (table : Neighs) :
  let depth := blur_depth sigma in
  SurfBlur_init vertices triangles sigma (Some table) =
    match table with
    | [] => Raise (IndexError "list index out of range")
    | row0 :: rest =>
        if forallb (fun row => Nat.eqb (length row) (length row0)) rest then
          if decide (Z.of_nat (length row0) = 1 + 3 * depth * (depth + 1))
          then conv ← IcoDiNeConv_init 1 1 table false;
               Ok (mkSurfBlur vertices triangles sigma table (blur_positions depth) conv)
          else Raise AssertionError
        else Raise (ValueError "inhomogeneous shape")
    end.
Proof.
  intros depth. pose proof (blur_depth_pos sigma) as Hd. fold depth in Hd.
  unfold SurfBlur_init. fold depth. rewrite length_blur_positions by lia.
  destruct table as [|row0 rest]; [reflexivity|].
  cbn [np_asarray]. destruct (forallb _ rest); [|reflexivity].
  unfold mbind at 1. unfold result_bind at 1.
  change (py_index (row0 :: rest) 0) with (Ok (A := list Z) row0).
  unfold mbind at 1. unfold result_bind at 1.
  destruct (decide (Z.of_nat (length row0) = 1 + 3 * depth * (depth + 1))) as [E|E].
  - rewrite (proj2 (Nat.eqb_eq _ _)) by nia. reflexivity.
  - rewrite (proj2 (Nat.eqb_neq _ _)) by nia. reflexivity.
Qed.

Lemma ring_square_lt (sigma : Q) (r r' : Z) :
  ~ (sigma == 0)%Q -> 0 <= r < r' ->
  ((inject_Z r / sigma) ^ 2 < (inject_Z r' / sigma) ^ 2)%Q.
Proof.
  intros Hs Hr.
  assert (Ht : (0 < / sigma * / sigma)%Q).
  { assert (~ (/ sigma == 0)%Q).
    { intros H. apply Hs. rewrite <- (Qinv_involutive sigma), H. reflexivity. }
    destruct (Q_dec (/ sigma) 0) as [[H0|H0]|H0]; [| |contradiction].
    - setoid_replace (/ sigma * / sigma)%Q with ((- / sigma) * (- / sigma))%Q using relation Qeq by ring.
      apply Qmult_lt_0_compat; Lqa.lra.
    - apply Qmult_lt_0_compat; Lqa.lra. }
  assert (Hrr : (inject_Z (r * r) < inject_Z (r' * r'))%Q).
  { rewrite <- Zlt_Qlt. nia. }
  rewrite !inject_Z_mult in Hrr. unfold Qdiv.
  setoid_replace ((inject_Z r * / sigma) ^ 2)%Q
    with (inject_Z r * inject_Z r * (/ sigma * / sigma))%Q using relation Qeq
    by (simpl; ring).
  setoid_replace ((inject_Z r' * / sigma) ^ 2)%Q
    with (inject_Z r' * inject_Z r' * (/ sigma * / sigma))%Q using relation Qeq
    by (simpl; ring).
  apply Qmult_lt_compat_r; assumption.
Qed.

Lemma gaussian_weight_decreasing (sigma : Q) (r r' : Z) :
  ~ (sigma == 0)%Q -> 0 <= r < r' ->
  (gaussian_weight sigma r' < gaussian_weight sigma r)%R.
Proof.
  intros Hs Hr. unfold gaussian_weight. apply exp_increasing, Qlt_Rlt.
  pose proof (ring_square_lt sigma r r' Hs Hr). Lqa.lra.
Qed.

(** X24.  In exact arithmetic (the weights as the real numbers they
    denote: the floats of the code round them, and for a small sigma let the
    weights of the rings underflow to 0), the weights of [run] for an
    instance whose sigma is not zero are one per slot, each positive; two
    slots at the same ring distance get the same weight and a slot farther
    from the centre a strictly smaller one, so no weight exceeds the one of
    the centre (slot 0). *)
Theorem blur_kernel_decreasing vertices triangles sigma neighs (self : SurfBlur) :
  SurfBlur_init vertices triangles sigma neighs = Ok self ->
  ~ (sigma == 0)%Q ->
  length (gaussian_kernel self) = length (sb_positions self) /\
  (forall i r, sb_positions self !! i = Some r ->
     exists w, gaussian_kernel self !! i = Some (Some w) /\ (0 < w)%R /\
       forall j r' w', sb_positions self !! j = Some r' ->
         gaussian_kernel self !! j = Some (Some w') ->
         (r = r' -> w = w') /\ (r < r' -> (w' < w)%R)) /\
  exists w0, gaussian_kernel self !! O = Some (Some w0) /\
    forall j w, gaussian_kernel self !! j = Some (Some w) -> (w <= w0)%R.
Proof.
  intros Hinit Hsigma.
  destruct (SurfBlur_init_positions _ _ _ _ _ Hinit) as [Hs Hp].
  set (total := Rsum (map (gaussian_weight sigma) (sb_positions self))).
  assert (Hk : gaussian_kernel self =
               map (fun r => Some (gaussian_weight sigma r / total)%R) (sb_positions self)).
  { unfold gaussian_kernel. rewrite Hs.
    destruct (Qeq_bool sigma 0) eqn:E.
    - apply Qeq_bool_iff in E. contradiction.
    - rewrite List.map_map. reflexivity. }
  assert (Htotal : (0 < / total)%R).
  { apply Rinv_0_lt_compat, Rsum_pos.
    - rewrite Hp. unfold blur_positions. discriminate.
    - apply Forall_map, Forall_forall. intros r _. apply gaussian_weight_pos. }
  assert (Hnonneg : forall j r, sb_positions self !! j = Some r -> 0 <= r).
  { intros j r Hj. apply list_elem_of_lookup_2, list_elem_of_In in Hj.
    rewrite Hp in Hj. apply In_blur_positions in Hj. lia. }
  assert (Hlook : forall j w, gaussian_kernel self !! j = Some (Some w) ->
            exists r, sb_positions self !! j = Some r /\
                      w = (gaussian_weight sigma r / total)%R).
  { intros j w Hj. rewrite Hk, list_lookup_fmap in Hj.
    destruct (sb_positions self !! j) as [r|]; [|discriminate].
    exists r. split; [reflexivity|]. by injection Hj as <-. }
  assert (Hpoint : forall i r, sb_positions self !! i = Some r ->
     exists w, gaussian_kernel self !! i = Some (Some w) /\ (0 < w)%R /\
       forall j r' w', sb_positions self !! j = Some r' ->
         gaussian_kernel self !! j = Some (Some w') ->
         (r = r' -> w = w') /\ (r < r' -> (w' < w)%R)).
  { intros i r Hi. exists (gaussian_weight sigma r / total)%R. split.
    { rewrite Hk, list_lookup_fmap, Hi. reflexivity. }
    split.
    { apply Rmult_lt_0_compat; [apply gaussian_weight_pos|exact Htotal]. }
    intros j r' w' Hj Hw'. destruct (Hlook j w' Hw') as (r'' & Hj' & ->).
    rewrite Hj in Hj'. injection Hj' as <-. split.
    - by intros ->.
    - intros Hlt. apply Rmult_lt_compat_r; [exact Htotal|].
      apply gaussian_weight_decreasing; [exact Hsigma|].
      split; [by eapply Hnonneg|exact Hlt]. }
  split; [by rewrite Hk, length_map|]. split; [exact Hpoint|].
  assert (H0 : sb_positions self !! O = Some 0) by (rewrite Hp; reflexivity).
  destruct (Hpoint O 0 H0) as (w0 & Hw0 & _ & Hothers).
  exists w0. split; [exact Hw0|]. intros j w Hj.
  destruct (Hlook j w Hj) as (r & Hr & _).
  destruct (Hothers j r w Hr Hj) as [Heq Hlt].
  destruct (Z.eq_dec 0 r) as [E|E].
  - rewrite (Heq E). apply Rle_refl.
  - apply Rlt_le, Hlt. pose proof (Hnonneg j r Hr). lia.
Qed.

End Augmentations.

(** *** A concrete mesh: the icosahedron of order 0 *)

(** Modelled from the spec: [find_neighbors(vertex, ring_count,
    neighbor_table)] of [surfify.utils] is not among the sources; the
    specification has it return the flat list of the vertices within that
    many rings of the vertex. *)
Definition neighbor_row (neighs : Neighs) (v : Z) : list Z :=
  if 0 <=? v then nth (Z.to_nat v) neighs [] else [].

Fixpoint within_rings (neighs : Neighs) (k : nat) (node : Z) : list Z :=
  match k with
  | O => [node]
  | S k' =>
      let inner := within_rings neighs k' node in
      remove_dups (inner ++ flat_map (neighbor_row neighs) inner)
  end.

Definition find_neighbors_spec (node size : Z) (neighs : Neighs) : list Z :=
  within_rings neighs (Z.to_nat size) node.

Definition ico0_vertices : Vertices :=
  [ (0, 0, 1); (894 # 1000, 0, 447 # 1000); (276 # 1000, 851 # 1000, 447 # 1000);
    (- 724 # 1000, 526 # 1000, 447 # 1000); (- 724 # 1000, - 526 # 1000, 447 # 1000);
    (276 # 1000, - 851 # 1000, 447 # 1000); (724 # 1000, 526 # 1000, - 447 # 1000);
    (- 276 # 1000, 851 # 1000, - 447 # 1000); (- 894 # 1000, 0, - 447 # 1000);
    (- 276 # 1000, - 851 # 1000, - 447 # 1000); (724 # 1000, - 526 # 1000, - 447 # 1000);
    (0, 0, - 1) ]%Q.

Definition ico0_triangles : Triangles :=
  [ (0, 1, 2); (1, 6, 2); (2, 6, 7); (6, 11, 7); (0, 2, 3); (2, 7, 3); (3, 7, 8);
    (7, 11, 8); (0, 3, 4); (3, 8, 4); (4, 8, 9); (8, 11, 9); (0, 4, 5); (4, 9, 5);
    (5, 9, 10); (9, 11, 10); (0, 5, 1); (5, 10, 1); (1, 10, 6); (10, 11, 6) ].

(** The vertices that share an edge with each vertex. *)
Definition ico0_adjacent : Neighs :=
  [ [1; 2; 3; 4; 5]; [0; 2; 5; 6; 10]; [0; 1; 3; 6; 7]; [0; 2; 4; 7; 8];
    [0; 3; 5; 8; 9]; [0; 1; 4; 9; 10]; [1; 2; 7; 10; 11]; [2; 3; 6; 8; 11];
    [3; 4; 7; 9; 11]; [4; 5; 8; 10; 11]; [1; 5; 6; 9; 11]; [6; 7; 8; 9; 10] ].

(** A stand-in for [neighbors]: rows of [1 + 3 * depth * (depth + 1)] slots,
    the vertex first, then its neighbours, the first one repeated to fill
    the row. *)
Definition ico0_neighbors (_ : Vertices) (_ : Triangles) (depth : option Z) (_ : bool)
    : Neighs :=
  let d := match depth with Some d => d | None => 1 end in
  let width := Z.to_nat (1 + 3 * d * (d + 1)) in
  map (fun '(v, row) => firstn width (Z.of_nat v :: row ++ repeat (hd 0 row) width))
      (combine (seq 0 12) ico0_adjacent).

(** A stand-in for the constructor of [IcoDiNeConv]: the layer is the table
    it was built on. *)
Definition ico0_conv_init (in_feats out_feats : Z) (neighs : Neighs) (bias : bool)
    : result Neighs :=
  if (in_feats <? 0) || (out_feats <? 0) then
    Raise (RuntimeError "Trying to create tensor with negative dimension")
  else Ok neighs.

Definition ico0_cutout (patch_size n_patches sigma : Z) : SurfCutOut :=
  SurfCutOut_init ico0_neighbors ico0_vertices ico0_triangles (Some ico0_adjacent)
    patch_size n_patches sigma 0.

Lemma within_rings_valid (neighs : Neighs) (n : Z) (k : nat) (node : Z) :
  Forall (Forall (fun i => 0 <= i < n)) neighs -> 0 <= node < n ->
  Forall (fun i => 0 <= i < n) (within_rings neighs k node).
Proof.
  intros Htable Hnode. induction k as [|k IH]; cbn [within_rings].
  - by constructor.
  - apply Forall_forall. intros i Hi%elem_of_remove_dups%elem_of_app.
    destruct Hi as [Hi|Hi].
    + by eapply Forall_forall in IH.
    + apply list_elem_of_In, in_flat_map in Hi. destruct Hi as (v & Hv & Hi).
      unfold neighbor_row in Hi. destruct (0 <=? v); [|contradiction].
      destruct (nth_lookup_or_length neighs (Z.to_nat v) []) as [Hrow|Hlen].
      * eapply Forall_lookup_1 in Htable; [|exact Hrow].
        eapply Forall_forall in Htable; [exact Htable|]. by apply list_elem_of_In.
      * rewrite nth_overflow in Hi by lia. contradiction.
Qed.

Lemma ico0_adjacent_valid : Forall (Forall (fun i => 0 <= i < 12)) ico0_adjacent.
Proof. repeat (constructor; [repeat (constructor; [lia|])|]); constructor. Qed.

Lemma cutout_single_patch_witness :
  let self := ico0_cutout 3 1 1 in
  let g := mkRng [7; 2] [] in
  let h : gmap positive (list Q) := {[ 1%positive := repeat 1%Q 12 ]} in
  exists random_node random_size g' data',
    cutout_draw self g = Ok (random_node, random_size, g') /\
    3 - 1 <= random_size <= 3 + 1 /\
    SurfCutOut_run find_neighbors_spec self 1%positive (g, h)
      = Ok (1%positive, g', <[1%positive := data']> h) /\
    length data' = 12%nat /\
    let patch := find_neighbors_spec random_node random_size ico0_adjacent in
    (forall j, (j < 12)%nat ->
       data' !! j = Some (if decide (Z.of_nat j ∈ patch) then 0%Q else 1%Q)) /\
    count_zero data' = size (list_to_set patch : gset Z).
Proof.
  intros self g h.
  apply (cutout_single_patch find_neighbors_spec self 1%positive g h).
  - reflexivity.
  - reflexivity.
  - cbn. lia.
  - cbn. lia.
  - reflexivity.
  - intros node size Hnode. apply within_rings_valid; [exact ico0_adjacent_valid|exact Hnode].
Defined.

(** C7 as the specification words it fails on the code: the patch size is a
    number of rings, not of vertices.  With [patch_size = 1] and [sigma = 0]
    the size used is 1 and the patch around vertex 3 has 6 vertices (itself
    and its five neighbours), all zeroed.  With a negative [sigma] the draw
    of the size raises. *)
Lemma cutout_zeroes_a_whole_patch :
  let h : gmap positive (list Q) := {[ 1%positive := repeat 1%Q 12 ]} in
  cutout_draw (ico0_cutout 1 1 0) (mkRng [3; 0] []) = Ok (3, 1, mkRng [] []) /\
  SurfCutOut_run find_neighbors_spec (ico0_cutout 1 1 0) 1%positive (mkRng [3; 0] [], h)
    = Ok (1%positive, mkRng [] [],
          {[ 1%positive := [0; 1; 0; 0; 0; 1; 1; 0; 0; 1; 1; 1]%Q ]}) /\
  count_zero [0; 1; 0; 0; 0; 1; 1; 0; 0; 1; 1; 1]%Q = 6%nat /\
  SurfCutOut_run find_neighbors_spec (ico0_cutout 1 1 (-1)) 1%positive (mkRng [3; 0] [], h)
    = Raise (ValueError "low >= high").
Proof. repeat split; vm_compute; reflexivity. Qed.

Lemma run_mutates_in_place_witness :
  let cutout := ico0_cutout 1 1 0 in
  let noise := SurfNoise_init (1 # 10) in
  let g := mkRng [3; 0] [1; - 2; 1 # 2]%Q in
  let data := repeat 1%Q 12 in
  let h : gmap positive (list Q) := {[ 1%positive := data ]} in
  SurfCutOut_run find_neighbors_spec cutout 1%positive (g, h) =
    ('(g', new) ← cutout_values find_neighbors_spec cutout
                    (Z.to_nat (co_n_patches cutout)) g data;
     Ok (1%positive, g', <[1%positive := new]> h)) /\
  SurfNoise_run noise 1%positive (g, h) =
    ('(samples, g') ← normal g 0 (sn_sigma noise) (length data);
     Ok (1%positive, g', <[1%positive := zip_with Qplus data samples]> h)) /\
  (forall run,
     run = SurfCutOut_run find_neighbors_spec cutout \/ run = SurfNoise_run noise ->
   forall r g' h', run 1%positive (g, h) = Ok (r, g', h') ->
     r = 1%positive /\ dom h' = dom h /\ is_Some (h' !! 1%positive) /\
     forall p, p <> 1%positive -> h' !! p = h !! p) /\
  (forall r g' h',
     SurfCutOut_run find_neighbors_spec cutout 1%positive (g, h) = Ok (r, g', h') ->
     exists indices new,
       cutout_patches find_neighbors_spec cutout (Z.to_nat (co_n_patches cutout)) g
         = Ok (indices, g') /\
       h' !! 1%positive = Some new /\ length new = length data /\
       forall j x, data !! j = Some x ->
         new !! j = Some (if written (length data) indices j
                          then co_replacement_value cutout else x)) /\
  (forall r g' h', SurfNoise_run noise 1%positive (g, h) = Ok (r, g', h') ->
     exists new,
       h' !! 1%positive = Some new /\ length new = length data /\
       forall j x, data !! j = Some x ->
         new !! j = Some (x + (0 + sn_sigma noise * nth j (rng_normals g) 0))%Q).
Proof.
  intros cutout noise g data h.
  apply (run_mutates_in_place find_neighbors_spec cutout noise 1%positive g h data).
  reflexivity.
Defined.

(** The run of the witness: both calls return, and the one array of the
    store holds other values than before; the patch around vertex 3 is
    zeroed, and the three samples of the generator are added, scaled, to the
    first three entries. *)
Example run_changes_the_array :
  let g := mkRng [3; 0] [1; - 2; 1 # 2]%Q in
  let h : gmap positive (list Q) := {[ 1%positive := repeat 1%Q 12 ]} in
  SurfCutOut_run find_neighbors_spec (ico0_cutout 1 1 0) 1%positive (g, h)
    = Ok (1%positive, mkRng [] [1; - 2; 1 # 2]%Q,
          {[ 1%positive := [0; 1; 0; 0; 0; 1; 1; 0; 0; 1; 1; 1]%Q ]}) /\
  cutout_patches find_neighbors_spec (ico0_cutout 1 1 0) 1 g
    = Ok ([3; 0; 2; 4; 7; 8], mkRng [] [1; - 2; 1 # 2]%Q) /\
  exists new,
    SurfNoise_run (SurfNoise_init (1 # 10)) 1%positive (g, h)
      = Ok (1%positive, mkRng [3; 0] [], {[ 1%positive := new ]}) /\
    Forall2 Qeq new [11 # 10; 8 # 10; 21 # 20; 1; 1; 1; 1; 1; 1; 1; 1; 1]%Q.
Proof.
  intros g h. split; [vm_compute; reflexivity|]. split; [vm_compute; reflexivity|].
  eexists. split; [vm_compute; reflexivity|].
  repeat (constructor; [reflexivity|]). constructor.
Qed.

(** An instance for sigma = 1.25, the tie: the table asked of the stand-in
    is the one of ring depth 3, with 37 slots per row. *)
Lemma blur_ring_depth_witness :
  let table := ico0_neighbors ico0_vertices ico0_triangles (Some 3) true in
  blur_depth (5 # 4) = 3 /\
  exists self,
    SurfBlur_init ico0_neighbors ico0_conv_init ico0_vertices ico0_triangles (5 # 4) None
      = Ok self /\
    sb_neighs self = table /\
    ico0_conv_init 1 1 table false = Ok (sb_conv self) /\
    sb_positions self = blur_positions 3 /\
    Forall (fun row => Z.of_nat (length row) = 37) table.
Proof.
  intros table.
  destruct (blur_ring_depth ico0_neighbors ico0_conv_init ico0_vertices ico0_triangles
              (5 # 4)) as (Hd & _ & _ & _ & Hself & _).
  split; [exact Hd|]. eexists. split; [vm_compute; reflexivity|].
  destruct (Hself _ ltac:(vm_compute; reflexivity)) as (Hn & Hc & Hp & _ & _ & _ & Hw).
  split; [exact Hn|]. split; [exact Hc|]. split; [exact Hp|exact Hw].
Defined.

(** The table [SurfBlur] gets from the stand-in for ring depth 1 has the
    seven slots of one ring. *)
Lemma blur_kernel_normalised_witness :
  exists self,
    SurfBlur_init ico0_neighbors ico0_conv_init ico0_vertices ico0_triangles (1 # 2) None = Ok self /\
    gaussian_kernel self =
      map (fun r => Some (gaussian_weight (1 # 2) r /
                          Rsum (map (gaussian_weight (1 # 2)) (sb_positions self)))%R)
          (sb_positions self) /\
    kernel_sum (gaussian_kernel self) = Some 1%R.
Proof.
  eexists. split; [vm_compute; reflexivity|].
  eapply (blur_kernel_normalised ico0_neighbors ico0_conv_init ico0_vertices ico0_triangles (1 # 2) None).
  - vm_compute. reflexivity.
  - intros H. discriminate H.
Defined.

(** C6 as the specification words it fails on the code: an instance with
    [sigma = 0] is built (ring depth 1), and its kernel is not a number, so
    the weights do not sum to 1. *)
Lemma blur_kernel_zero_sigma :
  exists self,
    SurfBlur_init ico0_neighbors ico0_conv_init ico0_vertices ico0_triangles 0 None = Ok self /\
    gaussian_kernel self = [None; None; None; None; None; None; None] /\
    kernel_sum (gaussian_kernel self) = None /\
    kernel_sum (gaussian_kernel self) <> Some 1%R /\
    SurfBlur_run (fun _ _ data => data) self (repeat 1%R 12) = None.
Proof.
  eexists. split; [vm_compute; reflexivity|].
  split; [reflexivity|]. split; [reflexivity|]. split; [discriminate|reflexivity].
Qed.

(** *** The further statements on the icosahedron of order 0 *)

Lemma cutout_no_patches_witness :
  let h : gmap positive (list Q) := {[ 1%positive := repeat 1%Q 12 ]} in
  SurfCutOut_run find_neighbors_spec (ico0_cutout 3 0 1) 1%positive (mkRng [7; 2] [], h)
  = Ok (1%positive, mkRng [7; 2] [], h).
Proof.
  intros h.
  apply (cutout_no_patches find_neighbors_spec (ico0_cutout 3 0 1) 1%positive
           (mkRng [7; 2] [], h)).
  simpl. lia.
Defined.

Lemma cutout_empty_interval_witness :
  let h : gmap positive (list Q) := {[ 1%positive := repeat 1%Q 12 ]} in
  SurfCutOut_run find_neighbors_spec (ico0_cutout 3 2 (-1)) 1%positive (mkRng [7; 2] [], h)
  = Raise (ValueError "low >= high").
Proof.
  intros h.
  apply (cutout_empty_interval find_neighbors_spec (ico0_cutout 3 2 (-1)) 1%positive
           (mkRng [7; 2] [], h)).
  - simpl. lia.
  - right. simpl. lia.
Defined.

Lemma cutout_any_patches_witness :
  let self := ico0_cutout 1 3 1 in
  let g := mkRng [7; 2; 4; 0; 11; 1] [] in
  let data := [1; 2; 3; 4; 5; 6; 7; 8; 9; 10; 11; 12]%Q in
  let h : gmap positive (list Q) := {[ 1%positive := data ]} in
  exists g' data',
    SurfCutOut_run find_neighbors_spec self 1%positive (g, h)
      = Ok (1%positive, g', <[1%positive := data']> h) /\
    length data' = 12%nat /\
    forall j x, data !! j = Some x -> data' !! j = Some x \/ data' !! j = Some 0%Q.
Proof.
  intros self g data h.
  apply (cutout_any_patches find_neighbors_spec self 1%positive g h data).
  - simpl. lia.
  - simpl. lia.
  - reflexivity.
  - reflexivity.
  - intros node size [Hlo Hhi].
    eapply Forall_impl;
      [apply within_rings_valid; [exact ico0_adjacent_valid|split; [exact Hlo|exact Hhi]]|].
    intros i Hi. simpl in Hi |- *. lia.
Defined.

(** A texture of five values on the mesh of twelve vertices: the patch
    around vertex 3 reaches vertex 7. *)
Lemma cutout_index_error_witness :
  let h : gmap positive (list Q) := {[ 1%positive := repeat 1%Q 5 ]} in
  SurfCutOut_run find_neighbors_spec (ico0_cutout 1 1 0) 1%positive (mkRng [3; 0] [], h)
  = Raise (IndexError "index is out of bounds").
Proof.
  intros h.
  apply (cutout_index_error find_neighbors_spec (ico0_cutout 1 1 0) 1%positive
           (mkRng [3; 0] []) (mkRng [] []) h (repeat 1%Q 5) 3 1 7).
  - simpl. lia.
  - reflexivity.
  - reflexivity.
  - vm_compute. do 4 right. left. reflexivity.
  - right. simpl. lia.
Defined.

Lemma noise_negative_sigma_witness :
  let h : gmap positive (list Q) := {[ 1%positive := repeat 1%Q 12 ]} in
  SurfNoise_run (SurfNoise_init (- 1 # 10)) 1%positive (mkRng [] [1; 2]%Q, h)
  = Raise (ValueError "scale < 0").
Proof.
  intros h.
  apply (noise_negative_sigma (SurfNoise_init (- 1 # 10)) 1%positive (mkRng [] [1; 2]%Q) h
           (repeat 1%Q 12)).
  - reflexivity.
  - reflexivity.
Defined.


Lemma noise_zero_sigma_witness :
  let g := mkRng [5] [1; - 2; 1 # 2]%Q in
  let data := [1; 2; 3; 4]%Q in
  let h : gmap positive (list Q) := {[ 1%positive := data ]} in
  exists g' new,
    SurfNoise_run (SurfNoise_init 0) 1%positive (g, h)
      = Ok (1%positive, g', <[1%positive := new]> h) /\
    Forall2 Qeq new data.
Proof.
  intros g data h.
  apply (noise_zero_sigma (SurfNoise_init 0) 1%positive g h data).
  - reflexivity.
  - reflexivity.
Defined.

Lemma blur_depth_monotone_witness : 1 <= blur_depth (1 # 2) <= blur_depth (5 # 4).
Proof.
  apply (blur_depth_monotone (1 # 2) (5 # 4)).
  discriminate.
Defined.

Lemma blur_depth_small_sigma_witness : blur_depth (- 3 # 1) = 1.
Proof.
  apply (blur_depth_small_sigma (- 3 # 1)).
  reflexivity.
Defined.

Lemma blur_kernel_decreasing_witness :
  exists self,
    SurfBlur_init ico0_neighbors ico0_conv_init ico0_vertices ico0_triangles (1 # 2) None = Ok self /\
    length (gaussian_kernel self) = length (sb_positions self) /\
    (forall i r, sb_positions self !! i = Some r ->
       exists w, gaussian_kernel self !! i = Some (Some w) /\ (0 < w)%R /\
         forall j r' w', sb_positions self !! j = Some r' ->
           gaussian_kernel self !! j = Some (Some w') ->
           (r = r' -> w = w') /\ (r < r' -> (w' < w)%R)) /\
    exists w0, gaussian_kernel self !! O = Some (Some w0) /\
      forall j w, gaussian_kernel self !! j = Some (Some w) -> (w <= w0)%R.
Proof.
  eexists. split; [vm_compute; reflexivity|].
  eapply (blur_kernel_decreasing ico0_neighbors ico0_conv_init ico0_vertices ico0_triangles (1 # 2) None).
  - vm_compute. reflexivity.
  - intros H. discriminate H.
Defined.
